(** * Background Music driver: clients, IO reference counts and app routing

    A shallow embedding of [BGM_Client.cpp] and [BGM_Clients.cpp]
    (BGMDriver/BGMDriver/DeviceClients) and the properties of the
    per-client routing ring buffer, the IO reference counts, the
    music-player designator, the per-app controls and the routing graph.

    Conventions.
    - C++ integers are [Z]; every arithmetic result is wrapped to the width of
      its C++ type ([u32], [u64]).
    - [Float32] and [Float64] are IEEE-754 binary32 / binary64 values, modelled
      with the Standard Library's [spec_float] at precision 24 / 53.
    - A method of [BGM_Clients] that can throw is a computation in the monad
      [M]: it always yields the (possibly already mutated) object together with
      either the returned value or the exception. *)

From Stdlib Require Import ZArith Lia Floats.SpecFloat.
From stdpp Require Import gmap strings list fin_maps list_numbers.

Local Open Scope Z_scope.

(** ** Machine integers *)

Definition UINT32_MOD : Z := 2 ^ 32.
Definition UINT64_MOD : Z := 2 ^ 64.
Definition UINT64_MAX : Z := 2 ^ 64 - 1.

Definition u32 (x : Z) : Z := x mod UINT32_MOD.
Definition u64 (x : Z) : Z := x mod UINT64_MOD.

(** ** IEEE-754 samples *)

Definition Float32 : Type := spec_float.
Definition Float64 : Type := spec_float.

Definition f32_zero : Float32 := S754_zero false.
Definition f32_one : Float32 := SFone 24 128.
Definition f32_of_Z (z : Z) : Float32 := binary_normalize 24 128 z 0 false.
Definition f32_add : Float32 → Float32 → Float32 := SFadd 24 128.
Definition f32_mul : Float32 → Float32 → Float32 := SFmul 24 128.
Definition f32_div : Float32 → Float32 → Float32 := SFdiv 24 128.
(** The C++ operators [==] and [!=] on [Float32]: a NaN differs from
    everything, itself included, and the two zeros are equal. *)
Definition f32_eq (x y : Float32) : bool := SFeqb x y.
Definition f32_ne (x y : Float32) : bool := negb (SFeqb x y).

Definition f64_zero : Float64 := S754_zero false.
Definition f64_of_Z (z : Z) : Float64 := binary_normalize 53 1024 z 0 false.
Definition f64_add : Float64 → Float64 → Float64 := SFadd 53 1024.

Definition is_nan (x : spec_float) : bool :=
  match x with S754_nan => true | _ => false end.

(** ** Routes ([BGM_AudioRoute]) *)

Record BGM_AudioRoute := mkRoute {
  mSourcePID : Z;
  mDestPID : Z;
  mGain : Float32;
  mEnabled : bool
}.

(** ** BGM_Client *)

(** Modelled from the spec: [kRoutingBufferChannels] is declared in
    [BGM_Client.h], which is not part of the sources; the routing buffer
    holds interleaved stereo frames ([RING_FRAMES × 2] samples). *)
Definition kRoutingBufferChannels : Z := 2.

Record BGM_Client := mkClient {
  mClientID : Z;                           (* UInt32 *)
  mProcessID : Z;                          (* pid_t *)
  mIsNativeEndian : bool;
  mBundleID : option string;               (* CACFString; None = not valid *)
  mDoingIO : bool;
  mIsMusicPlayer : bool;
  mRelativeVolume : Float32;
  mPanPosition : Z;                        (* SInt32 *)
  mEQLowGain : Float32;
  mEQMidGain : Float32;
  mEQHighGain : Float32;
  mOutgoingRoutes : list BGM_AudioRoute;
  mRoutingBuffer : option (list Float32);  (* Float32*; None = nullptr *)
  mRoutingBufferAllocated : bool;
  mRoutingBufferWritePos : Z;              (* std::atomic<UInt64> *)
  mRoutingBufferSampleTime : Float64
}.

Definition set_mDoingIO (b : bool) (c : BGM_Client) : BGM_Client :=
  mkClient (mClientID c) (mProcessID c) (mIsNativeEndian c) (mBundleID c)
    b (mIsMusicPlayer c) (mRelativeVolume c) (mPanPosition c)
    (mEQLowGain c) (mEQMidGain c) (mEQHighGain c) (mOutgoingRoutes c)
    (mRoutingBuffer c) (mRoutingBufferAllocated c)
    (mRoutingBufferWritePos c) (mRoutingBufferSampleTime c).

Definition set_mIsMusicPlayer (b : bool) (c : BGM_Client) : BGM_Client :=
  mkClient (mClientID c) (mProcessID c) (mIsNativeEndian c) (mBundleID c)
    (mDoingIO c) b (mRelativeVolume c) (mPanPosition c)
    (mEQLowGain c) (mEQMidGain c) (mEQHighGain c) (mOutgoingRoutes c)
    (mRoutingBuffer c) (mRoutingBufferAllocated c)
    (mRoutingBufferWritePos c) (mRoutingBufferSampleTime c).




(** The four fields of the routing buffer are always written together. *)
Definition set_routing (buf : option (list Float32)) (alloc : bool)
    (pos : Z) (time : Float64) (c : BGM_Client) : BGM_Client :=
  mkClient (mClientID c) (mProcessID c) (mIsNativeEndian c) (mBundleID c)
    (mDoingIO c) (mIsMusicPlayer c) (mRelativeVolume c) (mPanPosition c)
    (mEQLowGain c) (mEQMidGain c) (mEQHighGain c) (mOutgoingRoutes c)
    buf alloc pos time.

(** [BGM_Client::Copy]: [this] takes every field of [inClient] but those of
    the routing buffer, which stay with their client. *)
Definition Copy (inClient this : BGM_Client) : BGM_Client :=
  mkClient (mClientID inClient) (mProcessID inClient)
    (mIsNativeEndian inClient) (mBundleID inClient)
    (mDoingIO inClient) (mIsMusicPlayer inClient)
    (mRelativeVolume inClient) (mPanPosition inClient)
    (mEQLowGain inClient) (mEQMidGain inClient) (mEQHighGain inClient)
    (mOutgoingRoutes inClient)
    (mRoutingBuffer this) (mRoutingBufferAllocated this)
    (mRoutingBufferWritePos this) (mRoutingBufferSampleTime this).

(** [inBuffer[i]] for a [const Float32*] argument given as the list of the
    samples the caller passed; reading past them is undefined in C++ and reads
    as silence here. *)
Definition read_sample (inBuffer : list Float32) (i : Z) : Float32 :=
  default f32_zero (inBuffer !! Z.to_nat i).

Section RoutingBuffer.

(** [kRoutingBufferFrames] is declared in [BGM_Client.h], which is not part
    of the sources: the capacity of the ring, in frames, is a parameter. *)
Variable kRoutingBufferFrames : Z.

(** The guard [!mRoutingBufferAllocated || mRoutingBuffer == nullptr] of
    the store and fetch methods. *)
Definition isNotAllocated (c : BGM_Client) : bool :=
  negb (mRoutingBufferAllocated c) || bool_decide (mRoutingBuffer c = None).

(** [BGM_Client::AllocateRoutingBuffer] *)
Definition AllocateRoutingBuffer (c : BGM_Client) : BGM_Client :=
  if negb (mRoutingBufferAllocated c) && bool_decide (mRoutingBuffer c = None)
  then
    set_routing
      (Some (replicate
               (Z.to_nat (u32 (kRoutingBufferFrames * kRoutingBufferChannels)))
               f32_zero))
      true 0 (mRoutingBufferSampleTime c) c
  else c.

(** [BGM_Client::DeallocateRoutingBuffer] *)
Definition DeallocateRoutingBuffer (c : BGM_Client) : BGM_Client :=
  if mRoutingBufferAllocated c
     && negb (bool_decide (mRoutingBuffer c = None))
  then set_routing None false 0 (mRoutingBufferSampleTime c) c
  else c.

(** One iteration of the loop of [StoreToRoutingBuffer]: the state of the
    loop is the storage and the local [writePos]. *)
Definition store_frame (inBuffer : list Float32)
    (st : list Float32 * Z) (frame : Z) : list Float32 * Z :=
  let '(buf, writePos) := st in
  let bufferOffset :=
    u32 ((writePos mod kRoutingBufferFrames) * kRoutingBufferChannels) in
  let buf := <[Z.to_nat (u32 (bufferOffset + 0)) :=
                 read_sample inBuffer (u32 (u32 (frame * 2) + 0))]> buf in
  let buf := <[Z.to_nat (u32 (bufferOffset + 1)) :=
                 read_sample inBuffer (u32 (u32 (frame * 2) + 1))]> buf in
  (buf, u64 (writePos + 1)).

(** [BGM_Client::StoreToRoutingBuffer] *)
Definition StoreToRoutingBuffer (inBuffer : list Float32)
    (inFrameCount : Z) (inSampleTime : Float64) (c : BGM_Client)
    : BGM_Client :=
  if isNotAllocated c then c
  else
    let '(storage, writePos) :=
      foldl (store_frame inBuffer)
            (default [] (mRoutingBuffer c), mRoutingBufferWritePos c)
            (seqZ 0 inFrameCount) in
    set_routing (Some storage) (mRoutingBufferAllocated c) writePos
      (f64_add inSampleTime (f64_of_Z inFrameCount)) c.

(** [BGM_Client::FetchFromRoutingBuffer]; [inChannel] is an [SInt32] and
    [inSampleOffset] a [UInt64]. *)
Definition FetchFromRoutingBuffer (inChannel : Z) (inSampleOffset : Z)
    (c : BGM_Client) : Float32 :=
  if isNotAllocated c then f32_zero
  else
    let readPos := mRoutingBufferWritePos c in
    if readPos <? inSampleOffset then f32_zero
    else
      let targetPos := u64 (readPos - inSampleOffset) in
      let bufferOffset :=
        u32 ((targetPos mod kRoutingBufferFrames)
             * kRoutingBufferChannels) in
      if (inChannel <? 0) || (kRoutingBufferChannels <=? inChannel)
      then f32_zero
      else default f32_zero
             (default [] (mRoutingBuffer c)
                !! Z.to_nat (u32 (bufferOffset + u32 inChannel))).

End RoutingBuffer.

(** ** BGM_Clients *)

Inductive BGM_Exception :=
  | BGM_InvalidClientException
  | CAException_IllegalOperation   (* CAException(kAudioHardwareIllegalOperationError) *)
  | BGM_InvalidClientPIDException
  | BGM_InvalidClientRelativeVolumeException
  | BGM_InvalidClientPanPositionException.

Inductive outcome (A : Type) :=
  | Returned (a : A)
  | Threw (e : BGM_Exception).
Arguments Returned {A} a.
Arguments Threw {A} e.

Record BGM_Clients := mkClients {
  mClientMap : gmap Z BGM_Client;          (* BGM_ClientMap, keyed by client id *)
  mStartCount : Z;                         (* UInt64 *)
  mStartCountExcludingBGMApp : Z;          (* UInt64 *)
  mBGMAppClientID : Z;                     (* SInt64; -1 = BGMApp is not a client *)
  mMusicPlayerProcessIDProperty : Z;       (* pid_t; 0 = unset *)
  mMusicPlayerBundleIDProperty : string;   (* CACFString; empty = unset *)
  mRoutes : list BGM_AudioRoute            (* std::vector<BGM_AudioRoute> *)
}.

Definition upd_mClientMap (f : gmap Z BGM_Client → gmap Z BGM_Client)
    (s : BGM_Clients) : BGM_Clients :=
  mkClients (f (mClientMap s)) (mStartCount s) (mStartCountExcludingBGMApp s)
    (mBGMAppClientID s) (mMusicPlayerProcessIDProperty s)
    (mMusicPlayerBundleIDProperty s) (mRoutes s).

Definition upd_mStartCount (f : Z → Z) (s : BGM_Clients) : BGM_Clients :=
  mkClients (mClientMap s) (f (mStartCount s)) (mStartCountExcludingBGMApp s)
    (mBGMAppClientID s) (mMusicPlayerProcessIDProperty s)
    (mMusicPlayerBundleIDProperty s) (mRoutes s).

Definition upd_mStartCountExcludingBGMApp (f : Z → Z) (s : BGM_Clients)
    : BGM_Clients :=
  mkClients (mClientMap s) (mStartCount s) (f (mStartCountExcludingBGMApp s))
    (mBGMAppClientID s) (mMusicPlayerProcessIDProperty s)
    (mMusicPlayerBundleIDProperty s) (mRoutes s).

Definition set_mBGMAppClientID (id : Z) (s : BGM_Clients) : BGM_Clients :=
  mkClients (mClientMap s) (mStartCount s) (mStartCountExcludingBGMApp s)
    id (mMusicPlayerProcessIDProperty s)
    (mMusicPlayerBundleIDProperty s) (mRoutes s).

Definition set_mMusicPlayerProcessIDProperty (pid : Z) (s : BGM_Clients)
    : BGM_Clients :=
  mkClients (mClientMap s) (mStartCount s) (mStartCountExcludingBGMApp s)
    (mBGMAppClientID s) pid (mMusicPlayerBundleIDProperty s) (mRoutes s).

Definition set_mMusicPlayerBundleIDProperty (b : string) (s : BGM_Clients)
    : BGM_Clients :=
  mkClients (mClientMap s) (mStartCount s) (mStartCountExcludingBGMApp s)
    (mBGMAppClientID s) (mMusicPlayerProcessIDProperty s) b (mRoutes s).

Definition set_mRoutes (r : list BGM_AudioRoute) (s : BGM_Clients)
    : BGM_Clients :=
  mkClients (mClientMap s) (mStartCount s) (mStartCountExcludingBGMApp s)
    (mBGMAppClientID s) (mMusicPlayerProcessIDProperty s)
    (mMusicPlayerBundleIDProperty s) r.

(** *** Methods that may throw: state and exceptions *)

Definition M (A : Type) : Type := BGM_Clients → BGM_Clients * outcome A.

Definition ret {A} (a : A) : M A := λ s, (s, Returned a).
Definition throw {A} (e : BGM_Exception) : M A := λ s, (s, Threw e).
Definition bind {A B} (m : M A) (k : A → M B) : M B :=
  λ s, match m s with
       | (s', Returned a) => k a s'
       | (s', Threw e) => (s', Threw e)
       end.
Definition get : M BGM_Clients := λ s, (s, Returned s).
Definition modify (f : BGM_Clients → BGM_Clients) : M unit :=
  λ s, (f s, Returned tt).
(** The macro [ThrowIf(cond, exception, message)]. *)
Definition ThrowIf (cond : bool) (e : BGM_Exception) : M unit :=
  if cond then throw e else ret tt.

Declare Scope bgm_scope.
Delimit Scope bgm_scope with bgm.
Notation "'let!' x ':=' m 'in' k" := (bind m (λ x, k))
  (at level 10, x name, m at level 200, k at level 200) : bgm_scope.
Notation "'do!' m ';;' k" := (bind m (λ _, k))
  (at level 10, m at level 99, k at level 200) : bgm_scope.

Local Open Scope bgm_scope.

(** *** The client map ([BGM_ClientMap])

    [BGM_ClientMap.cpp] is not part of the sources. The operations of the map
    that [BGM_Clients] calls are modelled on a finite map from client ids to
    client records. *)

(** Modelled from the spec: [BGM_ClientMap::AddClient] is missing; the record
    is inserted under its client id. *)
Definition ClientMap_AddClient (c : BGM_Client) (m : gmap Z BGM_Client)
    : gmap Z BGM_Client :=
  <[mClientID c := c]> m.

(** Modelled from the spec: [BGM_ClientMap::GetClientNonRT] is missing;
    [GetClientNonRT(id) → record copy], and nothing when the id is not in the
    map. *)
Definition GetClientNonRT (inClientID : Z) (m : gmap Z BGM_Client)
    : option BGM_Client :=
  m !! inClientID.

(** Modelled from the spec: [BGM_ClientMap::StartIONonRT] and [StopIONonRT]
    are missing; they set [doing_io] of the record in the map. *)
Definition ClientMap_StartIONonRT (inClientID : Z) (m : gmap Z BGM_Client)
    : gmap Z BGM_Client :=
  alter (set_mDoingIO true) inClientID m.

(** Modelled from the spec: see [ClientMap_StartIONonRT]. *)
Definition ClientMap_StopIONonRT (inClientID : Z) (m : gmap Z BGM_Client)
    : gmap Z BGM_Client :=
  alter (set_mDoingIO false) inClientID m.

(** Modelled from the spec: [BGM_ClientMap::UpdateMusicPlayerFlags] is
    missing; it scans the map and sets each record's [is_music_player]
    according to the new designator. *)
Definition UpdateMusicPlayerFlags_pid (inPID : Z) (m : gmap Z BGM_Client)
    : gmap Z BGM_Client :=
  (λ c, set_mIsMusicPlayer (mProcessID c =? inPID) c) <$> m.

(** Modelled from the spec: the overload of [UpdateMusicPlayerFlags] for a
    bundle id; a record matches when its bundle id is valid and equal. *)
Definition UpdateMusicPlayerFlags_bundle (inBundleID : string)
    (m : gmap Z BGM_Client) : gmap Z BGM_Client :=
  (λ c, set_mIsMusicPlayer (bool_decide (mBundleID c = Some inBundleID)) c)
    <$> m.

(** Modelled from the spec: [BGM_ClientMap::GetClientPtrRT] is missing; a
    reference to the record of the client, null when the id is unknown. *)
Definition GetClientPtrRT (inClientID : Z) (m : gmap Z BGM_Client)
    : option BGM_Client :=
  m !! inClientID.

(** Modelled from the spec: [BGM_ClientMap::GetClientByPIDRT] is missing;
    [GetClientByPIDRT(pid) → any record matching]. The model takes the first
    match in the order of the map. *)
Definition GetClientByPIDRT (inPID : Z) (m : gmap Z BGM_Client)
    : option BGM_Client :=
  (λ r : nat * (Z * BGM_Client), r.2.2)
    <$> list_find (λ kc : Z * BGM_Client, mProcessID kc.2 = inPID)
                  (map_to_list m).

(** *** Construction, AddClient *)

(** Modelled from the spec: the member initialisers are in [BGM_Clients.h],
    which is missing. A new object has no client, no route, zero counts, no
    cached BGMApp client id and no music-player designator. *)
Definition BGM_Clients_new : BGM_Clients :=
  mkClients ∅ 0 0 (-1) 0 "" [].

(** Modelled from the spec: [IsBGMApp] is defined in [BGM_Clients.h]; a client
    is the control app when its id is the cached control-app client id. *)
Definition IsBGMApp (inClientID : Z) (s : BGM_Clients) : bool :=
  inClientID =? mBGMAppClientID s.

Section AddClient.

(** [kBGMAppBundleID] is declared in [BGM_Types.h], which is missing. *)
Variable kBGMAppBundleID : string.

(** [BGM_Clients::AddClient] *)
Definition AddClient (inClient : BGM_Client) (s : BGM_Clients)
    : BGM_Clients :=
  let pidMatchesMusicPlayerProperty :=
    negb (mMusicPlayerProcessIDProperty s =? 0)
    && (mProcessID inClient =? mMusicPlayerProcessIDProperty s) in
  let bundleIDMatchesMusicPlayerProperty :=
    negb (bool_decide (mMusicPlayerBundleIDProperty s = ""))
    && bool_decide (mBundleID inClient
                    = Some (mMusicPlayerBundleIDProperty s)) in
  let inClient :=
    set_mIsMusicPlayer
      (pidMatchesMusicPlayerProperty || bundleIDMatchesMusicPlayerProperty)
      inClient in
  let s := upd_mClientMap (ClientMap_AddClient inClient) s in
  if bool_decide (mBundleID inClient = Some kBGMAppBundleID)
  then set_mBGMAppClientID (mClientID inClient) s
  else s.

End AddClient.

(** *** IO status *)

(** What [StartIONonRT] / [StopIONonRT] hand to [SendIORunningNotifications],
    with the value they return. *)
Record IOResult := mkIOResult {
  didChangeIO : bool;
  sendIsRunningNotification : bool;
  sendIsRunningSomewhereOtherThanBGMAppNotification : bool
}.

(** [BGM_Clients::StartIONonRT] *)
Definition StartIONonRT (inClientID : Z) : M IOResult :=
  let! s := get in
  match GetClientNonRT inClientID (mClientMap s) with
  | None => throw BGM_InvalidClientException
  | Some theClient =>
      if negb (mDoingIO theClient) then
        do! ThrowIf (mStartCount s =? UINT64_MAX) CAException_IllegalOperation ;;
        do! modify (upd_mClientMap (ClientMap_StartIONonRT inClientID)) ;;
        do! modify (upd_mStartCount (λ n, u64 (n + 1))) ;;
        let! s := get in
        let! sendElsewhere :=
          (if negb (IsBGMApp inClientID s) then
             do! ThrowIf (mStartCountExcludingBGMApp s =? UINT64_MAX)
                  CAException_IllegalOperation ;;
             do! modify (upd_mStartCountExcludingBGMApp (λ n, u64 (n + 1))) ;;
             let! s := get in
             ret (mStartCountExcludingBGMApp s =? 1)
           else ret false) in
        let! s := get in
        let didStartIO := mStartCount s =? 1 in
        ret (mkIOResult didStartIO didStartIO sendElsewhere)
      else ret (mkIOResult false false false)
  end.

(** [BGM_Clients::StopIONonRT] *)
Definition StopIONonRT (inClientID : Z) : M IOResult :=
  let! s := get in
  match GetClientNonRT inClientID (mClientMap s) with
  | None => throw BGM_InvalidClientException
  | Some theClient =>
      if mDoingIO theClient then
        do! modify (upd_mClientMap (ClientMap_StopIONonRT inClientID)) ;;
        do! ThrowIf (mStartCount s <=? 0) CAException_IllegalOperation ;;
        do! modify (upd_mStartCount (λ n, u64 (n - 1))) ;;
        let! s := get in
        let! sendElsewhere :=
          (if negb (IsBGMApp inClientID s) then
             do! ThrowIf (mStartCountExcludingBGMApp s <=? 0)
                  CAException_IllegalOperation ;;
             do! modify (upd_mStartCountExcludingBGMApp (λ n, u64 (n - 1))) ;;
             let! s := get in
             ret (mStartCountExcludingBGMApp s =? 0)
           else ret false) in
        let! s := get in
        let didStopIO := mStartCount s =? 0 in
        ret (mkIOResult didStopIO didStopIO sendElsewhere)
      else ret (mkIOResult false false false)
  end.

(** The condition of the [Assert] that closes both methods. *)
Definition counts_in_sync (s : BGM_Clients) : Prop :=
  mStartCountExcludingBGMApp s = u64 (mStartCount s - 1)
  ∨ mStartCountExcludingBGMApp s = mStartCount s.

(** *** Music player *)

(** [BGM_Clients::SetMusicPlayer(const pid_t)] *)
Definition SetMusicPlayer_pid (inPID : Z) : M bool :=
  do! ThrowIf (inPID <? 0) BGM_InvalidClientPIDException ;;
  let! s := get in
  if mMusicPlayerProcessIDProperty s =? inPID then ret false
  else
    do! modify (set_mMusicPlayerProcessIDProperty inPID) ;;
    do! modify (set_mMusicPlayerBundleIDProperty "") ;;
    do! modify (upd_mClientMap (UpdateMusicPlayerFlags_pid inPID)) ;;
    ret true.

(** [BGM_Clients::SetMusicPlayer(const CACFString)]; the argument is a valid
    string (the method asserts it). *)
Definition SetMusicPlayer_bundle (inBundleID : string) : M bool :=
  let! s := get in
  if bool_decide (mMusicPlayerBundleIDProperty s = inBundleID) then ret false
  else
    do! modify (set_mMusicPlayerBundleIDProperty inBundleID) ;;
    do! modify (set_mMusicPlayerProcessIDProperty 0) ;;
    do! modify (upd_mClientMap (UpdateMusicPlayerFlags_bundle inBundleID)) ;;
    ret true.

(** *** App volumes *)



Definition has_pid (pid : Z) (c : BGM_Client) : bool := mProcessID c =? pid.






Section AppVolumes.

(** The constants of [BGM_Types.h], which is missing. *)
Variables kAppRelativeVolumeMinRawValue kAppRelativeVolumeMaxRawValue : Z.
Variables kAppPanLeftRawValue kAppPanRightRawValue : Z.
Variables kAppEQGainMinRawValue kAppEQGainMaxRawValue : Z.
Variable kAppEQGainNoValue : Z.

(** [mRelativeVolumeCurve.ConvertRawToScalar], of the PublicUtility class
    [CAVolumeCurve]. *)
Variable ConvertRawToScalar : Z → Float32.

(** [theAppPID] is a local that [GetSInt32] leaves as it was when the entry
    has no PID, and that is passed on to the client map all the same: this
    is the value it then holds. *)
Variable theAppPID_uninitialised : Z.











End AppVolumes.

(** *** App routing *)

Definition route_matches (inSourcePID inDestPID : Z) (route : BGM_AudioRoute)
    : bool :=
  (mSourcePID route =? inSourcePID) && (mDestPID route =? inDestPID).

(** The first loop of [SetRoute]: the first route from [inSourcePID] to
    [inDestPID] is overwritten and the loop returns whether gain or enabled
    flag compared different; [None] when the loop ends without a match. *)
Fixpoint SetRoute_existing (inSourcePID inDestPID : Z) (inGain : Float32)
    (inEnabled : bool) (routes : list BGM_AudioRoute)
    : option (list BGM_AudioRoute * bool) :=
  match routes with
  | [] => None
  | route :: rest =>
      if route_matches inSourcePID inDestPID route then
        let changed :=
          f32_ne (mGain route) inGain
          || negb (eqb (mEnabled route) inEnabled) in
        Some (mkRoute (mSourcePID route) (mDestPID route) inGain inEnabled
                :: rest, changed)
      else
        match SetRoute_existing inSourcePID inDestPID inGain inEnabled rest with
        | Some (rest', changed) => Some (route :: rest', changed)
        | None => None
        end
  end.

(** The loop over [mRoutes] inside [SetRoutesFromArray]: the first matching
    route is overwritten only when gain or enabled flag compare different;
    the flag tells whether it was. [None] when no route matches
    ([found] stays false). *)
Fixpoint SetRoutesFromArray_existing (sourcePID destPID : Z) (gain : Float32)
    (enabled : bool) (routes : list BGM_AudioRoute)
    : option (list BGM_AudioRoute * bool) :=
  match routes with
  | [] => None
  | existingRoute :: rest =>
      if route_matches sourcePID destPID existingRoute then
        if f32_ne (mGain existingRoute) gain
           || negb (eqb (mEnabled existingRoute) enabled)
        then Some (mkRoute (mSourcePID existingRoute) (mDestPID existingRoute)
                     gain enabled :: rest, true)
        else Some (existingRoute :: rest, false)
      else
        match SetRoutesFromArray_existing sourcePID destPID gain enabled rest
        with
        | Some (rest', changed) => Some (existingRoute :: rest', changed)
        | None => None
        end
  end.

(** One element of the array given to [SetRoutesFromArray]. *)
Record RouteEntry := mkRouteEntry {
  rSourceProcessID : option Z;    (* kBGMAppRoutingKey_SourceProcessID *)
  rDestProcessID : option Z;      (* kBGMAppRoutingKey_DestProcessID *)
  rGain : option Float32;         (* kBGMAppRoutingKey_Gain *)
  rEnabled : option bool          (* kBGMAppRoutingKey_Enabled *)
}.

Section Routing.

(** [BGM_ClientMap::AllocateRoutingBufferForPID] is missing: the routing
    methods are defined for any such operation on the client map. *)
Variable AllocateRoutingBufferForPID :
  Z → gmap Z BGM_Client → gmap Z BGM_Client.

(** [BGM_Clients::SetRoute] *)
Definition SetRoute (inSourcePID inDestPID : Z) (inGain : Float32)
    (inEnabled : bool) (s : BGM_Clients) : BGM_Clients * bool :=
  match SetRoute_existing inSourcePID inDestPID inGain inEnabled (mRoutes s)
  with
  | Some (routes, changed) => (set_mRoutes routes s, changed)
  | None =>
      if inEnabled then
        let newRoute := mkRoute inSourcePID inDestPID inGain inEnabled in
        let s := set_mRoutes (mRoutes s ++ [newRoute]) s in
        let s :=
          upd_mClientMap (AllocateRoutingBufferForPID inSourcePID) s in
        (s, true)
      else (s, false)
  end.

(** The body of the loop of [SetRoutesFromArray] for one element of the
    array ([None]: the element is not a valid dictionary); [didChange] is
    the flag the loop accumulates. *)
Definition SetRoutesFromArray_entry (st : BGM_Clients * bool)
    (theRoute : option RouteEntry) : BGM_Clients * bool :=
  let '(s, didChange) := st in
  match theRoute with
  | None => (s, didChange)
  | Some theRoute =>
      match rSourceProcessID theRoute with
      | None => (s, didChange)
      | Some sourcePID =>
          match rDestProcessID theRoute with
          | None => (s, didChange)
          | Some destPID =>
              let gain := default f32_one (rGain theRoute) in
              let enabled := default true (rEnabled theRoute) in
              match SetRoutesFromArray_existing sourcePID destPID gain
                      enabled (mRoutes s) with
              | Some (routes, changed) =>
                  (set_mRoutes routes s, didChange || changed)
              | None =>
                  if enabled then
                    let newRoute := mkRoute sourcePID destPID gain enabled in
                    let s := set_mRoutes (mRoutes s ++ [newRoute]) s in
                    let s :=
                      upd_mClientMap (AllocateRoutingBufferForPID sourcePID)
                        s in
                    (s, true)
                  else (s, didChange)
              end
          end
      end
  end.

(** [BGM_Clients::SetRoutesFromArray] *)
Definition SetRoutesFromArray (inRoutes : list (option RouteEntry))
    (s : BGM_Clients) : BGM_Clients * bool :=
  foldl SetRoutesFromArray_entry (s, false) inRoutes.

(** The batch as the specification words it: the single-edge [SetRoute]
    applied entry by entry, gain defaulting to 1.0 and enabled to true,
    entries without source or destination PID skipped; the result is true
    when some call returned true. *)
Definition SetRoute_entry_by_entry_step (st : BGM_Clients * bool)
    (theRoute : option RouteEntry) : BGM_Clients * bool :=
  match theRoute with
  | Some (mkRouteEntry (Some sourcePID) (Some destPID) gain enabled) =>
      let '(s, changed) :=
        SetRoute sourcePID destPID (default f32_one gain)
          (default true enabled) st.1 in
      (s, st.2 || changed)
  | _ => st
  end.

Definition SetRoute_entry_by_entry (inRoutes : list (option RouteEntry))
    (s : BGM_Clients) : BGM_Clients * bool :=
  foldl SetRoute_entry_by_entry_step (s, false) inRoutes.

End Routing.

Section RealTime.

Variable kRoutingBufferFrames : Z.

(** Modelled from the spec: [BGM_ClientMap::AllocateRoutingBufferForPID] is
    missing; the routing buffer is allocated on the record of the source
    client. *)
Definition ClientMap_AllocateRoutingBufferForPID (inPID : Z)
    (m : gmap Z BGM_Client) : gmap Z BGM_Client :=
  (λ c, if has_pid inPID c then AllocateRoutingBuffer kRoutingBufferFrames c
        else c) <$> m.

(** [BGM_Clients::StoreClientAudioRT] *)
Definition StoreClientAudioRT (inClientID : Z) (inBuffer : list Float32)
    (inNumFrames : Z) (s : BGM_Clients) : BGM_Clients :=
  match GetClientPtrRT inClientID (mClientMap s) with
  | None => s
  | Some theClient =>
      let isRoutingSource :=
        existsb (λ route, mEnabled route
                          && (mSourcePID route =? mProcessID theClient))
                (mRoutes s) in
      if isRoutingSource then
        upd_mClientMap
          (alter (StoreToRoutingBuffer kRoutingBufferFrames inBuffer
                    inNumFrames f64_zero) inClientID) s
      else s
  end.

(** One iteration of the inner loop of [MixRoutedAudioRT]. *)
Definition mix_frame (sourceClient : BGM_Client) (gain : Float32)
    (inNumFrames : Z) (ioBuffer : list Float32) (frame : Z)
    : list Float32 :=
  let sampleOffset := u32 (inNumFrames - frame) in
  let leftSample :=
    FetchFromRoutingBuffer kRoutingBufferFrames 0 sampleOffset sourceClient in
  let rightSample :=
    FetchFromRoutingBuffer kRoutingBufferFrames 1 sampleOffset sourceClient in
  let l := u32 (frame * 2) in
  let ioBuffer :=
    <[Z.to_nat l :=
        f32_add (read_sample ioBuffer l) (f32_mul leftSample gain)]>
      ioBuffer in
  let r := u32 (u32 (frame * 2) + 1) in
  <[Z.to_nat r :=
      f32_add (read_sample ioBuffer r) (f32_mul rightSample gain)]>
    ioBuffer.

(** One iteration of the loop of [MixRoutedAudioRT] over [mRoutes]. *)
Definition mix_route (m : gmap Z BGM_Client) (destPID : Z) (inNumFrames : Z)
    (ioBuffer : list Float32) (route : BGM_AudioRoute) : list Float32 :=
  if negb (mEnabled route) || negb (mDestPID route =? destPID)
  then ioBuffer
  else
    match GetClientByPIDRT (mSourcePID route) m with
    | None => ioBuffer
    | Some sourceClient =>
        foldl (mix_frame sourceClient (mGain route) inNumFrames) ioBuffer
              (seqZ 0 inNumFrames)
    end.

(** [BGM_Clients::MixRoutedAudioRT]; the result is the content of
    [ioBuffer] when the method returns. *)
Definition MixRoutedAudioRT (inClientID : Z) (ioBuffer : list Float32)
    (inNumFrames : Z) (s : BGM_Clients) : list Float32 :=
  match GetClientPtrRT inClientID (mClientMap s) with
  | None => ioBuffer
  | Some destClient =>
      let destPID := mProcessID destClient in
      foldl (mix_route (mClientMap s) destPID inNumFrames) ioBuffer
            (mRoutes s)
  end.

End RealTime.

(** *** Sequences of stores *)

(** A sequence of calls of [StoreToRoutingBuffer] on one client: the
    arguments [(inBuffer, inFrameCount, inSampleTime)] of each call. *)
Definition StoreCall : Type := list Float32 * Z * Float64.

Definition store_calls (kRoutingBufferFrames : Z) (calls : list StoreCall)
    (c : BGM_Client) : BGM_Client :=
  foldl (λ c (call : StoreCall),
           StoreToRoutingBuffer kRoutingBufferFrames call.1.1 call.1.2 call.2 c)
        c calls.

(** A call passes [inFrameCount] interleaved stereo frames. *)
Definition store_call_ok (call : StoreCall) : Prop :=
  0 ≤ call.1.2 ∧ Z.of_nat (length call.1.1) = 2 * call.1.2.

Definition frames_written (calls : list StoreCall) : Z :=
  foldr (λ (call : StoreCall) n, call.1.2 + n) 0 calls.

Definition samples_written (calls : list StoreCall) : list Float32 :=
  concat (map (λ call : StoreCall, call.1.1) calls).

(** ** The other methods of BGM_Clients *)

(** [BGM_Clients::ClientsRunningIO] *)
Definition ClientsRunningIO (s : BGM_Clients) : bool := 0 <? mStartCount s.

(** [BGM_Clients::ClientsOtherThanBGMAppRunningIO] *)
Definition ClientsOtherThanBGMAppRunningIO (s : BGM_Clients) : bool :=
  0 <? mStartCountExcludingBGMApp s.

(** The properties [SendIORunningNotifications] reports as changed. *)
Inductive ChangedProperty :=
  | kAudioDevicePropertyDeviceIsRunning
  | kAudioDeviceCustomPropertyDeviceIsRunningSomewhereOtherThanBGMApp.

(** [BGM_Clients::SendIORunningNotifications]: the array handed to
    [Host_PropertiesChanged] by the dispatched block ([theNotificationCount]
    is its length), or nothing when no block is dispatched. *)
Definition SendIORunningNotifications (sendIsRunningNotification
    sendIsRunningSomewhereOtherThanBGMAppNotification : bool)
    : option (list ChangedProperty) :=
  if sendIsRunningNotification
     || sendIsRunningSomewhereOtherThanBGMAppNotification
  then
    let theChangedProperties :=
      if sendIsRunningNotification
      then [kAudioDevicePropertyDeviceIsRunning] else [] in
    let theChangedProperties :=
      if sendIsRunningSomewhereOtherThanBGMAppNotification
      then theChangedProperties
           ++ [kAudioDeviceCustomPropertyDeviceIsRunningSomewhereOtherThanBGMApp]
      else theChangedProperties in
    Some theChangedProperties
  else None.

(** What a call of [StartIONonRT] or [StopIONonRT] that returned has
    dispatched. *)
Definition notifications_of (r : IOResult) : option (list ChangedProperty) :=
  SendIORunningNotifications (sendIsRunningNotification r)
    (sendIsRunningSomewhereOtherThanBGMAppNotification r).

(** The loop of [ClearRoutesForClient]: every route from or to
    [inProcessID] is erased, the iteration goes on after each erasure. *)
Fixpoint ClearRoutesForClient_loop (inProcessID : Z)
    (routes : list BGM_AudioRoute) : list BGM_AudioRoute :=
  match routes with
  | [] => []
  | route :: rest =>
      if (mSourcePID route =? inProcessID) || (mDestPID route =? inProcessID)
      then ClearRoutesForClient_loop inProcessID rest
      else route :: ClearRoutesForClient_loop inProcessID rest
  end.

Section ClearRoutes.

(** [BGM_ClientMap::DeallocateRoutingBufferForPID] is missing: the method is
    defined for any such operation on the client map. *)
Variable DeallocateRoutingBufferForPID :
  Z → gmap Z BGM_Client → gmap Z BGM_Client.

(** [BGM_Clients::ClearRoutesForClient] *)
Definition ClearRoutesForClient (inProcessID : Z) (s : BGM_Clients)
    : BGM_Clients :=
  let s :=
    set_mRoutes (ClearRoutesForClient_loop inProcessID (mRoutes s)) s in
  upd_mClientMap (DeallocateRoutingBufferForPID inProcessID) s.

End ClearRoutes.

(** The dictionary [CopyRoutesAsArray] builds for one route: the four keys
    are set. *)
Definition route_entry_of (route : BGM_AudioRoute) : option RouteEntry :=
  Some (mkRouteEntry (Some (mSourcePID route)) (Some (mDestPID route))
          (Some (mGain route)) (Some (mEnabled route))).

(** [BGM_Clients::CopyRoutesAsArray]: one dictionary for each route, in the
    order of [mRoutes]. The allocations of CoreFoundation succeed. *)
Definition CopyRoutesAsArray (s : BGM_Clients) : list (option RouteEntry) :=
  map route_entry_of (mRoutes s).

(** [BGM_Clients::HasIncomingRoutesRT] *)
Definition HasIncomingRoutesRT (inClientID : Z) (s : BGM_Clients) : bool :=
  match GetClientPtrRT inClientID (mClientMap s) with
  | None => false
  | Some theClient =>
      let clientPID := mProcessID theClient in
      existsb (λ route, mEnabled route && (mDestPID route =? clientPID))
              (mRoutes s)
  end.

(** *** Looking at the routing graph *)

(** The endpoints of the routes, in the order of the graph. *)
Definition route_endpoints (routes : list BGM_AudioRoute) : list (Z * Z) :=
  map (λ route, (mSourcePID route, mDestPID route)) routes.

(** The first route from [src] to [dst], the one the loops of [SetRoute]
    and [SetRoutesFromArray] stop at. *)
Fixpoint find_route (src dst : Z) (routes : list BGM_AudioRoute)
    : option BGM_AudioRoute :=
  match routes with
  | [] => None
  | route :: rest =>
      if route_matches src dst route then Some route
      else find_route src dst rest
  end.

(** No two routes of the graph have the same source and destination. *)
Definition routes_unique (s : BGM_Clients) : Prop :=
  NoDup (route_endpoints (mRoutes s)).

(** Calls of the methods that change the routing graph, in any order. *)
Inductive RouteCall :=
  | CallSetRoute (inSourcePID inDestPID : Z) (inGain : Float32)
      (inEnabled : bool)
  | CallSetRoutesFromArray (inRoutes : list (option RouteEntry))
  | CallClearRoutesForClient (inProcessID : Z).

Definition run_route_call
    (alloc dealloc : Z → gmap Z BGM_Client → gmap Z BGM_Client)
    (s : BGM_Clients) (call : RouteCall) : BGM_Clients :=
  match call with
  | CallSetRoute inSourcePID inDestPID inGain inEnabled =>
      (SetRoute alloc inSourcePID inDestPID inGain inEnabled s).1
  | CallSetRoutesFromArray inRoutes =>
      (SetRoutesFromArray alloc inRoutes s).1
  | CallClearRoutesForClient inProcessID =>
      ClearRoutesForClient dealloc inProcessID s
  end.

Definition run_route_calls
    (alloc dealloc : Z → gmap Z BGM_Client → gmap Z BGM_Client)
    (calls : list RouteCall) (s : BGM_Clients) : BGM_Clients :=
  foldl (run_route_call alloc dealloc) s calls.

(** A call passes frames whose sample indices are [UInt32] values. *)
Definition store_call_fits (call : StoreCall) : Prop :=
  2 * call.1.2 ≤ UINT32_MOD.

(** *** The content of the ring *)

(** [storage] holds the frames of [stream], written from position [pos0]
    on, that are at most [F] frames old when the write position is [pos]. *)
Definition ring_holds (F pos0 : Z) (stream storage : list Float32) (pos : Z)
    : Prop :=
  length storage = Z.to_nat (2 * F)
  ∧ Z.of_nat (length stream) = 2 * (pos - pos0)
  ∧ ∀ j ch, 0 ≤ j < pos - pos0 → pos - pos0 - F ≤ j → 0 ≤ ch < 2 →
      storage !! Z.to_nat (2 * ((pos0 + j) mod F) + ch)
      = stream !! Z.to_nat (2 * j + ch).

(** The same on the client record. *)
Definition client_ring (F pos0 : Z) (stream : list Float32)
    (c : BGM_Client) : Prop :=
  mRoutingBufferAllocated c = true
  ∧ ∃ storage, mRoutingBuffer c = Some storage
      ∧ ring_holds F pos0 stream storage (mRoutingBufferWritePos c).

(** The routing buffer is not allocated: the guard of [StoreToRoutingBuffer]
    and [FetchFromRoutingBuffer] holds, as it does on a client whose buffer
    was deallocated. *)
Definition routing_buffer_absent (c : BGM_Client) : Prop :=
  mRoutingBufferAllocated c = false
  ∨ mRoutingBuffer c = None
  ∨ ∃ c0, c = DeallocateRoutingBuffer c0.

(** Modelled from the spec: the member initialisers of [BGM_Client] are in
    [BGM_Client.h], which is missing. The constructor takes the four fields
    of the client info; a new client does no IO, is not the music player, has
    relative volume 1.0, centred pan, flat EQ, no route and no routing
    buffer. *)
Definition BGM_Client_new (inClientID inProcessID : Z)
    (inIsNativeEndian : bool) (inBundleID : option string) : BGM_Client :=
  mkClient inClientID inProcessID inIsNativeEndian inBundleID false false
    f32_one 0 f32_zero f32_zero f32_zero [] None false 0 f64_zero.

(** *** The data model of the IO state *)

(** The number of clients of the map that are doing IO among those whose id
    is selected by [sel]. *)
Definition count_doing_io (sel : Z → bool) (m : gmap Z BGM_Client) : Z :=
  Z.of_nat
    (size (filter (λ kc : Z * BGM_Client,
                     mDoingIO kc.2 = true ∧ sel kc.1 = true) m)).

(** The IO state as the data model describes it: [start_count] is the number
    of clients with [doing_io] set, [start_count_excluding_control_app] the
    same without the control app, and client ids are [UInt32]. *)
Record io_counts_ok (s : BGM_Clients) : Prop := mk_io_counts_ok {
  start_count_ok :
    mStartCount s = count_doing_io (λ _, true) (mClientMap s);
  start_count_excluding_ok :
    mStartCountExcludingBGMApp s
    = count_doing_io (λ id, negb (id =? mBGMAppClientID s)) (mClientMap s);
  client_ids_ok :
    map_Forall (λ id (_ : BGM_Client), 0 ≤ id < UINT32_MOD) (mClientMap s)
}.

(** Both counters are values of their type, [UInt64]. *)
Definition counts_are_u64 (s : BGM_Clients) : Prop :=
  0 ≤ mStartCount s < UINT64_MOD
  ∧ 0 ≤ mStartCountExcludingBGMApp s < UINT64_MOD.

(** Calls of [StartIONonRT] and [StopIONonRT] in any order; a call that
    throws leaves the object as it was at the throw. *)
Inductive IOCall :=
  | CallStartIO (inClientID : Z)
  | CallStopIO (inClientID : Z).

Definition run_io_call (s : BGM_Clients) (call : IOCall) : BGM_Clients :=
  match call with
  | CallStartIO inClientID => (StartIONonRT inClientID s).1
  | CallStopIO inClientID => (StopIONonRT inClientID s).1
  end.

Definition run_io_calls (calls : list IOCall) (s : BGM_Clients)
    : BGM_Clients :=
  foldl run_io_call s calls.

(** *** Sequences of music-player designations *)

Inductive MusicPlayerCall :=
  | CallSetMusicPlayerPID (inPID : Z)
  | CallSetMusicPlayerBundleID (inBundleID : string).

Definition run_music_player_call (s : BGM_Clients) (call : MusicPlayerCall)
    : BGM_Clients :=
  match call with
  | CallSetMusicPlayerPID inPID => (SetMusicPlayer_pid inPID s).1
  | CallSetMusicPlayerBundleID inBundleID =>
      (SetMusicPlayer_bundle inBundleID s).1
  end.

Definition run_music_player_calls (calls : list MusicPlayerCall)
    (s : BGM_Clients) : BGM_Clients :=
  foldl run_music_player_call s calls.

(** The PID designator is active when it is not 0, the bundle-id designator
    when it is not the empty string (the tests of [AddClient]). *)
Definition at_most_one_designator (s : BGM_Clients) : Prop :=
  mMusicPlayerProcessIDProperty s = 0 ∨ mMusicPlayerBundleIDProperty s = "".

(** *** Comparing routing graphs *)

(** Two gains are the same sample, or are the two zeros [+0.0] and [−0.0]
    (which [==] does not tell apart). *)
Definition gain_same (x y : Float32) : Prop :=
  x = y ∨ (∃ sx sy, x = S754_zero sx ∧ y = S754_zero sy).

Definition route_same (r1 r2 : BGM_AudioRoute) : Prop :=
  mSourcePID r1 = mSourcePID r2
  ∧ mDestPID r1 = mDestPID r2
  ∧ mEnabled r1 = mEnabled r2
  ∧ gain_same (mGain r1) (mGain r2).

(** The same object but for the sign of zero gains in the routing graph. *)
Definition clients_same (s1 s2 : BGM_Clients) : Prop :=
  Forall2 route_same (mRoutes s1) (mRoutes s2)
  ∧ set_mRoutes [] s1 = set_mRoutes [] s2.

Definition is_zero (x : Float32) : bool :=
  match x with S754_zero _ => true | _ => false end.

(** An element of the batch that [SetRoutesFromArray] skips: not a
    dictionary, or without source or destination PID. *)
Definition route_entry_skipped (theRoute : option RouteEntry) : Prop :=
  match theRoute with
  | None => True
  | Some theRoute =>
      rSourceProcessID theRoute = None ∨ rDestProcessID theRoute = None
  end.

(** *** What a route adds to a destination *)

Section RoutedSamples.

Variable kRoutingBufferFrames : Z.

(** The source client whose ring buffer [MixRoutedAudioRT] reads for
    [route] when mixing for the destination process [destPID]: none when the
    route is disabled, targets another process, or when no client has the
    source PID. *)
Definition route_source (m : gmap Z BGM_Client) (destPID : Z)
    (route : BGM_AudioRoute) : option BGM_Client :=
  if mEnabled route && (mDestPID route =? destPID)
  then GetClientByPIDRT (mSourcePID route) m
  else None.

(** The sample at index [j] of the IO buffer once one route was mixed in:
    gain times the sample of the source at offset [inNumFrames − j / 2],
    channel [j mod 2], added to what the buffer held. *)
Definition add_routed_sample (m : gmap Z BGM_Client) (destPID : Z)
    (inNumFrames : Z) (j : Z) (sample : Float32) (route : BGM_AudioRoute)
    : Float32 :=
  match route_source m destPID route with
  | Some sourceClient =>
      f32_add sample
        (f32_mul
           (FetchFromRoutingBuffer kRoutingBufferFrames (j mod 2)
              (inNumFrames - j / 2) sourceClient)
           (mGain route))
  | None => sample
  end.

End RoutedSamples.

(** *** What a failing entry of [SetClientsRelativeVolumes] has applied *)

(** Two objects whose clients have the same [view] (a field, or some
    fields). *)
Definition agree_on {A} (view : BGM_Client → A) (s s' : BGM_Clients)
    : Prop :=
  ∀ id, view <$> mClientMap s' !! id = view <$> mClientMap s !! id.







(** *** Objects made by adding clients *)

(** [AddClient] for each client of the list in turn, on a new object. *)
Definition add_clients (kBGMAppBundleID : string) (clients : list BGM_Client)
    : BGM_Clients :=
  foldl (λ s c, AddClient kBGMAppBundleID c s) BGM_Clients_new clients.

(** A client record as the host hands it to [AddClient]: it does no IO yet
    and its id is a [UInt32]. *)
Definition new_client_ok (c : BGM_Client) : Prop :=
  mDoingIO c = false ∧ 0 ≤ mClientID c < UINT32_MOD.

(** *** Example objects *)

(** The bundle id of BGMApp, as the upstream [BGM_Types.h] defines it. *)
Definition example_kBGMAppBundleID : string := "com.bearisdriving.BGM.App".

(** Clients A (pid 100) and B (pid 101) of two apps and a client of BGMApp,
    added to a new [BGM_Clients]. *)
Definition example_clients : BGM_Clients :=
  AddClient example_kBGMAppBundleID
    (BGM_Client_new 3 102 true (Some example_kBGMAppBundleID))
    (AddClient example_kBGMAppBundleID
       (BGM_Client_new 2 101 true (Some "org.videolan.vlc"))
       (AddClient example_kBGMAppBundleID
          (BGM_Client_new 1 100 true (Some "com.apple.Music"))
          BGM_Clients_new)).

(** A source client (pid 200) and a destination client (pid 201), the route
    200 → 201 of gain 0.5 on a ring of 8 frames, and four frames stored by
    the source: the left channel is the ramp 0, 1, 2, 3, the right channel
    is silent. *)
Definition example_ramp : list Float32 :=
  [f32_of_Z 0; f32_zero; f32_of_Z 1; f32_zero;
   f32_of_Z 2; f32_zero; f32_of_Z 3; f32_zero].

Definition example_half : Float32 := f32_div f32_one (f32_of_Z 2).

Definition example_routing : BGM_Clients :=
  StoreClientAudioRT 8 10 example_ramp 4
    (SetRoute (ClientMap_AllocateRoutingBufferForPID 8) 200 201 example_half
       true
       (AddClient example_kBGMAppBundleID (BGM_Client_new 11 201 true None)
          (AddClient example_kBGMAppBundleID (BGM_Client_new 10 200 true None)
             BGM_Clients_new))).1.

(** * Properties *)

Lemma u32_small x : 0 ≤ x < UINT32_MOD → u32 x = x.
Proof. apply Z.mod_small. Qed.

Lemma u64_small x : 0 ≤ x < UINT64_MOD → u64 x = x.
Proof. apply Z.mod_small. Qed.

Lemma UINT32_MOD_val : UINT32_MOD = 4294967296.
Proof. reflexivity. Qed.

Lemma UINT64_MOD_val : UINT64_MOD = 18446744073709551616.
Proof. reflexivity. Qed.

Lemma UINT64_MAX_val : UINT64_MAX = 18446744073709551615.
Proof. reflexivity. Qed.

Global Opaque UINT32_MOD UINT64_MOD UINT64_MAX.

(** ** The routing ring buffer *)

Lemma isNotAllocated_true c :
  isNotAllocated c = true
  ↔ mRoutingBufferAllocated c = false ∨ mRoutingBuffer c = None.
Proof.
  unfold isNotAllocated. rewrite orb_true_iff, negb_true_iff, bool_decide_eq_true.
  reflexivity.
Qed.

Lemma DeallocateRoutingBuffer_isNotAllocated c :
  isNotAllocated (DeallocateRoutingBuffer c) = true.
Proof.
  unfold DeallocateRoutingBuffer.
  destruct (mRoutingBufferAllocated c) eqn:Ha; simpl.
  - destruct (mRoutingBuffer c) eqn:Hb; simpl.
    + reflexivity.
    + apply isNotAllocated_true. auto.
  - apply isNotAllocated_true. auto.
Qed.

Lemma routing_buffer_absent_guard c :
  routing_buffer_absent c → isNotAllocated c = true.
Proof.
  intros [H | [H | [c0 ->]]].
  - apply isNotAllocated_true; auto.
  - apply isNotAllocated_true; auto.
  - apply DeallocateRoutingBuffer_isNotAllocated.
Qed.

(** C10. When the routing buffer of a client is not allocated (never
    allocated, or deallocated), [StoreToRoutingBuffer] returns the client as
    it was: no sample is written, and [write_pos] and every other field are
    unchanged; and [FetchFromRoutingBuffer] returns 0.0 for every channel and
    every sample offset. *)
Theorem unallocated_buffer_store_fetch (F : Z) (c : BGM_Client) :
  routing_buffer_absent c →
  (∀ inBuffer inFrameCount inSampleTime,
      StoreToRoutingBuffer F inBuffer inFrameCount inSampleTime c = c)
  ∧ (∀ inChannel inSampleOffset,
      FetchFromRoutingBuffer F inChannel inSampleOffset c = f32_zero).
Proof.
  intros H. apply routing_buffer_absent_guard in H.
  split; intros; unfold StoreToRoutingBuffer, FetchFromRoutingBuffer;
    rewrite H; reflexivity.
Qed.

Lemma unallocated_buffer_store_fetch_witness :
  let c := BGM_Client_new 7 100 true None in
  routing_buffer_absent c
  ∧ StoreToRoutingBuffer 8192 [f32_one; f32_one] 1 f64_zero c = c
  ∧ FetchFromRoutingBuffer 8192 0 1 c = f32_zero
  ∧ FetchFromRoutingBuffer 8192 1 1
      (DeallocateRoutingBuffer (AllocateRoutingBuffer 8192 c)) = f32_zero.
Proof.
  pose proof (unallocated_buffer_store_fetch 8192 (BGM_Client_new 7 100 true None))
    as H1.
  pose proof (unallocated_buffer_store_fetch 8192
                (DeallocateRoutingBuffer
                   (AllocateRoutingBuffer 8192 (BGM_Client_new 7 100 true None))))
    as H2.
  assert (Ha : routing_buffer_absent (BGM_Client_new 7 100 true None))
    by (left; reflexivity).
  split; [exact Ha |].
  split; [apply (proj1 (H1 Ha)) |].
  split; [apply (proj2 (H1 Ha)) |].
  apply (proj2 (H2 (or_intror (or_intror (ex_intro _ _ eq_refl))))).
Defined.

Section RingBuffer.

Variable F : Z.
Hypothesis F_pos : 0 < F.
(** The allocation size [kRoutingBufferFrames * kRoutingBufferChannels] is
    a [UInt32]. *)
Hypothesis F_fits : F * kRoutingBufferChannels < UINT32_MOD.

Lemma mod_shift_ne p d : 0 < d < F → (p + d) mod F ≠ p mod F.
Proof.
  intros Hd Heq.
  assert (Hz : d mod F = 0).
  { replace d with ((p + d) - p) by lia.
    rewrite Zminus_mod, Heq, Z.sub_diag. apply Zmod_0_l. }
  rewrite Z.mod_small in Hz; lia.
Qed.

Lemma slot_bounds p : 0 ≤ 2 * (p mod F) ∧ 2 * (p mod F) + 1 < 2 * F.
Proof. pose proof (Z.mod_pos_bound p F F_pos). lia. Qed.

Lemma ring_holds_step pos0 stream storage pos x y :
  0 ≤ pos0 ≤ pos →
  ring_holds F pos0 stream storage pos →
  ring_holds F pos0 (stream ++ [x; y])
    (<[Z.to_nat (2 * (pos mod F) + 1) := y]>
       (<[Z.to_nat (2 * (pos mod F)) := x]> storage))
    (pos + 1).
Proof.
  intros Hpos (Hlen & Hstream & Hold).
  pose proof (slot_bounds pos) as Hb.
  split; [by rewrite !length_insert |].
  split; [rewrite length_app; simpl; lia |].
  intros j ch Hj Hage Hch.
  destruct (decide (j = pos - pos0)) as [-> | Hne].
  - replace (pos0 + (pos - pos0)) with pos by lia.
    assert (Hidx : Z.to_nat (2 * (pos - pos0) + ch)
                   = (length stream + Z.to_nat ch)%nat) by lia.
    rewrite Hidx, lookup_app_r by lia.
    replace (length stream + Z.to_nat ch - length stream)%nat
      with (Z.to_nat ch) by lia.
    destruct (decide (ch = 0)) as [-> | Hch1].
    + rewrite Z.add_0_r. rewrite list_lookup_insert_ne by lia.
      rewrite list_lookup_insert_eq by lia. reflexivity.
    + assert (ch = 1) as -> by lia.
      rewrite list_lookup_insert_eq by (rewrite length_insert; lia).
      reflexivity.
  - assert (Hmod : (pos0 + j) mod F ≠ pos mod F).
    { intros Heq. apply (mod_shift_ne (pos0 + j) (pos - pos0 - j)); [lia |].
      rewrite Heq. f_equal. lia. }
    pose proof (slot_bounds (pos0 + j)) as Hb'.
    rewrite !list_lookup_insert_ne by lia.
    rewrite Hold by lia.
    rewrite lookup_app_l by lia. reflexivity.
Qed.

Lemma store_frame_eq inBuffer storage pos frame x y :
  0 ≤ pos → pos + 1 < UINT64_MOD →
  0 ≤ frame → 2 * frame + 1 < UINT32_MOD →
  inBuffer !! Z.to_nat (2 * frame) = Some x →
  inBuffer !! Z.to_nat (2 * frame + 1) = Some y →
  store_frame F inBuffer (storage, pos) frame
  = (<[Z.to_nat (2 * (pos mod F) + 1) := y]>
       (<[Z.to_nat (2 * (pos mod F)) := x]> storage), pos + 1).
Proof.
  intros Hpos Hmax Hframe Hf32 Hx Hy.
  pose proof (slot_bounds pos) as Hb.
  unfold store_frame, read_sample, kRoutingBufferChannels in *.
  rewrite !Z.add_0_r.
  rewrite (u32_small (pos mod F * 2)) by lia.
  rewrite (u32_small (pos mod F * 2)) by lia.
  rewrite (u32_small (pos mod F * 2 + 1)) by lia.
  rewrite (u32_small (frame * 2)) by lia.
  rewrite (u32_small (frame * 2)) by lia.
  rewrite (u32_small (frame * 2 + 1)) by lia.
  rewrite u64_small by lia.
  replace (frame * 2) with (2 * frame) by lia.
  replace (pos mod F * 2) with (2 * (pos mod F)) by lia.
  rewrite Hx, Hy. reflexivity.
Qed.

(** The loop of [StoreToRoutingBuffer] over the first [n] frames of
    [inBuffer]. *)
Lemma store_loop_holds inBuffer pos0 stream storage pos (n : nat) :
  0 ≤ pos0 ≤ pos →
  pos + Z.of_nat n < UINT64_MOD →
  2 * Z.of_nat n ≤ Z.of_nat (length inBuffer) →
  2 * Z.of_nat n ≤ UINT32_MOD →
  ring_holds F pos0 stream storage pos →
  ∃ storage',
    foldl (store_frame F inBuffer) (storage, pos) (seqZ 0 (Z.of_nat n))
    = (storage', pos + Z.of_nat n)
    ∧ ring_holds F pos0 (stream ++ take (2 * n) inBuffer) storage'
        (pos + Z.of_nat n).
Proof.
  intros Hpos. induction n as [| n IH]; intros Hmax Hin Hn32 Hring.
  - exists storage. simpl. rewrite Z.add_0_r, take_0, app_nil_r. done.
  - destruct IH as (storage1 & Hfold & Hring1); [lia .. | done |].
    destruct (lookup_lt_is_Some_2 inBuffer (2 * n)) as [x Hx]; [lia |].
    destruct (lookup_lt_is_Some_2 inBuffer (2 * n + 1)) as [y Hy]; [lia |].
    rewrite seqZ_S, foldl_app, Hfold, Z.add_0_l.
    cbn [foldl].
    rewrite (store_frame_eq inBuffer storage1 _ _ x y); try lia.
    2:{ rewrite <- Hx. f_equal. lia. }
    2:{ rewrite <- Hy. f_equal. lia. }
    eexists. split.
    { f_equal. lia. }
    replace (take (2 * S n) inBuffer) with (take (2 * n) inBuffer ++ [x; y]).
    2:{ replace (2 * S n)%nat with (S (S (2 * n))) by lia.
        rewrite (take_S_r _ _ y) by (rewrite <- Hy; f_equal; lia).
        rewrite (take_S_r _ _ x) by done.
        rewrite <- app_assoc. reflexivity. }
    rewrite app_assoc.
    replace (pos + Z.of_nat (S n)) with (pos + Z.of_nat n + 1) by lia.
    apply ring_holds_step; [lia | done].
Qed.

Lemma client_ring_start c storage :
  mRoutingBufferAllocated c = true →
  mRoutingBuffer c = Some storage →
  length storage = Z.to_nat (2 * F) →
  client_ring F (mRoutingBufferWritePos c) [] c.
Proof.
  intros Ha Hb Hlen. split; [done |]. exists storage. split; [done |].
  split; [done |]. split; [simpl; lia |]. intros; lia.
Qed.

Lemma store_call_holds pos0 stream c (call : StoreCall) :
  0 ≤ pos0 ≤ mRoutingBufferWritePos c →
  store_call_ok call →
  mRoutingBufferWritePos c + call.1.2 < UINT64_MOD →
  2 * call.1.2 ≤ UINT32_MOD →
  client_ring F pos0 stream c →
  let c' := StoreToRoutingBuffer F call.1.1 call.1.2 call.2 c in
  client_ring F pos0 (stream ++ call.1.1) c'
  ∧ mRoutingBufferWritePos c' = mRoutingBufferWritePos c + call.1.2.
Proof.
  destruct call as [[inBuffer n] t]. simpl.
  intros Hpos [Hn Hlen] Hmax Hn32 (Ha & storage & Hb & Hring).
  simpl in *.
  destruct (store_loop_holds inBuffer pos0 stream storage
              (mRoutingBufferWritePos c) (Z.to_nat n))
    as (storage' & Hfold & Hring'); try lia; [done |].
  rewrite Z2Nat.id in Hfold, Hring' by lia.
  rewrite take_ge in Hring' by lia.
  unfold StoreToRoutingBuffer, isNotAllocated.
  rewrite Ha, Hb. simpl. rewrite Hfold. simpl.
  split; [| done]. split; [done |]. by exists storage'.
Qed.

Lemma frames_written_nonneg calls :
  Forall store_call_ok calls → 0 ≤ frames_written calls.
Proof.
  induction 1 as [| call calls [Hn _] _ IH]; simpl; lia.
Qed.

Lemma store_calls_hold pos0 calls : ∀ stream c,
  0 ≤ pos0 ≤ mRoutingBufferWritePos c →
  Forall store_call_ok calls →
  mRoutingBufferWritePos c + frames_written calls < UINT64_MOD →
  2 * frames_written calls ≤ UINT32_MOD →
  client_ring F pos0 stream c →
  let c' := store_calls F calls c in
  client_ring F pos0 (stream ++ samples_written calls) c'
  ∧ mRoutingBufferWritePos c'
    = mRoutingBufferWritePos c + frames_written calls.
Proof.
  induction calls as [| call calls IH]; intros stream c Hpos Hok Hmax Hn32 Hc.
  - simpl. rewrite app_nil_r, Z.add_0_r. done.
  - apply Forall_cons in Hok as [Hcall Hok].
    pose proof (frames_written_nonneg calls Hok) as Hnn.
    pose proof Hcall as [Hn _].
    simpl in Hmax, Hn32.
    destruct (store_call_holds pos0 stream c call) as [Hc1 Hpos1];
      [lia | done | lia | lia | done |].
    unfold store_calls, samples_written. simpl.
    fold (store_calls F calls
            (StoreToRoutingBuffer F call.1.1 call.1.2 call.2 c)).
    fold (samples_written calls).
    rewrite app_assoc.
    destruct (IH (stream ++ call.1.1)
                (StoreToRoutingBuffer F call.1.1 call.1.2 call.2 c))
      as [Hc2 Hpos2]; [lia | done | lia | lia | done |].
    split; [done |]. simpl in Hpos2. rewrite Hpos2, Hpos1. lia.
Qed.

Lemma fetch_allocated c storage inChannel inSampleOffset :
  mRoutingBufferAllocated c = true →
  mRoutingBuffer c = Some storage →
  0 ≤ inChannel < 2 →
  0 ≤ inSampleOffset ≤ mRoutingBufferWritePos c →
  mRoutingBufferWritePos c < UINT64_MOD →
  FetchFromRoutingBuffer F inChannel inSampleOffset c
  = default f32_zero
      (storage !! Z.to_nat
         (2 * ((mRoutingBufferWritePos c - inSampleOffset) mod F)
          + inChannel)).
Proof.
  intros Ha Hb Hch Hoff Hmax.
  pose proof (slot_bounds (mRoutingBufferWritePos c - inSampleOffset)) as Hs.
  unfold FetchFromRoutingBuffer, isNotAllocated, kRoutingBufferChannels in *.
  rewrite Ha, Hb. simpl.
  destruct (Z.ltb_spec (mRoutingBufferWritePos c) inSampleOffset); [lia |].
  destruct (Z.ltb_spec inChannel 0); [lia |].
  destruct (Z.leb_spec 2 inChannel); [lia |]. simpl.
  rewrite (u64_small (_ - _)) by lia.
  rewrite (u32_small inChannel) by lia.
  rewrite (u32_small (_ * 2)) by lia.
  rewrite (u32_small (_ + _)) by lia.
  do 3 f_equal. lia.
Qed.

Lemma fetch_silence c inChannel inSampleOffset :
  mRoutingBufferWritePos c < inSampleOffset
  ∨ inChannel < 0 ∨ kRoutingBufferChannels ≤ inChannel →
  FetchFromRoutingBuffer F inChannel inSampleOffset c = f32_zero.
Proof.
  intros H. unfold FetchFromRoutingBuffer.
  destruct (isNotAllocated c); [done |].
  destruct (Z.ltb_spec (mRoutingBufferWritePos c) inSampleOffset); [done |].
  destruct (Z.ltb_spec inChannel 0); [done |].
  destruct (Z.leb_spec kRoutingBufferChannels inChannel); [done |].
  lia.
Qed.

End RingBuffer.

(** C5. On an allocated routing buffer of [F] frames, after any sequence of
    [StoreToRoutingBuffer] calls that writes [k ≤ F] frames in total,
    [FetchFromRoutingBuffer] at a channel in {0, 1} and a sample offset in
    [1, k] returns the sample that was written at frame position
    [write_pos − sample_offset]; and a fetch, on any client, returns 0.0
    when [write_pos < sample_offset] or the channel is not 0 or 1. *)
Theorem store_then_fetch (F : Z) (c : BGM_Client) (storage : list Float32)
    (calls : list StoreCall) :
  0 < F → F * kRoutingBufferChannels < UINT32_MOD →
  mRoutingBufferAllocated c = true →
  mRoutingBuffer c = Some storage →
  length storage = Z.to_nat (F * kRoutingBufferChannels) →
  0 ≤ mRoutingBufferWritePos c →
  Forall store_call_ok calls →
  let k := frames_written calls in
  let c' := store_calls F calls c in
  mRoutingBufferWritePos c + k < UINT64_MOD →
  k ≤ F →
  mRoutingBufferWritePos c' = mRoutingBufferWritePos c + k
  ∧ (∀ inChannel inSampleOffset,
       0 ≤ inChannel < 2 → 1 ≤ inSampleOffset ≤ k →
       samples_written calls
         !! Z.to_nat (2 * (k - inSampleOffset) + inChannel)
       = Some (FetchFromRoutingBuffer F inChannel inSampleOffset c'))
  ∧ (∀ c0 inChannel inSampleOffset,
       mRoutingBufferWritePos c0 < inSampleOffset
       ∨ inChannel < 0 ∨ 2 ≤ inChannel →
       FetchFromRoutingBuffer F inChannel inSampleOffset c0 = f32_zero).
Proof.
  intros HF HF32 Ha Hb Hlen Hpos Hok k c' Hmax Hk.
  unfold kRoutingBufferChannels in HF32, Hlen.
  assert (Hstart : client_ring F (mRoutingBufferWritePos c) [] c).
  { apply (client_ring_start F c storage); [done | done |].
    rewrite Hlen. f_equal. lia. }
  destruct (store_calls_hold F HF HF32 (mRoutingBufferWritePos c) calls [] c)
    as [(Ha' & storage' & Hb' & Hlen' & Hstream & Hring) Hpos'];
    [lia | done | done | fold k; lia | done |].
  fold c' in Ha', Hb', Hring, Hpos', Hstream. fold k in Hpos'.
  rewrite app_nil_l in Hring, Hstream.
  split; [done |]. split.
  - intros ch off Hch Hoff.
    rewrite (fetch_allocated F HF HF32 c' storage') by (try done; lia).
    rewrite Hpos' in *.
    replace (mRoutingBufferWritePos c + k - off)
      with (mRoutingBufferWritePos c + (k - off)) by lia.
    rewrite Hring by lia.
    destruct (lookup_lt_is_Some_2 (samples_written calls)
                (Z.to_nat (2 * (k - off) + ch))) as [x Hx]; [lia |].
    rewrite Hx. reflexivity.
  - intros c0 ch off H. apply fetch_silence.
    unfold kRoutingBufferChannels. done.
Qed.

Lemma store_then_fetch_witness :
  let c := AllocateRoutingBuffer 4 (BGM_Client_new 1 200 true None) in
  let calls : list StoreCall :=
    [([f32_of_Z 10; f32_of_Z 20; f32_of_Z 11; f32_of_Z 21], 2, f64_zero);
     ([f32_of_Z 12; f32_of_Z 22], 1, f64_zero)] in
  Forall store_call_ok calls
  ∧ mRoutingBufferWritePos (store_calls 4 calls c) = 3
  ∧ Some (f32_of_Z 12)
    = Some (FetchFromRoutingBuffer 4 0 1 (store_calls 4 calls c))
  ∧ Some (f32_of_Z 20)
    = Some (FetchFromRoutingBuffer 4 1 3 (store_calls 4 calls c))
  ∧ FetchFromRoutingBuffer 4 0 4 (store_calls 4 calls c) = f32_zero.
Proof.
  intros c calls.
  assert (Hok : Forall store_call_ok calls)
    by (repeat constructor; simpl; lia).
  destruct (store_then_fetch 4 c (replicate 8 f32_zero) calls)
    as (Hpos & Hfetch & Hsilent);
    [lia | rewrite UINT32_MOD_val; reflexivity | reflexivity | reflexivity
    | reflexivity | reflexivity | exact Hok
    | rewrite UINT64_MOD_val; reflexivity | vm_compute; discriminate |].
  split; [exact Hok |].
  split; [exact Hpos |].
  split; [apply (Hfetch 0 1); vm_compute; intuition discriminate |].
  split; [apply (Hfetch 1 3); vm_compute; intuition discriminate |].
  apply (Hsilent (store_calls 4 calls c) 0 4). left. vm_compute. reflexivity.
Defined.

(** ** IO reference counts *)

Lemma StartIONonRT_unfold inClientID s :
  StartIONonRT inClientID s =
  match mClientMap s !! inClientID with
  | None => (s, Threw BGM_InvalidClientException)
  | Some theClient =>
      if mDoingIO theClient then (s, Returned (mkIOResult false false false))
      else if mStartCount s =? UINT64_MAX
      then (s, Threw CAException_IllegalOperation)
      else
        let s1 :=
          upd_mStartCount (λ n, u64 (n + 1))
            (upd_mClientMap (ClientMap_StartIONonRT inClientID) s) in
        if inClientID =? mBGMAppClientID s
        then (s1, Returned (mkIOResult (mStartCount s1 =? 1)
                              (mStartCount s1 =? 1) false))
        else if mStartCountExcludingBGMApp s =? UINT64_MAX
        then (s1, Threw CAException_IllegalOperation)
        else
          let s2 := upd_mStartCountExcludingBGMApp (λ n, u64 (n + 1)) s1 in
          (s2, Returned (mkIOResult (mStartCount s2 =? 1)
                           (mStartCount s2 =? 1)
                           (mStartCountExcludingBGMApp s2 =? 1)))
  end.
Proof.
  unfold StartIONonRT, GetClientNonRT, bind, get. simpl.
  destruct (mClientMap s !! inClientID) as [theClient |]; [| reflexivity].
  destruct (mDoingIO theClient); simpl; [reflexivity |].
  unfold ThrowIf, IsBGMApp. simpl.
  destruct (mStartCount s =? UINT64_MAX); simpl; [reflexivity |].
  destruct (inClientID =? mBGMAppClientID s); simpl; [reflexivity |].
  destruct (mStartCountExcludingBGMApp s =? UINT64_MAX); reflexivity.
Qed.

Lemma StopIONonRT_unfold inClientID s :
  StopIONonRT inClientID s =
  match mClientMap s !! inClientID with
  | None => (s, Threw BGM_InvalidClientException)
  | Some theClient =>
      if mDoingIO theClient then
        let s0 := upd_mClientMap (ClientMap_StopIONonRT inClientID) s in
        if mStartCount s <=? 0
        then (s0, Threw CAException_IllegalOperation)
        else
          let s1 := upd_mStartCount (λ n, u64 (n - 1)) s0 in
          if inClientID =? mBGMAppClientID s
          then (s1, Returned (mkIOResult (mStartCount s1 =? 0)
                                (mStartCount s1 =? 0) false))
          else if mStartCountExcludingBGMApp s <=? 0
          then (s1, Threw CAException_IllegalOperation)
          else
            let s2 := upd_mStartCountExcludingBGMApp (λ n, u64 (n - 1)) s1 in
            (s2, Returned (mkIOResult (mStartCount s2 =? 0)
                             (mStartCount s2 =? 0)
                             (mStartCountExcludingBGMApp s2 =? 0)))
      else (s, Returned (mkIOResult false false false))
  end.
Proof.
  unfold StopIONonRT, GetClientNonRT, bind, get. simpl.
  destruct (mClientMap s !! inClientID) as [theClient |]; [| reflexivity].
  destruct (mDoingIO theClient); simpl; [| reflexivity].
  unfold ThrowIf, IsBGMApp. simpl.
  destruct (mStartCount s <=? 0); simpl; [reflexivity |].
  destruct (inClientID =? mBGMAppClientID s); simpl; [reflexivity |].
  destruct (mStartCountExcludingBGMApp s <=? 0); reflexivity.
Qed.

Section CountDoingIO.

Variable sel : Z → bool.

Let counted (kc : Z * BGM_Client) : Prop :=
  mDoingIO kc.2 = true ∧ sel kc.1 = true.

Lemma alter_as_insert (f : BGM_Client → BGM_Client) id c
    (m : gmap Z BGM_Client) :
  m !! id = Some c → alter f id m = <[id := f c]> m.
Proof.
  intros Hc. apply map_eq. intros j.
  destruct (decide (id = j)) as [<- | Hne].
  - by rewrite lookup_alter_eq, lookup_insert_eq, Hc.
  - by rewrite lookup_alter_ne, lookup_insert_ne.
Qed.

Lemma count_doing_io_not_selected b id c (m : gmap Z BGM_Client) :
  sel id = false → m !! id = Some c →
  count_doing_io sel (alter (set_mDoingIO b) id m) = count_doing_io sel m.
Proof.
  intros Hsel Hc. unfold count_doing_io.
  rewrite (alter_as_insert _ id c) by done.
  rewrite map_filter_insert_not'; [done | |].
  - simpl. intros [_ ?]. congruence.
  - simpl. intros y _ [_ ?]. congruence.
Qed.

Lemma count_doing_io_start id c (m : gmap Z BGM_Client) :
  sel id = true → m !! id = Some c → mDoingIO c = false →
  count_doing_io sel (alter (set_mDoingIO true) id m)
  = count_doing_io sel m + 1.
Proof.
  intros Hsel Hc Hio. unfold count_doing_io.
  rewrite (alter_as_insert _ id c) by done.
  rewrite map_filter_insert_True by done.
  rewrite map_size_insert_None; [lia |].
  apply map_lookup_filter_None. right. intros y Hy [Hio' _].
  simpl in Hio'. congruence.
Qed.

Lemma count_doing_io_stop id c (m : gmap Z BGM_Client) :
  sel id = true → m !! id = Some c → mDoingIO c = true →
  count_doing_io sel (alter (set_mDoingIO false) id m)
  = count_doing_io sel m - 1
  ∧ 1 ≤ count_doing_io sel m.
Proof.
  intros Hsel Hc Hio. unfold count_doing_io.
  rewrite (alter_as_insert _ id c) by done.
  rewrite map_filter_insert_False by (simpl; intros [? _]; done).
  rewrite map_filter_delete.
  assert (Hin : filter counted m !! id = Some c)
    by (apply map_lookup_filter_Some; done).
  assert (Hsize : size (filter counted m)
                  = S (size (delete id (filter counted m)))).
  { rewrite <- (insert_delete_id (filter counted m) id c) at 1 by done.
    apply map_size_insert_None, lookup_delete_eq. }
  unfold counted in *. lia.
Qed.

Lemma count_doing_io_le_size (m : gmap Z BGM_Client) :
  0 ≤ count_doing_io sel m ≤ Z.of_nat (size m).
Proof.
  unfold count_doing_io.
  pose proof (map_subseteq_size _ _ (map_filter_subseteq counted m)).
  unfold counted in *. lia.
Qed.

End CountDoingIO.

Lemma count_excluding_app app (m : gmap Z BGM_Client) :
  let total := count_doing_io (λ _, true) m in
  let others := count_doing_io (λ id, negb (id =? app)) m in
  others = total ∨ others = total - 1 ∧ 1 ≤ total.
Proof.
  unfold count_doing_io.
  set (P := λ kc : Z * BGM_Client, mDoingIO kc.2 = true ∧ true = true).
  set (Q := λ kc : Z * BGM_Client,
              mDoingIO kc.2 = true ∧ negb (kc.1 =? app) = true).
  assert (HQ : filter Q m = delete app (filter P m)).
  { apply map_eq. intros id. apply option_eq. intros c.
    rewrite map_lookup_filter_Some, lookup_delete_Some, map_lookup_filter_Some.
    unfold P, Q. simpl. rewrite negb_true_iff, Z.eqb_neq.
    intuition congruence. }
  simpl. rewrite HQ.
  destruct (filter P m !! app) as [c |] eqn:Happ.
  - right.
    assert (Hsize : size (filter P m) = S (size (delete app (filter P m)))).
    { rewrite <- (insert_delete_id (filter P m) app c) at 1 by done.
      apply map_size_insert_None, lookup_delete_eq. }
    lia.
  - left. by rewrite map_size_delete_None.
Qed.

(** A map whose keys are [UInt32] values has at most 2^32 entries. *)
Lemma client_map_size (m : gmap Z BGM_Client) :
  map_Forall (λ id (_ : BGM_Client), 0 ≤ id < UINT32_MOD) m →
  Z.of_nat (size m) ≤ UINT32_MOD.
Proof.
  intros Hkeys.
  rewrite <- length_map_to_list, <- (length_fmap fst).
  assert (Hsub : (map_to_list m).*1 ⊆+ seqZ 0 UINT32_MOD).
  { apply NoDup_submseteq; [apply NoDup_fst_map_to_list |].
    intros id Hid. apply list_elem_of_fmap in Hid as [[id' c] [-> Hin]].
    apply elem_of_map_to_list in Hin. apply Hkeys in Hin.
    apply elem_of_seqZ. simpl in *. lia. }
  apply submseteq_length in Hsub. rewrite length_seqZ in Hsub.
  rewrite UINT32_MOD_val in *. lia.
Qed.

Lemma io_counts_bounds s :
  io_counts_ok s →
  0 ≤ mStartCountExcludingBGMApp s ≤ mStartCount s
  ∧ mStartCount s ≤ UINT32_MOD
  ∧ (mStartCountExcludingBGMApp s = mStartCount s
     ∨ mStartCountExcludingBGMApp s = mStartCount s - 1).
Proof.
  intros [Hstart Hexcl Hkeys].
  pose proof (count_excluding_app (mBGMAppClientID s) (mClientMap s)) as Hrel.
  pose proof (count_doing_io_le_size (λ _, true) (mClientMap s)) as Hle.
  pose proof (count_doing_io_le_size (λ id, negb (id =? mBGMAppClientID s))
                (mClientMap s)) as Hle'.
  pose proof (client_map_size _ Hkeys).
  simpl in Hrel. rewrite <- Hstart, <- Hexcl in *. lia.
Qed.

Lemma io_counts_ok_u64 s : io_counts_ok s → counts_are_u64 s.
Proof.
  intros H. apply io_counts_bounds in H. unfold counts_are_u64.
  rewrite UINT32_MOD_val, UINT64_MOD_val in *. lia.
Qed.

Lemma client_ids_alter (f : BGM_Client → BGM_Client) id
    (m : gmap Z BGM_Client) :
  map_Forall (λ id (_ : BGM_Client), 0 ≤ id < UINT32_MOD) m →
  map_Forall (λ id (_ : BGM_Client), 0 ≤ id < UINT32_MOD) (alter f id m).
Proof.
  intros Hkeys j c Hj.
  destruct (decide (id = j)) as [<- | Hne].
  - rewrite lookup_alter_eq in Hj.
    destruct (m !! id) as [c0 |] eqn:Hc0; [| done]. by apply (Hkeys id c0).
  - rewrite lookup_alter_ne in Hj by done. by apply (Hkeys j c).
Qed.

(** The data model of the IO state is kept by [StartIONonRT], whatever the
    outcome of the call. *)
Lemma StartIONonRT_keeps_counts inClientID s :
  io_counts_ok s → io_counts_ok (StartIONonRT inClientID s).1.
Proof.
  intros Hok. pose proof (io_counts_bounds s Hok) as Hb.
  destruct Hok as [Hstart Hexcl Hkeys].
  rewrite StartIONonRT_unfold.
  destruct (mClientMap s !! inClientID) as [c |] eqn:Hc; [| done].
  destruct (mDoingIO c) eqn:Hio; [done |].
  destruct (Z.eqb_spec (mStartCount s) UINT64_MAX) as [Hmax | Hmax]; [done |].
  assert (Hinc : u64 (mStartCount s + 1) = mStartCount s + 1).
  { apply u64_small. rewrite UINT32_MOD_val, UINT64_MOD_val in *. lia. }
  assert (Hinc' : u64 (mStartCountExcludingBGMApp s + 1)
                  = mStartCountExcludingBGMApp s + 1).
  { apply u64_small. rewrite UINT32_MOD_val, UINT64_MOD_val in *. lia. }
  cbv zeta.
  destruct (Z.eqb_spec inClientID (mBGMAppClientID s)) as [Happ | Happ].
  - split; simpl.
    + rewrite Hinc, Hstart. symmetry. by apply (count_doing_io_start _ _ c).
    + rewrite Hexcl. symmetry.
      apply (count_doing_io_not_selected _ _ _ c); [| done].
      apply negb_false_iff, Z.eqb_eq. done.
    + by apply client_ids_alter.
  - destruct (Z.eqb_spec (mStartCountExcludingBGMApp s) UINT64_MAX)
      as [Hmax' | Hmax'].
    { rewrite UINT32_MOD_val, UINT64_MAX_val in *. lia. }
    split; simpl.
    + rewrite Hinc, Hstart. symmetry. by apply (count_doing_io_start _ _ c).
    + rewrite Hinc', Hexcl. symmetry.
      apply (count_doing_io_start _ _ c); [| done | done].
      apply negb_true_iff, Z.eqb_neq. done.
    + by apply client_ids_alter.
Qed.

(** And by [StopIONonRT]. *)
Lemma StopIONonRT_keeps_counts inClientID s :
  io_counts_ok s → io_counts_ok (StopIONonRT inClientID s).1.
Proof.
  intros Hok. pose proof (io_counts_bounds s Hok) as Hb.
  destruct Hok as [Hstart Hexcl Hkeys].
  rewrite StopIONonRT_unfold.
  destruct (mClientMap s !! inClientID) as [c |] eqn:Hc; [| done].
  destruct (mDoingIO c) eqn:Hio; [| done].
  destruct (count_doing_io_stop (λ _, true) inClientID c (mClientMap s))
    as [Hdec Hpos]; [done .. |].
  cbv zeta.
  destruct (Z.leb_spec (mStartCount s) 0) as [Hzero | Hzero]; [lia |].
  assert (Hd : u64 (mStartCount s - 1) = mStartCount s - 1).
  { apply u64_small. rewrite UINT32_MOD_val, UINT64_MOD_val in *. lia. }
  destruct (Z.eqb_spec inClientID (mBGMAppClientID s)) as [Happ | Happ].
  - split; simpl.
    + rewrite Hd, Hstart. symmetry. exact Hdec.
    + rewrite Hexcl. symmetry.
      apply (count_doing_io_not_selected _ _ _ c); [| done].
      apply negb_false_iff, Z.eqb_eq. done.
    + by apply client_ids_alter.
  - destruct (count_doing_io_stop (λ id, negb (id =? mBGMAppClientID s))
                inClientID c (mClientMap s)) as [Hdec' Hpos']; [| done .. |].
    { apply negb_true_iff, Z.eqb_neq. done. }
    destruct (Z.leb_spec (mStartCountExcludingBGMApp s) 0) as [Hz | Hz];
      [lia |].
    assert (Hd' : u64 (mStartCountExcludingBGMApp s - 1)
                  = mStartCountExcludingBGMApp s - 1).
    { apply u64_small. rewrite UINT32_MOD_val, UINT64_MOD_val in *. lia. }
    split; simpl.
    + rewrite Hd, Hstart. symmetry. exact Hdec.
    + rewrite Hd', Hexcl. symmetry. exact Hdec'.
    + by apply client_ids_alter.
Qed.

Lemma run_io_calls_keep_counts calls : ∀ s,
  io_counts_ok s → io_counts_ok (run_io_calls calls s).
Proof.
  induction calls as [| call calls IH]; intros s Hok; [done |].
  apply IH. destruct call; simpl.
  - by apply StartIONonRT_keeps_counts.
  - by apply StopIONonRT_keeps_counts.
Qed.

Lemma io_counts_in_sync s : io_counts_ok s → counts_in_sync s.
Proof.
  intros Hok. pose proof (io_counts_bounds s Hok) as (H1 & H2 & [H3 | H3]).
  - by right.
  - left. rewrite u64_small; [done |].
    rewrite UINT32_MOD_val, UINT64_MOD_val in *. lia.
Qed.

Lemma count_doing_io_idle sel (m : gmap Z BGM_Client) :
  map_Forall (λ _ c, mDoingIO c = false) m → count_doing_io sel m = 0.
Proof.
  intros Hidle. unfold count_doing_io.
  assert (Hempty : filter (λ kc : Z * BGM_Client,
                             mDoingIO kc.2 = true ∧ sel kc.1 = true) m = ∅).
  { apply map_eq. intros id. rewrite lookup_empty.
    apply map_lookup_filter_None. right. intros c Hc [Hio _].
    apply Hidle in Hc. simpl in *. congruence. }
  by rewrite Hempty, map_size_empty.
Qed.

Lemma AddClient_fields bgm c s :
  let s' := AddClient bgm c s in
  (∃ isMusicPlayer,
     mClientMap s'
     = <[mClientID c := set_mIsMusicPlayer isMusicPlayer c]> (mClientMap s))
  ∧ mStartCount s' = mStartCount s
  ∧ mStartCountExcludingBGMApp s' = mStartCountExcludingBGMApp s.
Proof.
  unfold AddClient. simpl.
  destruct (bool_decide (mBundleID c = Some bgm)); simpl;
    unfold ClientMap_AddClient; simpl; (split; [eexists |]); done.
Qed.

(** The objects made by adding clients: no client does IO, both counters are
    0, and only the ids that were added have a record. *)
Lemma add_clients_idle bgm clients :
  Forall new_client_ok clients →
  let s := add_clients bgm clients in
  map_Forall (λ _ c, mDoingIO c = false) (mClientMap s)
  ∧ map_Forall (λ id (_ : BGM_Client), 0 ≤ id < UINT32_MOD) (mClientMap s)
  ∧ mStartCount s = 0 ∧ mStartCountExcludingBGMApp s = 0
  ∧ ∀ id, id ∉ mClientID <$> clients → mClientMap s !! id = None.
Proof.
  unfold add_clients.
  induction clients as [| c clients IH] using rev_ind; intros Hok.
  - simpl. split; [apply map_Forall_empty |].
    split; [apply map_Forall_empty |]. done.
  - apply Forall_app in Hok as [Hok [[Hio Hid] _]%Forall_cons].
    destruct (IH Hok) as (Hidle & Hids & Hstart & Hexcl & Hnone).
    rewrite foldl_app. cbn [foldl].
    set (s := foldl (λ s c, AddClient bgm c s) BGM_Clients_new clients) in *.
    destruct (AddClient_fields bgm c s) as ([b Hmap] & Hstart' & Hexcl').
    rewrite Hmap.
    split; [by apply map_Forall_insert_2 |].
    split; [by apply map_Forall_insert_2 |].
    split; [lia |]. split; [lia |].
    intros id Hnotin. rewrite fmap_app in Hnotin.
    apply not_elem_of_app in Hnotin as [Hnotin Hne].
    rewrite lookup_insert_ne; [by apply Hnone |].
    intros <-. apply Hne. simpl. apply list_elem_of_here.
Qed.

Lemma add_clients_counts_ok bgm clients :
  Forall new_client_ok clients → io_counts_ok (add_clients bgm clients).
Proof.
  intros Hok.
  destruct (add_clients_idle bgm clients Hok) as (Hidle & Hids & H1 & H2 & _).
  split; [| | done].
  - by rewrite H1, count_doing_io_idle.
  - by rewrite H2, count_doing_io_idle.
Qed.

Ltac eval_count :=
  match goal with
  | |- _ = count_doing_io ?sel ?m =>
      let x := fresh "x" in
      set (x := count_doing_io sel m); vm_compute in x; reflexivity
  end.

Ltac eval_client_ids :=
  apply map_Forall_to_list; rewrite UINT32_MOD_val;
  match goal with
  | |- Forall _ ?l =>
      let x := fresh "l" in
      set (x := l); vm_compute in x; subst x;
      repeat (apply Forall_cons; split; [simpl; lia |]); apply Forall_nil_2
  end.

Lemma example_clients_counts_ok : io_counts_ok example_clients.
Proof. split; [eval_count | eval_count | eval_client_ids]. Defined.



(** C2. The condition asserted at the end of [StartIONonRT] and
    [StopIONonRT], [start_count_excluding_control_app] equal to [start_count]
    or [start_count − 1], does not hold after every call: [AddClient] caches
    the id of the latest client with the bundle id of BGMApp, so with two
    such clients, 3 added and started and then 4 added and started, neither
    start counts as a start outside BGMApp. After [StartIONonRT(4)] the
    counters are 2 and 0 and the asserted condition is false; the balanced
    continuation [StopIONonRT(4)], [StopIONonRT(3)] ends in
    [IllegalOperation], client 3 being no longer taken for BGMApp. *)
Theorem io_counts_out_of_sync :
  let app id :=
    BGM_Client_new id 102 true (Some example_kBGMAppBundleID) in
  let s1 := AddClient example_kBGMAppBundleID (app 3) BGM_Clients_new in
  let s2 := (StartIONonRT 3 s1).1 in
  let s3 := AddClient example_kBGMAppBundleID (app 4) s2 in
  let s4 := (StartIONonRT 4 s3).1 in
  let s5 := (StopIONonRT 4 s4).1 in
  (StartIONonRT 3 s1).2 = Returned (mkIOResult true true false)
  ∧ counts_in_sync s2
  ∧ (StartIONonRT 4 s3).2 = Returned (mkIOResult false false false)
  ∧ mStartCount s4 = 2
  ∧ mStartCountExcludingBGMApp s4 = 0
  ∧ ¬ counts_in_sync s4
  ∧ (StopIONonRT 4 s4).2 = Returned (mkIOResult false false false)
  ∧ (StopIONonRT 3 s5).2 = Threw CAException_IllegalOperation.
Proof.
  intros app s1 s2 s3 s4 s5.
  assert (H2 : mStartCount s2 = 1 ∧ mStartCountExcludingBGMApp s2 = 0)
    by (split; vm_compute; reflexivity).
  assert (H4 : mStartCount s4 = 2 ∧ mStartCountExcludingBGMApp s4 = 0)
    by (split; vm_compute; reflexivity).
  destruct H2 as [Hstart2 Hexcl2]. destruct H4 as [Hstart4 Hexcl4].
  split; [vm_compute; reflexivity |].
  split; [left; rewrite Hstart2, Hexcl2; reflexivity |].
  split; [vm_compute; reflexivity |].
  split; [exact Hstart4 |]. split; [exact Hexcl4 |].
  split.
  - unfold counts_in_sync. rewrite Hstart4, Hexcl4.
    intros [H | H]; vm_compute in H; discriminate H.
  - split; vm_compute; reflexivity.
Qed.

(** C3. [StopIONonRT] on an added client that is doing IO fails with
    [IllegalOperation] when [start_count] is 0 or, for a client other than
    the control app, when [start_count_excluding_control_app] is 0;
    otherwise it decrements [start_count] (and
    [start_count_excluding_control_app] for a client other than the control
    app), flags the running-elsewhere notification exactly when
    [start_count_excluding_control_app] reaches 0 and returns true exactly
    when [start_count] reaches 0. On a client that is not doing IO it returns
    false, flags nothing and leaves the object unchanged. *)
Theorem StopIONonRT_spec (s : BGM_Clients) (inClientID : Z)
    (theClient : BGM_Client) :
  counts_are_u64 s →
  mClientMap s !! inClientID = Some theClient →
  if mDoingIO theClient then
    if (mStartCount s =? 0)
       || negb (IsBGMApp inClientID s)
          && (mStartCountExcludingBGMApp s =? 0)
    then (StopIONonRT inClientID s).2 = Threw CAException_IllegalOperation
    else
      ∃ s' r,
        StopIONonRT inClientID s = (s', Returned r)
        ∧ mStartCount s' = mStartCount s - 1
        ∧ mStartCountExcludingBGMApp s'
          = mStartCountExcludingBGMApp s
            - (if IsBGMApp inClientID s then 0 else 1)
        ∧ (sendIsRunningSomewhereOtherThanBGMAppNotification r = true
           ↔ mStartCountExcludingBGMApp s ≠ 0
             ∧ mStartCountExcludingBGMApp s' = 0)
        ∧ (didChangeIO r = true ↔ mStartCount s' = 0)
  else
    StopIONonRT inClientID s = (s, Returned (mkIOResult false false false)).
Proof.
  intros [Hstart Hexcl] Hc.
  rewrite StopIONonRT_unfold, Hc. unfold IsBGMApp.
  destruct (mDoingIO theClient); [| done].
  cbv zeta.
  destruct (Z.leb_spec (mStartCount s) 0) as [Hz | Hz];
    destruct (Z.eqb_spec (mStartCount s) 0) as [Hz0 | Hz0]; try lia;
    [done |].
  assert (Hd : u64 (mStartCount s - 1) = mStartCount s - 1)
    by (apply u64_small; lia).
  destruct (Z.eqb_spec inClientID (mBGMAppClientID s)) as [Happ | Happ].
  - simpl. eexists _, _. split; [reflexivity |]. simpl. rewrite Hd.
    split; [done |]. split; [lia |].
    split; [split; [done | lia] |].
    split; [intros H%Z.eqb_eq; lia | intros ->; reflexivity].
  - simpl.
    destruct (Z.leb_spec (mStartCountExcludingBGMApp s) 0) as [Hz' | Hz'];
      destruct (Z.eqb_spec (mStartCountExcludingBGMApp s) 0) as [Hz0' | Hz0'];
      try lia; [done |].
    assert (Hd' : u64 (mStartCountExcludingBGMApp s - 1)
                  = mStartCountExcludingBGMApp s - 1)
      by (apply u64_small; lia).
    eexists _, _. split; [reflexivity |]. simpl. rewrite Hd, Hd'.
    split; [done |]. split; [done |].
    split; [split; [intros H%Z.eqb_eq; lia | intros [_ ->]; reflexivity] |].
    split; [intros H%Z.eqb_eq; lia | intros ->; reflexivity].
Qed.

Lemma StopIONonRT_spec_witness :
  let s := run_io_calls [CallStartIO 1] example_clients in
  let theClient :=
    set_mDoingIO true (BGM_Client_new 1 100 true (Some "com.apple.Music")) in
  counts_are_u64 s
  ∧ mClientMap s !! 1 = Some theClient
  ∧ ∃ s' r,
      StopIONonRT 1 s = (s', Returned r)
      ∧ mStartCount s' = mStartCount s - 1
      ∧ mStartCountExcludingBGMApp s'
        = mStartCountExcludingBGMApp s - (if IsBGMApp 1 s then 0 else 1)
      ∧ (sendIsRunningSomewhereOtherThanBGMAppNotification r = true
         ↔ mStartCountExcludingBGMApp s ≠ 0
           ∧ mStartCountExcludingBGMApp s' = 0)
      ∧ (didChangeIO r = true ↔ mStartCount s' = 0).
Proof.
  intros s theClient.
  assert (Hu64 : counts_are_u64 s).
  { apply io_counts_ok_u64, run_io_calls_keep_counts,
      example_clients_counts_ok. }
  assert (Hc : mClientMap s !! 1 = Some theClient) by reflexivity.
  split; [exact Hu64 |]. split; [exact Hc |].
  exact (StopIONonRT_spec s 1 theClient Hu64 Hc).
Defined.

(** ** Music player *)

Lemma SetMusicPlayer_pid_unfold inPID s :
  SetMusicPlayer_pid inPID s =
  if inPID <? 0 then (s, Threw BGM_InvalidClientPIDException)
  else if mMusicPlayerProcessIDProperty s =? inPID then (s, Returned false)
  else
    (upd_mClientMap (UpdateMusicPlayerFlags_pid inPID)
       (set_mMusicPlayerBundleIDProperty ""
          (set_mMusicPlayerProcessIDProperty inPID s)),
     Returned true).
Proof.
  unfold SetMusicPlayer_pid, bind, ThrowIf, get.
  destruct (inPID <? 0); simpl; [reflexivity |].
  destruct (mMusicPlayerProcessIDProperty s =? inPID); reflexivity.
Qed.

Lemma SetMusicPlayer_bundle_unfold inBundleID s :
  SetMusicPlayer_bundle inBundleID s =
  if bool_decide (mMusicPlayerBundleIDProperty s = inBundleID)
  then (s, Returned false)
  else
    (upd_mClientMap (UpdateMusicPlayerFlags_bundle inBundleID)
       (set_mMusicPlayerProcessIDProperty 0
          (set_mMusicPlayerBundleIDProperty inBundleID s)),
     Returned true).
Proof.
  unfold SetMusicPlayer_bundle, bind, get. simpl.
  destruct (bool_decide (mMusicPlayerBundleIDProperty s = inBundleID));
    reflexivity.
Qed.

Lemma run_music_player_call_designators s call :
  at_most_one_designator s →
  at_most_one_designator (run_music_player_call s call).
Proof.
  intros Hone. destruct call as [inPID | inBundleID]; simpl.
  - rewrite SetMusicPlayer_pid_unfold.
    destruct (inPID <? 0); [done |].
    destruct (mMusicPlayerProcessIDProperty s =? inPID); [done |].
    right. reflexivity.
  - rewrite SetMusicPlayer_bundle_unfold.
    destruct (bool_decide (mMusicPlayerBundleIDProperty s = inBundleID));
      [done |].
    left. reflexivity.
Qed.

Lemma run_music_player_calls_designators calls : ∀ s,
  at_most_one_designator s →
  at_most_one_designator (run_music_player_calls calls s).
Proof.
  induction calls as [| call calls IH]; intros s Hone; [done |].
  apply IH. by apply run_music_player_call_designators.
Qed.

(** C6. [SetMusicPlayer(pid)] fails with [InvalidPID] for every negative
    pid; returns false and changes nothing when pid is the current PID
    designator; otherwise it stores the pid, clears the bundle-id designator,
    re-evaluates [is_music_player] of every client of the map and returns
    true. The bundle-id overload does the same with the roles exchanged and
    clears the PID designator. Hence, from an object with at most one active
    designator, any sequence of calls leaves at most one active. *)
Theorem SetMusicPlayer_spec (s : BGM_Clients) :
  (∀ inPID, inPID < 0 →
     SetMusicPlayer_pid inPID s = (s, Threw BGM_InvalidClientPIDException))
  ∧ (∀ inPID, 0 ≤ inPID → inPID = mMusicPlayerProcessIDProperty s →
       SetMusicPlayer_pid inPID s = (s, Returned false))
  ∧ (∀ inPID, 0 ≤ inPID → inPID ≠ mMusicPlayerProcessIDProperty s →
       ∃ s', SetMusicPlayer_pid inPID s = (s', Returned true)
         ∧ mMusicPlayerProcessIDProperty s' = inPID
         ∧ mMusicPlayerBundleIDProperty s' = ""
         ∧ ∀ id, mClientMap s' !! id
                 = (λ c, set_mIsMusicPlayer (mProcessID c =? inPID) c)
                     <$> mClientMap s !! id)
  ∧ (∀ inBundleID, inBundleID = mMusicPlayerBundleIDProperty s →
       SetMusicPlayer_bundle inBundleID s = (s, Returned false))
  ∧ (∀ inBundleID, inBundleID ≠ mMusicPlayerBundleIDProperty s →
       ∃ s', SetMusicPlayer_bundle inBundleID s = (s', Returned true)
         ∧ mMusicPlayerBundleIDProperty s' = inBundleID
         ∧ mMusicPlayerProcessIDProperty s' = 0
         ∧ ∀ id, mClientMap s' !! id
                 = (λ c, set_mIsMusicPlayer
                           (bool_decide (mBundleID c = Some inBundleID)) c)
                     <$> mClientMap s !! id)
  ∧ (at_most_one_designator s →
     ∀ calls, at_most_one_designator (run_music_player_calls calls s)).
Proof.
  split; [| split; [| split; [| split; [| split]]]].
  - intros inPID Hneg. rewrite SetMusicPlayer_pid_unfold.
    destruct (Z.ltb_spec inPID 0); [done | lia].
  - intros inPID Hpos ->. rewrite SetMusicPlayer_pid_unfold.
    destruct (Z.ltb_spec (mMusicPlayerProcessIDProperty s) 0); [lia |].
    by rewrite Z.eqb_refl.
  - intros inPID Hpos Hne. rewrite SetMusicPlayer_pid_unfold.
    destruct (Z.ltb_spec inPID 0); [lia |].
    destruct (Z.eqb_spec (mMusicPlayerProcessIDProperty s) inPID); [done |].
    eexists. split; [reflexivity |]. simpl. split; [done |]. split; [done |].
    intros id. unfold UpdateMusicPlayerFlags_pid. apply lookup_fmap.
  - intros inBundleID ->. rewrite SetMusicPlayer_bundle_unfold.
    by rewrite bool_decide_eq_true_2.
  - intros inBundleID Hne. rewrite SetMusicPlayer_bundle_unfold.
    rewrite bool_decide_eq_false_2 by done.
    eexists. split; [reflexivity |]. simpl. split; [done |]. split; [done |].
    intros id. unfold UpdateMusicPlayerFlags_bundle. apply lookup_fmap.
  - intros Hone calls. by apply run_music_player_calls_designators.
Qed.

Lemma SetMusicPlayer_spec_witness :
  SetMusicPlayer_pid (-1) example_clients
  = (example_clients, Threw BGM_InvalidClientPIDException)
  ∧ SetMusicPlayer_pid 0 example_clients = (example_clients, Returned false)
  ∧ (∃ s', SetMusicPlayer_pid 100 example_clients = (s', Returned true)
       ∧ mMusicPlayerProcessIDProperty s' = 100
       ∧ mMusicPlayerBundleIDProperty s' = ""
       ∧ ∀ id, mClientMap s' !! id
               = (λ c, set_mIsMusicPlayer (mProcessID c =? 100) c)
                   <$> mClientMap example_clients !! id)
  ∧ at_most_one_designator example_clients
  ∧ at_most_one_designator
      (run_music_player_calls
         [CallSetMusicPlayerPID 100;
          CallSetMusicPlayerBundleID "org.videolan.vlc";
          CallSetMusicPlayerPID 101]
         example_clients).
Proof.
  pose proof (SetMusicPlayer_spec example_clients)
    as (Hneg & Hsame & Hset & _ & _ & Hseq).
  assert (Hone : at_most_one_designator example_clients)
    by (left; reflexivity).
  split; [apply Hneg; lia |].
  split; [apply Hsame; [lia | reflexivity] |].
  split; [apply Hset; [lia | discriminate] |].
  split; [exact Hone |].
  apply Hseq, Hone.
Defined.

(** ** Floating-point comparison *)

Lemma f32_eq_refl (x : Float32) : is_nan x = false → f32_eq x x = true.
Proof.
  unfold f32_eq, SFeqb.
  destruct x as [sx | sx | | sx m e]; simpl; try done.
  - by destruct sx.
  - rewrite Z.compare_refl.
    assert (Hm : Pos.compare_cont Eq m m = Eq) by apply Pos.compare_refl.
    destruct sx; by rewrite Hm.
Qed.

Lemma f32_ne_refl (x : Float32) : is_nan x = false → f32_ne x x = false.
Proof. intros H. unfold f32_ne. fold (f32_eq x x). by rewrite f32_eq_refl. Qed.

Lemma f32_eq_same (x y : Float32) : f32_eq x y = true → gain_same x y.
Proof.
  unfold f32_eq, SFeqb, gain_same.
  destruct x as [sx | sx | | sx mx ex], y as [sy | sy | | sy my ey];
    simpl; try done.
  - intros _. right. eauto.
  - by destruct sy.
  - by destruct sy.
  - by destruct sx.
  - destruct sx, sy; try done; auto.
  - by destruct sx.
  - by destruct sx.
  - by destruct sy.
  - destruct sx, sy; try done;
      destruct (Z.compare_spec ex ey) as [-> | |]; try done;
      destruct (Pos.compare_cont Eq mx my) eqn:Hm; try done;
      apply Pos.compare_eq in Hm as ->; auto.
Qed.

Lemma f32_ne_same (x y g : Float32) :
  gain_same x y → f32_ne x g = f32_ne y g.
Proof.
  intros [-> | (sx & sy & -> & ->)]; [done |].
  unfold f32_ne, SFeqb. by destruct g.
Qed.

(** ** The routing graph *)

Lemma SetRoute_existing_first src dst gain enabled pre route post :
  Forall (λ r, route_matches src dst r = false) pre →
  route_matches src dst route = true →
  SetRoute_existing src dst gain enabled (pre ++ route :: post)
  = Some (pre ++ mkRoute (mSourcePID route) (mDestPID route) gain enabled
                 :: post,
          f32_ne (mGain route) gain || negb (eqb (mEnabled route) enabled)).
Proof.
  intros Hpre Hroute. induction Hpre as [| r pre Hr _ IH]; simpl.
  - by rewrite Hroute.
  - by rewrite Hr, IH.
Qed.

Lemma SetRoute_existing_None src dst gain enabled routes :
  SetRoute_existing src dst gain enabled routes = None
  ↔ Forall (λ r, route_matches src dst r = false) routes.
Proof.
  induction routes as [| r routes IH]; simpl.
  - split; [constructor | done].
  - destruct (route_matches src dst r) eqn:Hr.
    + split; [done |]. intros H. apply Forall_cons in H as [H _]. congruence.
    + destruct (SetRoute_existing src dst gain enabled routes)
        as [[rest changed] |].
      * split; [done |]. intros H. apply Forall_cons in H as [_ H].
        by apply IH in H.
      * split; [| done]. intros _. apply Forall_cons. split; [done |].
        by apply IH.
Qed.

Lemma SetRoute_existing_Some src dst gain enabled routes routes' changed :
  SetRoute_existing src dst gain enabled routes = Some (routes', changed) →
  ∃ pre route post,
    routes = pre ++ route :: post
    ∧ Forall (λ r, route_matches src dst r = false) pre
    ∧ route_matches src dst route = true.
Proof.
  revert routes' changed.
  induction routes as [| r routes IH]; intros routes' changed; simpl; [done |].
  destruct (route_matches src dst r) eqn:Hr.
  - intros _. exists [], r, routes. by repeat split.
  - destruct (SetRoute_existing src dst gain enabled routes)
      as [[rest ch] |] eqn:Hrest; [| done].
    intros _. destruct (IH rest ch eq_refl) as (pre & route & post & -> & ? & ?).
    exists (r :: pre), route, post. split; [done |]. split; [| done].
    by apply Forall_cons.
Qed.

Section SetRoute.

Variable alloc : Z → gmap Z BGM_Client → gmap Z BGM_Client.

(** A second [SetRoute] with the same arguments finds the route the first
    call left, if any, and stores the same values: the object is unchanged,
    and the call can only return true when the gain compares different from
    itself. *)
Lemma SetRoute_twice src dst gain enabled s :
  let s1 := (SetRoute alloc src dst gain enabled s).1 in
  ∃ changed,
    SetRoute alloc src dst gain enabled s1 = (s1, changed)
    ∧ (changed = true → f32_ne gain gain = true).
Proof.
  unfold SetRoute.
  destruct (SetRoute_existing src dst gain enabled (mRoutes s))
    as [[routes changed] |] eqn:Hex.
  - destruct (SetRoute_existing_Some _ _ _ _ _ _ _ Hex)
      as (pre & route & post & Hroutes & Hpre & Hroute).
    rewrite Hroutes, SetRoute_existing_first in Hex by done.
    injection Hex as <- <-. simpl.
    rewrite SetRoute_existing_first by done. simpl.
    rewrite eqb_reflx, orb_false_r. eexists. split; [reflexivity | done].
  - destruct enabled; simpl.
    + apply SetRoute_existing_None in Hex.
      assert (Hnew : route_matches src dst (mkRoute src dst gain true) = true).
      { unfold route_matches. simpl. by rewrite !Z.eqb_refl. }
      rewrite (SetRoute_existing_first _ _ _ _ _ _ [] Hex Hnew). simpl.
      rewrite orb_false_r. eexists. split; [reflexivity | done].
    + rewrite Hex. eexists. split; [reflexivity | done].
Qed.

End SetRoute.

(** C4 fails as stated: with a NaN gain the second of two identical
    [SetRoute] calls returns true. *)
Lemma SetRoute_twice_nan_changed :
  let alloc := ClientMap_AllocateRoutingBufferForPID 8192 in
  let s1 := (SetRoute alloc 200 201 S754_nan true BGM_Clients_new).1 in
  ¬ ((SetRoute alloc 200 201 S754_nan true s1).2 = false).
Proof. simpl. discriminate. Qed.

(** C4, amended. Calling [SetRoute] twice with the same tuple leaves the
    object, and so the routing graph, after the second call equal to the one
    after the first, and the second call returns false when the gain is not
    a NaN. In general, updating an existing
    (source, dest) edge stores gain and enabled flag in it and returns true
    if and only if the stored gain compares different ([!=]) from the new
    gain or the enabled flags differ. *)
Theorem SetRoute_idempotent
    (alloc : Z → gmap Z BGM_Client → gmap Z BGM_Client)
    (src dst : Z) (gain : Float32) (enabled : bool) (s : BGM_Clients) :
  (let s1 := (SetRoute alloc src dst gain enabled s).1 in
   (SetRoute alloc src dst gain enabled s1).1 = s1
   ∧ (is_nan gain = false →
      (SetRoute alloc src dst gain enabled s1).2 = false))
  ∧ (∀ pre route post,
       mRoutes s = pre ++ route :: post →
       Forall (λ r, route_matches src dst r = false) pre →
       route_matches src dst route = true →
       SetRoute alloc src dst gain enabled s
       = (set_mRoutes
            (pre ++ mkRoute (mSourcePID route) (mDestPID route) gain enabled
                 :: post) s,
          f32_ne (mGain route) gain || negb (eqb (mEnabled route) enabled))).
Proof.
  split.
  - intros s1. subst s1.
    destruct (SetRoute_twice alloc src dst gain enabled s)
      as (changed & -> & Hchanged).
    simpl. split; [done |]. intros Hnan.
    destruct changed; [| done].
    rewrite f32_ne_refl in Hchanged by done. symmetry. by apply Hchanged.
  - intros pre route post Hroutes Hpre Hroute. unfold SetRoute.
    by rewrite Hroutes, SetRoute_existing_first.
Qed.

Lemma SetRoute_idempotent_witness :
  let alloc := ClientMap_AllocateRoutingBufferForPID 8192 in
  let s := (SetRoute alloc 202 201 f32_one true
              (SetRoute alloc 200 201 f32_one true example_clients).1).1 in
  let half := f32_div f32_one (f32_of_Z 2) in
  mRoutes s = [mkRoute 200 201 f32_one true] ++ mkRoute 202 201 f32_one true :: []
  ∧ SetRoute alloc 202 201 half true s
    = (set_mRoutes [mkRoute 200 201 f32_one true; mkRoute 202 201 half true] s,
       true)
  ∧ (SetRoute alloc 202 201 half true
       (SetRoute alloc 202 201 half true s).1).2 = false.
Proof.
  intros alloc s half.
  pose proof (SetRoute_idempotent alloc 202 201 half true s) as [[_ H2] Hupd].
  split; [reflexivity |].
  split; [| exact (H2 eq_refl)].
  apply (Hupd [mkRoute 200 201 f32_one true] (mkRoute 202 201 f32_one true) []).
  - reflexivity.
  - repeat constructor.
  - reflexivity.
Defined.

Lemma gain_same_refl (x : Float32) : gain_same x x.
Proof. by left. Qed.

Lemma route_same_refl (r : BGM_AudioRoute) : route_same r r.
Proof. repeat split. apply gain_same_refl. Qed.

Lemma routes_same_refl (routes : list BGM_AudioRoute) :
  Forall2 route_same routes routes.
Proof. induction routes; constructor; [apply route_same_refl | done]. Qed.

Lemma clients_same_refl (s : BGM_Clients) : clients_same s s.
Proof. split; [apply routes_same_refl | done]. Qed.

Lemma route_same_matches src dst r1 r2 :
  route_same r1 r2 → route_matches src dst r1 = route_matches src dst r2.
Proof. intros (Hs & Hd & _). unfold route_matches. by rewrite Hs, Hd. Qed.

(** The loop of the batch and the loop of [SetRoute] on graphs that are the
    same but for the sign of zero gains: both find a route or neither does,
    they report the same change and leave such graphs again. *)
Lemma existing_loops_agree src dst gain enabled routes1 routes2 :
  Forall2 route_same routes1 routes2 →
  match SetRoutesFromArray_existing src dst gain enabled routes1,
        SetRoute_existing src dst gain enabled routes2 with
  | Some (routes1', changed1), Some (routes2', changed2) =>
      changed1 = changed2 ∧ Forall2 route_same routes1' routes2'
  | None, None => True
  | _, _ => False
  end.
Proof.
  induction 1 as [| r1 r2 routes1 routes2 Hr Hrest IH]; simpl; [done |].
  rewrite <- (route_same_matches src dst r1 r2 Hr).
  destruct (route_matches src dst r1).
  - destruct Hr as (Hs & Hd & Hen & Hgain).
    rewrite <- Hen, <- (f32_ne_same _ _ gain Hgain).
    destruct (f32_ne (mGain r1) gain) eqn:Hne; simpl.
    + split; [done |]. constructor; [| done].
      rewrite Hs, Hd. apply route_same_refl.
    + destruct (eqb (mEnabled r1) enabled) eqn:Hen'; simpl.
      * split; [done |]. constructor; [| done].
        apply eqb_prop in Hen'. repeat split; try done.
        simpl. apply f32_eq_same. unfold f32_ne in Hne.
        by apply negb_false_iff in Hne.
      * split; [done |]. constructor; [| done].
        rewrite Hs, Hd. apply route_same_refl.
  - destruct (SetRoutesFromArray_existing src dst gain enabled routes1)
      as [[rest1 ch1] |],
      (SetRoute_existing src dst gain enabled routes2) as [[rest2 ch2] |];
      try done.
    destruct IH as [-> IH]. split; [done |]. by constructor.
Qed.

Section SetRoutesFromArray.

Variable alloc : Z → gmap Z BGM_Client → gmap Z BGM_Client.

Lemma clients_same_fields s1 s2 :
  clients_same s1 s2 →
  mClientMap s1 = mClientMap s2
  ∧ mStartCount s1 = mStartCount s2
  ∧ mStartCountExcludingBGMApp s1 = mStartCountExcludingBGMApp s2
  ∧ mBGMAppClientID s1 = mBGMAppClientID s2
  ∧ mMusicPlayerProcessIDProperty s1 = mMusicPlayerProcessIDProperty s2
  ∧ mMusicPlayerBundleIDProperty s1 = mMusicPlayerBundleIDProperty s2.
Proof.
  intros [_ Heq]. unfold set_mRoutes in Heq. by injection Heq.
Qed.

Lemma clients_same_intro s1 s2 routes1 routes2 f :
  clients_same s1 s2 →
  Forall2 route_same routes1 routes2 →
  clients_same (upd_mClientMap f (set_mRoutes routes1 s1))
               (upd_mClientMap f (set_mRoutes routes2 s2)).
Proof.
  intros Hsame Hroutes.
  destruct (clients_same_fields s1 s2 Hsame) as (H1 & H2 & H3 & H4 & H5 & H6).
  split; [done |].
  unfold upd_mClientMap, set_mRoutes. simpl. by rewrite H1, H2, H3, H4, H5, H6.
Qed.

Lemma entry_steps_agree s1 s2 didChange theRoute :
  clients_same s1 s2 →
  let st1 := SetRoutesFromArray_entry alloc (s1, didChange) theRoute in
  let st2 := SetRoute_entry_by_entry_step alloc (s2, didChange) theRoute in
  clients_same st1.1 st2.1 ∧ st1.2 = st2.2.
Proof.
  intros Hsame. simpl.
  destruct theRoute as [[[sourcePID |] [destPID |] gain enabled] |];
    simpl; try done.
  unfold SetRoute.
  pose proof (existing_loops_agree sourcePID destPID (default f32_one gain)
                (default true enabled) (mRoutes s1) (mRoutes s2)
                (proj1 Hsame)) as Hloops.
  destruct (SetRoutesFromArray_existing sourcePID destPID
              (default f32_one gain) (default true enabled) (mRoutes s1))
    as [[routes1 ch1] |],
    (SetRoute_existing sourcePID destPID (default f32_one gain)
       (default true enabled) (mRoutes s2)) as [[routes2 ch2] |];
    try done.
  - destruct Hloops as [-> Hroutes]. simpl. split; [| done].
    by apply (clients_same_intro s1 s2 routes1 routes2 (λ m, m)).
  - destruct (default true enabled); simpl.
    + split; [| by rewrite orb_true_r].
      apply (clients_same_intro s1 s2 _ _ (alloc sourcePID)); [done |].
      apply Forall2_app; [apply Hsame |].
      constructor; [apply route_same_refl | constructor].
    + split; [done | by rewrite orb_false_r].
Qed.

Lemma batches_agree inRoutes : ∀ s1 s2 didChange,
  clients_same s1 s2 →
  let st1 := foldl (SetRoutesFromArray_entry alloc) (s1, didChange) inRoutes in
  let st2 :=
    foldl (SetRoute_entry_by_entry_step alloc) (s2, didChange) inRoutes in
  clients_same st1.1 st2.1 ∧ st1.2 = st2.2.
Proof.
  induction inRoutes as [| theRoute inRoutes IH]; intros s1 s2 didChange Hsame;
    [done |].
  cbn [foldl].
  destruct (entry_steps_agree s1 s2 didChange theRoute Hsame) as [Hs Hd].
  destruct (SetRoutesFromArray_entry alloc (s1, didChange) theRoute)
    as [s1' d1] eqn:H1.
  destruct (SetRoute_entry_by_entry_step alloc (s2, didChange) theRoute)
    as [s2' d2] eqn:H2.
  simpl in Hs, Hd. subst d2. by apply IH.
Qed.

End SetRoutesFromArray.

Lemma routes_same_eq routes1 routes2 :
  Forall2 route_same routes1 routes2 →
  Forall (λ r, is_zero (mGain r) = false) routes1 →
  routes1 = routes2.
Proof.
  induction 1 as [| r1 r2 routes1 routes2 Hr _ IH]; [done |].
  intros [Hz Hrest]%Forall_cons. f_equal; [| by apply IH].
  destruct r1 as [s1 d1 g1 e1], r2 as [s2 d2 g2 e2].
  destruct Hr as (Hs & Hd & He & Hg). simpl in *. subst.
  destruct Hg as [-> | (sx & sy & -> & _)]; done.
Qed.

Lemma clients_same_eq s1 s2 :
  clients_same s1 s2 → mRoutes s1 = mRoutes s2 → s1 = s2.
Proof.
  intros Hsame Hroutes.
  destruct (clients_same_fields s1 s2 Hsame) as (H1 & H2 & H3 & H4 & H5 & H6).
  destruct s1, s2. simpl in *. by subst.
Qed.

Lemma SetRoutesFromArray_existing_changed src dst gain enabled routes :
  ∀ routes' changed,
    SetRoutesFromArray_existing src dst gain enabled routes
    = Some (routes', changed) →
    (changed = false → routes' = routes)
    ∧ (changed = true → routes' ≠ routes ∨ is_nan gain = true).
Proof.
  induction routes as [| r routes IH]; intros routes' changed; simpl;
    [done |].
  destruct (route_matches src dst r).
  - destruct (f32_ne (mGain r) gain || negb (eqb (mEnabled r) enabled))
      eqn:Hdiff; intros [= <- <-]; [| done].
    split; [done |]. intros _.
    destruct (is_nan gain) eqn:Hnan; [by right | left].
    intros [= Heq]. rewrite <- Heq in Hdiff. simpl in Hdiff.
    by rewrite f32_ne_refl, eqb_reflx in Hdiff.
  - destruct (SetRoutesFromArray_existing src dst gain enabled routes)
      as [[rest' ch] |]; [| done].
    intros [= <- <-]. destruct (IH rest' ch eq_refl) as [Hsame Hdiff].
    split.
    + intros Hch. by rewrite Hsame.
    + intros Hch. destruct (Hdiff Hch) as [Hne | Hnan]; [left | by right].
      intros [= Heq]. done.
Qed.

Lemma SetRoutesFromArray_entry_changed alloc s didChange theRoute :
  let st := SetRoutesFromArray_entry alloc (s, didChange) theRoute in
  ∃ changed,
    st.2 = didChange || changed
    ∧ (changed = false → st.1 = s)
    ∧ (changed = true →
       st.1 ≠ s
       ∨ ∃ entry gain, theRoute = Some entry ∧ rGain entry = Some gain
                       ∧ is_nan gain = true).
Proof.
  assert (Hnone : ∃ changed : bool,
            didChange = didChange || changed
            ∧ (changed = false → s = s)
            ∧ (changed = true →
               s ≠ s
               ∨ ∃ entry gain, theRoute = Some entry
                               ∧ rGain entry = Some gain
                               ∧ is_nan gain = true)).
  { exists false. by rewrite orb_false_r. }
  destruct theRoute as [[[src |] [dst |] gain enabled] |]; simpl;
    try exact Hnone.
  pose proof (SetRoutesFromArray_existing_changed src dst
                (default f32_one gain) (default true enabled) (mRoutes s))
    as Hex.
  destruct (SetRoutesFromArray_existing src dst (default f32_one gain)
              (default true enabled) (mRoutes s)) as [[routes' ch] |].
  - destruct (Hex routes' ch eq_refl) as [Hsame Hdiff]. clear Hnone.
    exists ch. simpl. split; [done |]. split.
    + intros Hch. rewrite (Hsame Hch). by destruct s.
    + intros Hch. destruct (Hdiff Hch) as [Hne | Hnan].
      * left. intros Heq. apply Hne. by rewrite <- Heq.
      * right. destruct gain as [g |]; [| done]. eauto.
  - destruct (default true enabled); simpl; [| exact Hnone].
    exists true. rewrite orb_true_r. split; [done |]. split; [done |].
    intros _. left. intros Heq. apply (f_equal mRoutes) in Heq.
    simpl in Heq. apply (f_equal length) in Heq.
    rewrite length_app in Heq. simpl in Heq. lia.
Qed.

Lemma SetRoutesFromArray_flag_stays alloc inRoutes : ∀ st,
  st.2 = true → (foldl (SetRoutesFromArray_entry alloc) st inRoutes).2 = true.
Proof.
  induction inRoutes as [| e inRoutes IH]; intros [s d] Hd; [done |].
  simpl in Hd. subst d. cbn [foldl]. apply IH.
  destruct (SetRoutesFromArray_entry_changed alloc s true e)
    as (ch & Hflag & _).
  by rewrite Hflag.
Qed.

Lemma SetRoutesFromArray_change_reported alloc s before e after :
  (SetRoutesFromArray alloc (before ++ [e]) s).1
  ≠ (SetRoutesFromArray alloc before s).1 →
  (SetRoutesFromArray alloc (before ++ e :: after) s).2 = true.
Proof.
  unfold SetRoutesFromArray. rewrite !foldl_app. cbn [foldl].
  destruct (foldl (SetRoutesFromArray_entry alloc) (s, false) before)
    as [sb db].
  destruct (SetRoutesFromArray_entry_changed alloc sb db e)
    as (ch & Hflag & Hsame & _).
  intros Hne. apply SetRoutesFromArray_flag_stays.
  rewrite Hflag. destruct ch; [by rewrite orb_true_r |].
  by destruct Hne; apply Hsame.
Qed.

Lemma SetRoutesFromArray_true_why alloc s inRoutes :
  (SetRoutesFromArray alloc inRoutes s).2 = true →
  (∃ before e after,
     inRoutes = before ++ e :: after
     ∧ (SetRoutesFromArray alloc (before ++ [e]) s).1
       ≠ (SetRoutesFromArray alloc before s).1)
  ∨ (∃ entry gain, Some entry ∈ inRoutes ∧ rGain entry = Some gain
                   ∧ is_nan gain = true).
Proof.
  induction inRoutes as [| e inRoutes IH] using rev_ind; [done |].
  unfold SetRoutesFromArray in *. rewrite foldl_app. cbn [foldl].
  destruct (foldl (SetRoutesFromArray_entry alloc) (s, false) inRoutes)
    as [sb db] eqn:Hfold.
  destruct (SetRoutesFromArray_entry_changed alloc sb db e)
    as (ch & Hflag & _ & Hdiff).
  rewrite Hflag. intros [Hdb | Hch]%orb_true_iff.
  - destruct (IH Hdb) as [(before & e0 & after & -> & Hne)
                          | (entry & gain & Hin & Hgain & Hnan)].
    + left. exists before, e0, (after ++ [e]).
      split; [by rewrite <- app_assoc | done].
    + right. exists entry, gain. split; [| done].
      apply elem_of_app. by left.
  - destruct (Hdiff Hch) as [Hne | (entry & gain & -> & Hgain & Hnan)].
    + left. exists inRoutes, e, []. split; [done |].
      rewrite foldl_app. cbn [foldl]. by rewrite Hfold.
    + right. exists entry, gain. split; [| done].
      apply elem_of_app. right. apply list_elem_of_singleton. done.
Qed.

(** C9 fails as stated: on the graph with the edge 200 → 201 of gain +0.0,
    the batch with the one entry (200, 201, gain −0.0, enabled) leaves the
    stored gain, where [SetRoute] overwrites it with −0.0. *)
Lemma SetRoutesFromArray_keeps_equal_gain :
  let alloc := ClientMap_AllocateRoutingBufferForPID 8192 in
  let s :=
    (SetRoute alloc 200 201 (S754_zero false) true BGM_Clients_new).1 in
  let inRoutes :=
    [Some (mkRouteEntry (Some 200) (Some 201) (Some (S754_zero true))
             (Some true))] in
  mRoutes (SetRoutesFromArray alloc inRoutes s).1
  ≠ mRoutes (SetRoute_entry_by_entry alloc inRoutes s).1.
Proof. simpl. discriminate. Qed.

(** An entry whose NaN gain is the gain already stored reports a change and
    changes nothing: the stored NaN compares different from itself. *)
Lemma SetRoutesFromArray_nan_reports_change :
  let alloc := ClientMap_AllocateRoutingBufferForPID 8192 in
  let s := (SetRoute alloc 200 201 S754_nan true BGM_Clients_new).1 in
  let inRoutes :=
    [Some (mkRouteEntry (Some 200) (Some 201) (Some S754_nan) (Some true))] in
  SetRoutesFromArray alloc inRoutes s = (s, true)
  ∧ SetRoute_entry_by_entry alloc inRoutes s = (s, true).
Proof. split; reflexivity. Qed.

(** C9, amended. [SetRoutesFromArray] returns what applying [SetRoute] entry
    by entry (gain defaulting to 1.0, enabled to true, entries without source
    or destination PID skipped) returns: true whenever some entry added or
    modified an edge, and only when some entry did so or carries a NaN gain
    (a NaN gain that is already stored reports a change and changes
    nothing). The two resulting objects agree but for the sign of zero gains
    in the routing graph, which has the same edges in the same order; they
    are equal when no gain of the resulting graph is a zero. *)
Theorem SetRoutesFromArray_refines
    (alloc : Z → gmap Z BGM_Client → gmap Z BGM_Client)
    (inRoutes : list (option RouteEntry)) (s : BGM_Clients) :
  let batch := SetRoutesFromArray alloc inRoutes s in
  let single := SetRoute_entry_by_entry alloc inRoutes s in
  batch.2 = single.2
  ∧ clients_same batch.1 single.1
  ∧ (Forall (λ r, is_zero (mGain r) = false) (mRoutes batch.1) →
     batch.1 = single.1)
  ∧ (∀ st theRoute, route_entry_skipped theRoute →
       SetRoutesFromArray_entry alloc st theRoute = st)
  ∧ (∀ before theRoute after,
       inRoutes = before ++ theRoute :: after →
       (SetRoutesFromArray alloc (before ++ [theRoute]) s).1
       ≠ (SetRoutesFromArray alloc before s).1 →
       batch.2 = true)
  ∧ (batch.2 = true →
     (∃ before theRoute after,
        inRoutes = before ++ theRoute :: after
        ∧ (SetRoutesFromArray alloc (before ++ [theRoute]) s).1
          ≠ (SetRoutesFromArray alloc before s).1)
     ∨ (∃ entry gain, Some entry ∈ inRoutes ∧ rGain entry = Some gain
                      ∧ is_nan gain = true)).
Proof.
  intros batch single.
  destruct (batches_agree alloc inRoutes s s false (clients_same_refl s))
    as [Hsame Hflag].
  fold (SetRoutesFromArray alloc inRoutes s) in Hsame, Hflag.
  fold (SetRoute_entry_by_entry alloc inRoutes s) in Hsame, Hflag.
  fold batch in Hsame, Hflag. fold single in Hsame, Hflag.
  split; [done |]. split; [done |]. split; [| split; [| split]].
  - intros Hnz. apply clients_same_eq; [done |].
    apply routes_same_eq; [apply Hsame | done].
  - intros [s0 d] [theRoute |] Hskip; simpl; [| done].
    destruct Hskip as [-> | Hdst]; [done |].
    rewrite Hdst. by destruct (rSourceProcessID theRoute).
  - intros before theRoute after -> Hne.
    by apply SetRoutesFromArray_change_reported.
  - apply SetRoutesFromArray_true_why.
Qed.

Lemma SetRoutesFromArray_refines_witness :
  let alloc := ClientMap_AllocateRoutingBufferForPID 8192 in
  let half := f32_div f32_one (f32_of_Z 2) in
  let inRoutes :=
    [Some (mkRouteEntry (Some 200) (Some 201) (Some half) None);
     Some (mkRouteEntry None (Some 201) None None);
     None;
     Some (mkRouteEntry (Some 202) (Some 201) None (Some true));
     Some (mkRouteEntry (Some 200) (Some 201) None (Some false))] in
  let batch := SetRoutesFromArray alloc inRoutes example_clients in
  Forall (λ r, is_zero (mGain r) = false) (mRoutes batch.1)
  ∧ batch.1 = (SetRoute_entry_by_entry alloc inRoutes example_clients).1
  ∧ batch.2 = true
  ∧ mRoutes batch.1
    = [mkRoute 200 201 f32_one false; mkRoute 202 201 f32_one true]
  ∧ SetRoutesFromArray_entry alloc (example_clients, false)
      (Some (mkRouteEntry None (Some 201) None None))
    = (example_clients, false)
  ∧ (SetRoutesFromArray alloc (take 1 inRoutes) example_clients).1
    ≠ (SetRoutesFromArray alloc [] example_clients).1.
Proof.
  intros alloc half inRoutes batch.
  pose proof (SetRoutesFromArray_refines alloc inRoutes example_clients)
    as (Hflag & _ & Heq & Hskip & Hreported & Hwhy).
  assert (Hnz : Forall (λ r, is_zero (mGain r) = false) (mRoutes batch.1))
    by (repeat constructor).
  assert (Hne : (SetRoutesFromArray alloc (take 1 inRoutes) example_clients).1
                ≠ (SetRoutesFromArray alloc [] example_clients).1).
  { intros Heq0. apply (f_equal mRoutes) in Heq0. discriminate Heq0. }
  split; [exact Hnz |].
  split; [exact (Heq Hnz) |].
  split; [exact (Hreported [] _ _ eq_refl Hne) |].
  split; [reflexivity |].
  split; [apply Hskip; left; reflexivity | exact Hne].
Defined.

(** ** Mixing routed audio *)

Section Mixing.

Variable F : Z.
Variable sourceClient : BGM_Client.
Variable gain : Float32.
Variable inNumFrames : Z.
Hypothesis frames_fit : 2 * inNumFrames ≤ UINT32_MOD.

Let fetch (j : Z) : Float32 :=
  FetchFromRoutingBuffer F (j mod 2) (inNumFrames - j / 2) sourceClient.

Let mixed (ioBuffer : list Float32) (j : Z) : Float32 :=
  f32_add (read_sample ioBuffer j) (f32_mul (fetch j) gain).

Lemma mix_frame_eq ioBuffer frame :
  0 ≤ frame < inNumFrames →
  mix_frame F sourceClient gain inNumFrames ioBuffer frame
  = <[Z.to_nat (2 * frame + 1) := mixed ioBuffer (2 * frame + 1)]>
      (<[Z.to_nat (2 * frame) := mixed ioBuffer (2 * frame)]> ioBuffer).
Proof.
  intros Hframe. unfold mix_frame, mixed, fetch.
  rewrite (u32_small (inNumFrames - frame)) by lia.
  rewrite (u32_small (frame * 2)) by lia.
  rewrite (u32_small (frame * 2 + 1)) by lia.
  replace (frame * 2) with (2 * frame) by lia.
  replace ((2 * frame) mod 2) with 0
    by (rewrite Z.mul_comm, Z.mod_mul; lia).
  replace ((2 * frame + 1) mod 2) with 1
    by (rewrite Z.add_comm, Z.mul_comm, Z.mod_add; [done | lia]).
  replace (2 * frame / 2) with frame
    by (rewrite Z.mul_comm, Z.div_mul; lia).
  replace ((2 * frame + 1) / 2) with frame
    by (rewrite Z.add_comm, Z.mul_comm, Z.div_add; [done | lia]).
  f_equal. f_equal. unfold read_sample.
  rewrite list_lookup_insert_ne by lia. reflexivity.
Qed.

(** The inner loop of [MixRoutedAudioRT] after [k] frames. *)
Lemma mix_frames_lookup (k : nat) : ∀ ioBuffer,
  Z.of_nat k ≤ inNumFrames →
  (2 * k ≤ length ioBuffer)%nat →
  let io' :=
    foldl (mix_frame F sourceClient gain inNumFrames) ioBuffer
          (seqZ 0 (Z.of_nat k)) in
  length io' = length ioBuffer
  ∧ (∀ j : nat, (j < 2 * k)%nat →
       io' !! j = Some (mixed ioBuffer (Z.of_nat j)))
  ∧ (∀ j : nat, (2 * k ≤ j)%nat → io' !! j = ioBuffer !! j).
Proof.
  induction k as [| k IH]; intros ioBuffer Hk Hlen.
  - simpl. split; [done |]. split; [intros; lia | done].
  - destruct (IH ioBuffer) as (Hlen' & Hmixed & Hrest); [lia .. |].
    rewrite seqZ_S, foldl_app, Z.add_0_l. cbn [foldl].
    set (io1 := foldl (mix_frame F sourceClient gain inNumFrames) ioBuffer
                  (seqZ 0 (Z.of_nat k))) in *.
    rewrite mix_frame_eq by lia.
    replace (Z.to_nat (2 * Z.of_nat k)) with (2 * k)%nat by lia.
    replace (Z.to_nat (2 * Z.of_nat k + 1)) with (2 * k + 1)%nat by lia.
    assert (Hread : ∀ j : nat, (2 * k ≤ j)%nat →
              read_sample io1 (Z.of_nat j) = read_sample ioBuffer (Z.of_nat j)).
    { intros j Hj. unfold read_sample. rewrite Nat2Z.id. by rewrite Hrest. }
    split; [by rewrite !length_insert |]. split.
    + intros j Hj.
      destruct (decide (j = 2 * k + 1)%nat) as [-> | Hne1].
      { rewrite list_lookup_insert_eq by (rewrite length_insert; lia).
        unfold mixed. f_equal.
        replace (2 * Z.of_nat k + 1) with (Z.of_nat (2 * k + 1)) by lia.
        by rewrite Hread by lia. }
      rewrite list_lookup_insert_ne by lia.
      destruct (decide (j = 2 * k)%nat) as [-> | Hne0].
      { rewrite list_lookup_insert_eq by lia.
        unfold mixed. f_equal.
        replace (2 * Z.of_nat k) with (Z.of_nat (2 * k)) by lia.
        by rewrite Hread by lia. }
      rewrite list_lookup_insert_ne by lia.
      apply Hmixed. lia.
    + intros j Hj. rewrite !list_lookup_insert_ne by lia.
      apply Hrest. lia.
Qed.

End Mixing.

Section MixRoutes.

Variable F : Z.
Variable m : gmap Z BGM_Client.
Variable destPID : Z.
Variable inNumFrames : Z.
Hypothesis frames_nonneg : 0 ≤ inNumFrames.
Hypothesis frames_fit : 2 * inNumFrames ≤ UINT32_MOD.

Lemma mix_route_skips route ioBuffer :
  route_source m destPID route = None →
  mix_route F m destPID inNumFrames ioBuffer route = ioBuffer.
Proof.
  unfold route_source, mix_route. rewrite <- negb_andb.
  destruct (mEnabled route && (mDestPID route =? destPID)); simpl; [| done].
  by intros ->.
Qed.

Lemma mix_route_lookup route ioBuffer :
  2 * inNumFrames ≤ Z.of_nat (length ioBuffer) →
  let io' := mix_route F m destPID inNumFrames ioBuffer route in
  length io' = length ioBuffer
  ∧ (∀ j : nat, Z.of_nat j < 2 * inNumFrames →
       io' !! j
       = Some (add_routed_sample F m destPID inNumFrames (Z.of_nat j)
                 (read_sample ioBuffer (Z.of_nat j)) route))
  ∧ (∀ j : nat, 2 * inNumFrames ≤ Z.of_nat j → io' !! j = ioBuffer !! j).
Proof.
  intros Hlen. unfold add_routed_sample.
  destruct (route_source m destPID route) as [sourceClient |] eqn:Hsrc.
  - assert (Hmix : mix_route F m destPID inNumFrames ioBuffer route
                   = foldl (mix_frame F sourceClient (mGain route) inNumFrames)
                       ioBuffer (seqZ 0 inNumFrames)).
    { unfold route_source in Hsrc. unfold mix_route. rewrite <- negb_andb.
      destruct (mEnabled route && (mDestPID route =? destPID)); [| done].
      simpl. by rewrite Hsrc. }
    rewrite Hmix.
    destruct (mix_frames_lookup F sourceClient (mGain route) inNumFrames
                frames_fit (Z.to_nat inNumFrames) ioBuffer)
      as (Hlen' & Hmixed & Hrest); [lia .. |].
    rewrite Z2Nat.id in Hlen', Hmixed, Hrest by lia.
    split; [done |]. split.
    + intros j Hj. apply Hmixed. lia.
    + intros j Hj. apply Hrest. lia.
  - rewrite mix_route_skips by done. simpl. split; [done |]. split; [| done].
    intros j Hj. unfold read_sample. rewrite Nat2Z.id.
    destruct (lookup_lt_is_Some_2 ioBuffer j) as [x ->]; [lia | done].
Qed.

Lemma mix_routes_lookup routes : ∀ ioBuffer,
  2 * inNumFrames ≤ Z.of_nat (length ioBuffer) →
  let io' := foldl (mix_route F m destPID inNumFrames) ioBuffer routes in
  length io' = length ioBuffer
  ∧ (∀ j : nat, Z.of_nat j < 2 * inNumFrames →
       io' !! j
       = Some (foldl (add_routed_sample F m destPID inNumFrames (Z.of_nat j))
                 (read_sample ioBuffer (Z.of_nat j)) routes))
  ∧ (∀ j : nat, 2 * inNumFrames ≤ Z.of_nat j → io' !! j = ioBuffer !! j).
Proof.
  induction routes as [| route routes IH]; intros ioBuffer Hlen.
  - simpl. split; [done |]. split; [| done].
    intros j Hj. unfold read_sample. rewrite Nat2Z.id.
    destruct (lookup_lt_is_Some_2 ioBuffer j) as [x ->]; [lia | done].
  - destruct (mix_route_lookup route ioBuffer Hlen) as (Hlen1 & Hmixed1 & Hrest1).
    cbn [foldl].
    destruct (IH (mix_route F m destPID inNumFrames ioBuffer route))
      as (Hlen2 & Hmixed2 & Hrest2); [lia |].
    split; [lia |]. split.
    + intros j Hj. rewrite Hmixed2 by done. do 2 f_equal.
      unfold read_sample at 1. rewrite Nat2Z.id. by rewrite Hmixed1.
    + intros j Hj. rewrite Hrest2 by done. by apply Hrest1.
Qed.

End MixRoutes.

Lemma foldl_pointwise {A B} (f g : A → B → A) (l : list B) : ∀ a,
  (∀ a b, f a b = g a b) → foldl f a l = foldl g a l.
Proof.
  induction l as [| b l IH]; intros a Hfg; [done |].
  simpl. rewrite Hfg. by apply IH.
Qed.

(** C8. For a destination client of process [destPID] and an IO buffer of
    [inNumFrames] stereo frames, [MixRoutedAudioRT] leaves in [io[2i]]
    (left) and [io[2i+1]] (right), for each output frame [i] in
    [0, inNumFrames), what the buffer held plus, for each route of the graph
    in turn that is enabled, targets [destPID] and whose source PID matches
    a client, the route's gain times the sample of that client's ring buffer
    at sample offset [inNumFrames − i]. A route that is disabled, targets
    another PID or whose source PID matches no client leaves the buffer as it
    is. *)
Theorem MixRoutedAudioRT_adds (F : Z) (s : BGM_Clients) (inClientID : Z)
    (destClient : BGM_Client) (ioBuffer : list Float32) (inNumFrames : Z) :
  mClientMap s !! inClientID = Some destClient →
  0 ≤ inNumFrames → 2 * inNumFrames ≤ UINT32_MOD →
  2 * inNumFrames ≤ Z.of_nat (length ioBuffer) →
  let destPID := mProcessID destClient in
  let io' := MixRoutedAudioRT F inClientID ioBuffer inNumFrames s in
  (∀ i channel, 0 ≤ i < inNumFrames → 0 ≤ channel < 2 →
     io' !! Z.to_nat (2 * i + channel)
     = Some
         (foldl
            (λ sample route,
               match route_source (mClientMap s) destPID route with
               | Some sourceClient =>
                   f32_add sample
                     (f32_mul
                        (FetchFromRoutingBuffer F channel (inNumFrames - i)
                           sourceClient)
                        (mGain route))
               | None => sample
               end)
            (read_sample ioBuffer (2 * i + channel)) (mRoutes s)))
  ∧ (∀ route buffer,
       mEnabled route = false ∨ mDestPID route ≠ destPID
       ∨ GetClientByPIDRT (mSourcePID route) (mClientMap s) = None →
       mix_route F (mClientMap s) destPID inNumFrames buffer route = buffer)
  ∧ length io' = length ioBuffer.
Proof.
  intros Hdest Hn Hn32 Hlen destPID io'.
  destruct (mix_routes_lookup F (mClientMap s) destPID inNumFrames Hn Hn32
              (mRoutes s) ioBuffer Hlen) as (Hlen' & Hmixed & _).
  assert (Hio : io' = foldl (mix_route F (mClientMap s) destPID inNumFrames)
                        ioBuffer (mRoutes s)).
  { unfold io', MixRoutedAudioRT, GetClientPtrRT. by rewrite Hdest. }
  rewrite Hio. split; [| split; [| done]].
  - intros i channel Hi Hch.
    rewrite Hmixed by lia.
    rewrite Z2Nat.id by lia. f_equal.
    apply foldl_pointwise. intros sample route. unfold add_routed_sample.
    replace ((2 * i + channel) mod 2) with channel.
    2:{ rewrite Z.add_comm, Z.mul_comm, Z.mod_add by lia.
        rewrite Z.mod_small; lia. }
    replace ((2 * i + channel) / 2) with i.
    2:{ rewrite Z.add_comm, Z.mul_comm, Z.div_add by lia.
        rewrite Z.div_small; lia. }
    reflexivity.
  - intros route buffer Hskip. apply mix_route_skips.
    unfold route_source.
    destruct Hskip as [-> | [Hne | Hnone]]; [done | |].
    + apply Z.eqb_neq in Hne. rewrite Hne. by rewrite andb_false_r.
    + rewrite Hnone. by destruct (_ && _).
Qed.

Lemma MixRoutedAudioRT_adds_witness :
  let io := replicate 8 f32_zero in
  let io' := MixRoutedAudioRT 8 11 io 4 example_routing in
  mClientMap example_routing !! 11 = Some (BGM_Client_new 11 201 true None)
  ∧ io' !! Z.to_nat (2 * 3 + 0)
    = Some
        (foldl
           (λ sample route,
              match route_source (mClientMap example_routing) 201 route with
              | Some sourceClient =>
                  f32_add sample
                    (f32_mul (FetchFromRoutingBuffer 8 0 (4 - 3) sourceClient)
                       (mGain route))
              | None => sample
              end)
           (read_sample io (2 * 3 + 0)) (mRoutes example_routing))
  ∧ io' = [f32_zero; f32_zero;
           example_half; f32_zero;
           f32_one; f32_zero;
           f32_div (f32_of_Z 3) (f32_of_Z 2); f32_zero].
Proof.
  intros io io'.
  assert (Hdest : mClientMap example_routing !! 11
                  = Some (BGM_Client_new 11 201 true None)) by reflexivity.
  destruct (MixRoutedAudioRT_adds 8 example_routing 11
              (BGM_Client_new 11 201 true None) io 4 Hdest) as (Hadds & _ & _).
  - lia.
  - rewrite UINT32_MOD_val. lia.
  - simpl. lia.
  - split; [exact Hdest |].
    split; [apply (Hadds 3 0); lia |].
    vm_compute. reflexivity.
Defined.

(** ** App volumes *)

Lemma agree_on_refl {A} (view : BGM_Client → A) s : agree_on view s s.
Proof. done. Qed.






Section FailingEntry.

Variables volMin volMax panLeft panRight eqMin eqMax noValue : Z.
Variable curve : Z → Float32.
Variable stalePID : Z.





End FailingEntry.





(** * Further properties *)

(** ** Allocation of the routing buffer *)

(** X1. [AllocateRoutingBuffer] leaves a client whose buffer is allocated
    exactly as it is (the stored audio and the write position are kept), and
    allocating twice is allocating once. [DeallocateRoutingBuffer] twice is
    deallocating once. *)
Theorem allocate_keeps_allocated_buffer (F : Z) (c : BGM_Client) :
  (isNotAllocated c = false → AllocateRoutingBuffer F c = c)
  ∧ AllocateRoutingBuffer F (AllocateRoutingBuffer F c)
    = AllocateRoutingBuffer F c
  ∧ DeallocateRoutingBuffer (DeallocateRoutingBuffer c)
    = DeallocateRoutingBuffer c.
Proof.
  unfold isNotAllocated, AllocateRoutingBuffer, DeallocateRoutingBuffer.
  destruct (mRoutingBufferAllocated c) eqn:Ha,
    (mRoutingBuffer c) as [storage |] eqn:Hb; simpl;
    rewrite ?Ha, ?Hb; simpl; done.
Qed.

Lemma allocate_keeps_allocated_buffer_witness :
  let c :=
    StoreToRoutingBuffer 4 [f32_one; f32_one] 1 f64_zero
      (AllocateRoutingBuffer 4 (BGM_Client_new 1 200 true None)) in
  isNotAllocated c = false
  ∧ AllocateRoutingBuffer 4 c = c
  ∧ FetchFromRoutingBuffer 4 0 1 (AllocateRoutingBuffer 4 c) = f32_one.
Proof.
  intros c.
  assert (Ha : isNotAllocated c = false) by reflexivity.
  pose proof (proj1 (allocate_keeps_allocated_buffer 4 c) Ha) as Hsame.
  split; [exact Ha |]. split; [exact Hsame |].
  rewrite Hsame. reflexivity.
Defined.

(** X2. A buffer that [AllocateRoutingBuffer] has just allocated reads as
    silence: on a client whose buffer was not allocated, every fetch after
    the allocation returns 0.0, whatever the channel and the sample offset,
    and the write position is 0. *)
Theorem allocated_buffer_is_silent (F : Z) (c : BGM_Client) :
  0 < F → F * kRoutingBufferChannels < UINT32_MOD →
  mRoutingBufferAllocated c = false → mRoutingBuffer c = None →
  let c' := AllocateRoutingBuffer F c in
  isNotAllocated c' = false
  ∧ mRoutingBufferWritePos c' = 0
  ∧ ∀ inChannel inSampleOffset, 0 ≤ inSampleOffset →
      FetchFromRoutingBuffer F inChannel inSampleOffset c' = f32_zero.
Proof.
  intros HF HF32 Ha Hb c'.
  assert (Hc' : c' = set_routing
                  (Some (replicate
                           (Z.to_nat (u32 (F * kRoutingBufferChannels)))
                           f32_zero))
                  true 0 (mRoutingBufferSampleTime c) c).
  { unfold c', AllocateRoutingBuffer. by rewrite Ha, Hb. }
  rewrite Hc'. split; [done |]. split; [done |].
  intros ch off Hoff. unfold FetchFromRoutingBuffer, isNotAllocated. simpl.
  destruct (0 <? off); [done |].
  destruct ((ch <? 0) || (kRoutingBufferChannels <=? ch)); [done |].
  destruct (replicate _ f32_zero !! _) as [x |] eqn:Hx; [| done].
  apply lookup_replicate in Hx as [-> _]. done.
Qed.

Lemma allocated_buffer_is_silent_witness :
  let c' := AllocateRoutingBuffer 8192 (BGM_Client_new 1 200 true None) in
  isNotAllocated c' = false
  ∧ mRoutingBufferWritePos c' = 0
  ∧ ∀ inChannel inSampleOffset, 0 ≤ inSampleOffset →
      FetchFromRoutingBuffer 8192 inChannel inSampleOffset c' = f32_zero.
Proof.
  apply (allocated_buffer_is_silent 8192 (BGM_Client_new 1 200 true None));
    [lia | rewrite UINT32_MOD_val; reflexivity | reflexivity | reflexivity].
Defined.

(** ** The ring after it has wrapped *)

Section RingWrapped.

Variable F : Z.
Hypothesis F_pos : 0 < F.
Hypothesis F_fits : F * kRoutingBufferChannels < UINT32_MOD.

Lemma store_calls_hold_any pos0 calls : ∀ stream c,
  0 ≤ pos0 ≤ mRoutingBufferWritePos c →
  Forall store_call_ok calls →
  Forall store_call_fits calls →
  mRoutingBufferWritePos c + frames_written calls < UINT64_MOD →
  client_ring F pos0 stream c →
  let c' := store_calls F calls c in
  client_ring F pos0 (stream ++ samples_written calls) c'
  ∧ mRoutingBufferWritePos c'
    = mRoutingBufferWritePos c + frames_written calls.
Proof.
  induction calls as [| call calls IH];
    intros stream c Hpos Hok Hfits Hmax Hc.
  - simpl. rewrite app_nil_r, Z.add_0_r. done.
  - apply Forall_cons in Hok as [Hcall Hok].
    apply Forall_cons in Hfits as [Hfit Hfits].
    pose proof (frames_written_nonneg calls Hok) as Hnn.
    pose proof Hcall as [Hn _].
    simpl in Hmax.
    destruct (store_call_holds F F_pos F_fits pos0 stream c call)
      as [Hc1 Hpos1]; [lia | done | lia | done | done |].
    unfold store_calls, samples_written. simpl.
    fold (store_calls F calls
            (StoreToRoutingBuffer F call.1.1 call.1.2 call.2 c)).
    fold (samples_written calls).
    rewrite app_assoc.
    destruct (IH (stream ++ call.1.1)
                (StoreToRoutingBuffer F call.1.1 call.1.2 call.2 c))
      as [Hc2 Hpos2]; [lia | done | done | lia | done |].
    split; [done |]. simpl in Hpos2. rewrite Hpos2, Hpos1. lia.
Qed.

Lemma fetch_shift c storage inChannel inSampleOffset :
  mRoutingBufferAllocated c = true →
  mRoutingBuffer c = Some storage →
  0 ≤ inChannel < 2 →
  0 ≤ inSampleOffset →
  inSampleOffset + F ≤ mRoutingBufferWritePos c →
  mRoutingBufferWritePos c < UINT64_MOD →
  FetchFromRoutingBuffer F inChannel (inSampleOffset + F) c
  = FetchFromRoutingBuffer F inChannel inSampleOffset c.
Proof.
  intros Ha Hb Hch Hoff Hfar Hmax.
  rewrite !(fetch_allocated F F_pos F_fits c storage) by (try done; lia).
  replace (mRoutingBufferWritePos c - (inSampleOffset + F))
    with (mRoutingBufferWritePos c - inSampleOffset + (-1) * F) by lia.
  rewrite Z.mod_add by lia. reflexivity.
Qed.

End RingWrapped.

(** X3. The ring keeps the last [F] frames also after it has wrapped: after
    any sequence of stores, of any total length [k], on an allocated buffer
    of [F] frames, a fetch at a channel in {0, 1} and a sample offset between
    1 and [min k F] returns the sample that was written at frame position
    [write_pos − sample_offset]. *)
Theorem fetch_after_wrap (F : Z) (c : BGM_Client) (storage : list Float32)
    (calls : list StoreCall) :
  0 < F → F * kRoutingBufferChannels < UINT32_MOD →
  mRoutingBufferAllocated c = true →
  mRoutingBuffer c = Some storage →
  length storage = Z.to_nat (F * kRoutingBufferChannels) →
  0 ≤ mRoutingBufferWritePos c →
  Forall store_call_ok calls →
  Forall store_call_fits calls →
  let k := frames_written calls in
  let c' := store_calls F calls c in
  mRoutingBufferWritePos c + k < UINT64_MOD →
  ∀ inChannel inSampleOffset,
    0 ≤ inChannel < 2 → 1 ≤ inSampleOffset ≤ k → inSampleOffset ≤ F →
    samples_written calls !! Z.to_nat (2 * (k - inSampleOffset) + inChannel)
    = Some (FetchFromRoutingBuffer F inChannel inSampleOffset c').
Proof.
  intros HF HF32 Ha Hb Hlen Hpos Hok Hfits k c' Hmax ch off Hch Hoff HoffF.
  unfold kRoutingBufferChannels in Hlen.
  assert (Hstart : client_ring F (mRoutingBufferWritePos c) [] c).
  { apply (client_ring_start F c storage); [done | done |].
    rewrite Hlen. f_equal. lia. }
  destruct (store_calls_hold_any F HF HF32 (mRoutingBufferWritePos c) calls
              [] c)
    as [(Ha' & storage' & Hb' & Hlen' & Hstream & Hring) Hpos'];
    [lia | done | done | done | done |].
  fold c' in Ha', Hb', Hring, Hpos', Hstream. fold k in Hpos'.
  rewrite app_nil_l in Hring, Hstream.
  rewrite (fetch_allocated F HF HF32 c' storage') by (try done; lia).
  rewrite Hpos' in *.
  replace (mRoutingBufferWritePos c + k - off)
    with (mRoutingBufferWritePos c + (k - off)) by lia.
  rewrite Hring by lia.
  destruct (lookup_lt_is_Some_2 (samples_written calls)
              (Z.to_nat (2 * (k - off) + ch))) as [x Hx]; [lia |].
  rewrite Hx. reflexivity.
Qed.

Lemma fetch_after_wrap_witness :
  let c := AllocateRoutingBuffer 2 (BGM_Client_new 1 200 true None) in
  let calls : list StoreCall :=
    [([f32_of_Z 10; f32_of_Z 20; f32_of_Z 11; f32_of_Z 21], 2, f64_zero);
     ([f32_of_Z 12; f32_of_Z 22], 1, f64_zero)] in
  Forall store_call_ok calls
  ∧ Forall store_call_fits calls
  ∧ Some (f32_of_Z 11)
    = Some (FetchFromRoutingBuffer 2 0 2 (store_calls 2 calls c)).
Proof.
  intros c calls.
  assert (Hok : Forall store_call_ok calls)
    by (repeat constructor; simpl; lia).
  assert (Hfits : Forall store_call_fits calls).
  { repeat constructor; unfold store_call_fits; rewrite UINT32_MOD_val;
      simpl; lia. }
  split; [exact Hok |]. split; [exact Hfits |].
  assert (HF32 : 2 * kRoutingBufferChannels < UINT32_MOD)
    by (rewrite UINT32_MOD_val; reflexivity).
  assert (Hmax : mRoutingBufferWritePos c + frames_written calls < UINT64_MOD)
    by (rewrite UINT64_MOD_val; reflexivity).
  assert (Hoff : 1 ≤ 2 ≤ frames_written calls)
    by (vm_compute; intuition discriminate).
  exact (fetch_after_wrap 2 c (replicate 4 f32_zero) calls
           eq_refl HF32 eq_refl eq_refl eq_refl (Z.le_refl 0) Hok Hfits
           Hmax 0 2 (conj (Z.le_refl 0) eq_refl) Hoff (Z.le_refl 2)).
Defined.

(** X4. [FetchFromRoutingBuffer] does not notice a sample offset beyond the
    capacity of the ring: with [write_pos] at least [sample_offset + F], the
    fetch at offset [sample_offset + F] returns what the fetch at
    [sample_offset] returns, the frame written [F] frames later. *)
Theorem fetch_beyond_capacity_aliases (F : Z) (c : BGM_Client)
    (storage : list Float32) (inChannel inSampleOffset : Z) :
  0 < F → F * kRoutingBufferChannels < UINT32_MOD →
  mRoutingBufferAllocated c = true →
  mRoutingBuffer c = Some storage →
  0 ≤ inChannel < 2 →
  0 ≤ inSampleOffset →
  inSampleOffset + F ≤ mRoutingBufferWritePos c →
  mRoutingBufferWritePos c < UINT64_MOD →
  FetchFromRoutingBuffer F inChannel (inSampleOffset + F) c
  = FetchFromRoutingBuffer F inChannel inSampleOffset c.
Proof. intros HF HF32. by apply fetch_shift. Qed.

Lemma fetch_beyond_capacity_aliases_witness :
  let c :=
    store_calls 2
      [([f32_of_Z 10; f32_of_Z 20; f32_of_Z 11; f32_of_Z 21], 2, f64_zero);
       ([f32_of_Z 12; f32_of_Z 22], 1, f64_zero)]
      (AllocateRoutingBuffer 2 (BGM_Client_new 1 200 true None)) in
  FetchFromRoutingBuffer 2 0 (1 + 2) c = FetchFromRoutingBuffer 2 0 1 c
  ∧ FetchFromRoutingBuffer 2 0 3 c = f32_of_Z 12.
Proof.
  intros c. split; [| reflexivity].
  apply (fetch_beyond_capacity_aliases 2 c
           [f32_of_Z 12; f32_of_Z 22; f32_of_Z 11; f32_of_Z 21] 0 1);
    [lia | rewrite UINT32_MOD_val; reflexivity | reflexivity | reflexivity
    | lia | lia | vm_compute; discriminate
    | rewrite UINT64_MOD_val; reflexivity].
Defined.

(** ** What a store changes *)

Lemma store_loop_positions F inBuffer (k : nat) : ∀ storage pos,
  0 ≤ pos < UINT64_MOD →
  ∃ storage',
    foldl (store_frame F inBuffer) (storage, pos) (seqZ 0 (Z.of_nat k))
    = (storage', u64 (pos + Z.of_nat k))
    ∧ length storage' = length storage.
Proof.
  induction k as [| k IH]; intros storage pos Hpos.
  - exists storage. simpl. by rewrite Z.add_0_r, u64_small.
  - rewrite seqZ_S, foldl_app. cbn [foldl].
    destruct (IH storage pos Hpos) as (storage1 & Hfold & Hlen).
    rewrite Hfold. unfold store_frame. eexists. split.
    + f_equal. unfold u64. rewrite Zplus_mod_idemp_l. f_equal. lia.
    + by rewrite !length_insert.
Qed.

(** X5. On an allocated buffer, [StoreToRoutingBuffer] of [inFrameCount]
    frames advances the write position by [inFrameCount] (modulo 2^64), sets
    the sample time to [inSampleTime + inFrameCount], keeps the size of the
    storage and leaves every other field of the client as it was; with no
    frame it leaves the storage as it was. *)
Theorem store_changes_ring_only (F : Z) (c : BGM_Client)
    (storage inBuffer : list Float32) (inFrameCount : Z)
    (inSampleTime : Float64) :
  mRoutingBufferAllocated c = true →
  mRoutingBuffer c = Some storage →
  0 ≤ mRoutingBufferWritePos c < UINT64_MOD →
  0 ≤ inFrameCount →
  ∃ storage',
    StoreToRoutingBuffer F inBuffer inFrameCount inSampleTime c
    = set_routing (Some storage') true
        (u64 (mRoutingBufferWritePos c + inFrameCount))
        (f64_add inSampleTime (f64_of_Z inFrameCount)) c
    ∧ length storage' = length storage
    ∧ (inFrameCount = 0 → storage' = storage).
Proof.
  intros Ha Hb Hpos Hn.
  unfold StoreToRoutingBuffer, isNotAllocated. rewrite Ha, Hb. simpl.
  destruct (store_loop_positions F inBuffer (Z.to_nat inFrameCount) storage
              (mRoutingBufferWritePos c) Hpos)
    as (storage' & Hfold & Hlen).
  rewrite Z2Nat.id in Hfold by lia. rewrite Hfold.
  exists storage'. split; [done |]. split; [done |].
  intros ->. simpl in Hfold. by injection Hfold as <- _.
Qed.

Lemma store_changes_ring_only_witness :
  let c := AllocateRoutingBuffer 4 (BGM_Client_new 1 200 true None) in
  ∃ storage',
    StoreToRoutingBuffer 4 [f32_one; f32_one] 1 f64_zero c
    = set_routing (Some storage') true (u64 (mRoutingBufferWritePos c + 1))
        (f64_add f64_zero (f64_of_Z 1)) c
    ∧ length storage' = length (replicate 8 f32_zero)
    ∧ (1 = 0 → storage' = replicate 8 f32_zero).
Proof.
  intros c.
  apply (store_changes_ring_only 4 c (replicate 8 f32_zero)
           [f32_one; f32_one] 1 f64_zero);
    [reflexivity | reflexivity
    | rewrite UINT64_MOD_val; split; [discriminate | reflexivity] | lia].
Defined.

Lemma foldl_agree {A B} (f g : A → B → A) (l : list B) : ∀ a,
  Forall (λ b, ∀ a, f a b = g a b) l → foldl f a l = foldl g a l.
Proof.
  induction l as [| b l IH]; intros a Hfg; [done |].
  apply Forall_cons in Hfg as [Hb Hl]. simpl. rewrite Hb. by apply IH.
Qed.

Lemma foldl_fmap_list {A B C} (f : A → B → A) (g : C → B) (l : list C) :
  ∀ a, foldl f a (g <$> l) = foldl (λ a c, f a (g c)) a l.
Proof. induction l as [| c l IH]; intros a; [done |]. simpl. apply IH. Qed.

(** The loop of a store of [n1 + n2] frames is the loop over the first
    [n1] frames followed by the loop over the other [n2]. *)
Lemma store_loop_split F (b1 b2 : list Float32) (n1 n2 : Z) st :
  0 ≤ n1 → 0 ≤ n2 →
  Z.of_nat (length b1) = 2 * n1 →
  2 * (n1 + n2) ≤ UINT32_MOD →
  foldl (store_frame F (b1 ++ b2)) st (seqZ 0 (n1 + n2))
  = foldl (store_frame F b2)
      (foldl (store_frame F b1) st (seqZ 0 n1)) (seqZ 0 n2).
Proof.
  intros Hn1 Hn2 Hlen Hfit.
  rewrite seqZ_app, foldl_app by lia.
  rewrite (foldl_agree (store_frame F (b1 ++ b2)) (store_frame F b1)
             (seqZ 0 n1)).
  2:{ apply Forall_seqZ. intros frame Hframe [storage pos].
      unfold store_frame, read_sample.
      rewrite !(u32_small (frame * 2)), !Z.add_0_r,
        !(u32_small (frame * 2)), !(u32_small (frame * 2 + 1)) by lia.
      rewrite !lookup_app_l by lia. reflexivity. }
  rewrite Z.add_0_l.
  replace (seqZ n1 n2) with (Z.add n1 <$> seqZ 0 n2)
    by (rewrite fmap_add_seqZ; f_equal; lia).
  rewrite foldl_fmap_list.
  apply foldl_agree, Forall_seqZ. intros frame Hframe [storage pos].
  unfold store_frame, read_sample.
  rewrite !(u32_small (frame * 2)), !Z.add_0_r,
    !(u32_small (frame * 2)), !(u32_small (frame * 2 + 1)) by lia.
  rewrite !(u32_small ((n1 + frame) * 2)),
    !(u32_small ((n1 + frame) * 2 + 1)) by lia.
  rewrite !lookup_app_r by lia.
  replace (Z.to_nat ((n1 + frame) * 2) - length b1)%nat
    with (Z.to_nat (frame * 2)) by lia.
  replace (Z.to_nat ((n1 + frame) * 2 + 1) - length b1)%nat
    with (Z.to_nat (frame * 2 + 1)) by lia.
  reflexivity.
Qed.

(** X6. Storing a block in two calls is storing it in one: the storage and
    the write position after a store of the [n1] frames of [b1] followed by a
    store of the [n2] frames of [b2] are those after one store of the
    [n1 + n2] frames of [b1 ++ b2] (the recorded sample times are those of
    the respective last call). *)
Theorem store_in_two_calls (F : Z) (c : BGM_Client) (b1 b2 : list Float32)
    (n1 n2 : Z) (t t1 t2 : Float64) :
  0 ≤ n1 → 0 ≤ n2 →
  Z.of_nat (length b1) = 2 * n1 →
  2 * (n1 + n2) ≤ UINT32_MOD →
  let whole := StoreToRoutingBuffer F (b1 ++ b2) (n1 + n2) t c in
  let parts :=
    StoreToRoutingBuffer F b2 n2 t2 (StoreToRoutingBuffer F b1 n1 t1 c) in
  mRoutingBuffer whole = mRoutingBuffer parts
  ∧ mRoutingBufferWritePos whole = mRoutingBufferWritePos parts
  ∧ set_routing None false 0 f64_zero whole
    = set_routing None false 0 f64_zero parts.
Proof.
  intros Hn1 Hn2 Hlen Hfit. unfold StoreToRoutingBuffer.
  destruct (isNotAllocated c) eqn:Hc; [by rewrite Hc |].
  rewrite (store_loop_split F b1 b2 n1 n2) by done.
  destruct (foldl (store_frame F b1)
              (default [] (mRoutingBuffer c), mRoutingBufferWritePos c)
              (seqZ 0 n1)) as [storage1 pos1] eqn:H1.
  assert (Hc1 : isNotAllocated
                  (set_routing (Some storage1) (mRoutingBufferAllocated c) pos1
                     (f64_add t1 (f64_of_Z n1)) c) = false).
  { unfold isNotAllocated in *. simpl.
    apply orb_false_elim in Hc as [-> _]. done. }
  rewrite Hc1. simpl.
  destruct (foldl (store_frame F b2) (storage1, pos1) (seqZ 0 n2))
    as [storage2 pos2]. done.
Qed.

Lemma store_in_two_calls_witness :
  let c := AllocateRoutingBuffer 4 (BGM_Client_new 1 200 true None) in
  let b1 := [f32_of_Z 10; f32_of_Z 20; f32_of_Z 11; f32_of_Z 21] in
  let b2 := [f32_of_Z 12; f32_of_Z 22] in
  let whole := StoreToRoutingBuffer 4 (b1 ++ b2) (2 + 1) f64_zero c in
  let parts :=
    StoreToRoutingBuffer 4 b2 1 f64_zero
      (StoreToRoutingBuffer 4 b1 2 f64_zero c) in
  mRoutingBuffer whole = mRoutingBuffer parts
  ∧ mRoutingBufferWritePos whole = mRoutingBufferWritePos parts
  ∧ set_routing None false 0 f64_zero whole
    = set_routing None false 0 f64_zero parts.
Proof.
  intros c b1 b2.
  apply (store_in_two_calls 4 c b1 b2 2 1 f64_zero f64_zero f64_zero);
    [lia | lia | reflexivity | rewrite UINT32_MOD_val; lia].
Defined.

(** X7. [Copy] does not copy the routing buffer: the client copied into
    keeps its own ring, so a fetch on it returns what it returned before and
    a store on it is the store on its own ring, while identity and controls
    are those of the copied client; copying a client into itself changes
    nothing. *)
Theorem copy_keeps_own_ring (F : Z) (inClient this : BGM_Client) :
  (∀ inChannel inSampleOffset,
     FetchFromRoutingBuffer F inChannel inSampleOffset (Copy inClient this)
     = FetchFromRoutingBuffer F inChannel inSampleOffset this)
  ∧ (∀ inBuffer inFrameCount inSampleTime,
       StoreToRoutingBuffer F inBuffer inFrameCount inSampleTime
         (Copy inClient this)
       = Copy inClient
           (StoreToRoutingBuffer F inBuffer inFrameCount inSampleTime this))
  ∧ set_routing None false 0 f64_zero (Copy inClient this)
    = set_routing None false 0 f64_zero inClient
  ∧ Copy this this = this.
Proof.
  split; [| split; [| split]].
  - intros ch off. reflexivity.
  - intros inBuffer n t. unfold StoreToRoutingBuffer, isNotAllocated. simpl.
    destruct (negb (mRoutingBufferAllocated this)
              || bool_decide (mRoutingBuffer this = None)); [done |].
    destruct (foldl _ _ _) as [storage pos]. done.
  - reflexivity.
  - by destruct this.
Qed.

(** ** Edges of the routing graph *)

Lemma find_route_matches src dst routes route :
  find_route src dst routes = Some route →
  route_matches src dst route = true.
Proof.
  induction routes as [| r routes IH]; simpl; [done |].
  destruct (route_matches src dst r) eqn:Hr; [by intros [= <-] | done].
Qed.

Lemma find_route_None src dst routes :
  find_route src dst routes = None ↔ (src, dst) ∉ route_endpoints routes.
Proof.
  induction routes as [| r routes IH]; simpl.
  - split; [intros _; apply not_elem_of_nil | done].
  - rewrite not_elem_of_cons. unfold route_matches at 1.
    destruct (Z.eqb_spec (mSourcePID r) src) as [-> | Hs];
      destruct (Z.eqb_spec (mDestPID r) dst) as [-> | Hd]; simpl;
      rewrite ?IH; [split; [done | by intros [? _]] | | |];
      split; try tauto; intros H; (split; [congruence | tauto]).
Qed.

Lemma route_matches_eq src dst route :
  route_matches src dst route = true ↔
  (mSourcePID route, mDestPID route) = (src, dst).
Proof.
  unfold route_matches. rewrite andb_true_iff, !Z.eqb_eq.
  split; [by intros [-> ->] | by intros [= -> ->]].
Qed.

Lemma SetRoute_existing_find src dst gain enabled routes :
  match SetRoute_existing src dst gain enabled routes with
  | Some (routes', _) =>
      is_Some (find_route src dst routes)
      ∧ find_route src dst routes' = Some (mkRoute src dst gain enabled)
      ∧ route_endpoints routes' = route_endpoints routes
      ∧ ∀ src' dst', (src', dst') ≠ (src, dst) →
          find_route src' dst' routes' = find_route src' dst' routes
  | None => find_route src dst routes = None
  end.
Proof.
  induction routes as [| r routes IH]; simpl; [done |].
  destruct (route_matches src dst r) eqn:Hr.
  - pose proof Hr as Heq. apply route_matches_eq in Heq.
    injection Heq as Hs Hd. simpl.
    split; [eauto |]. unfold route_matches at 1. simpl.
    rewrite Hs, Hd, !Z.eqb_refl. simpl.
    split; [done |]. split; [done |].
    intros src' dst' Hne.
    assert (H1 : route_matches src' dst' r = false).
    { apply not_true_iff_false. rewrite route_matches_eq. congruence. }
    assert (H2 : route_matches src' dst' (mkRoute src dst gain enabled)
                 = false).
    { apply not_true_iff_false. rewrite route_matches_eq. simpl. congruence. }
    by rewrite H1, H2.
  - destruct (SetRoute_existing src dst gain enabled routes)
      as [[routes' ch] |]; [| done].
    destruct IH as (Hfound & Hfind & Hends & Hother). simpl. rewrite Hr.
    split; [done |]. split; [done |]. split; [by rewrite Hends |].
    intros src' dst' Hne. by rewrite Hother.
Qed.

Lemma find_route_app_new src dst routes route src' dst' :
  find_route src dst routes = None →
  route_matches src dst route = true →
  find_route src' dst' (routes ++ [route])
  = if decide ((src', dst') = (src, dst)) then Some route
    else find_route src' dst' routes.
Proof.
  intros Hnone Hroute.
  induction routes as [| r routes IH]; simpl in *.
  - case_decide as Heq.
    + injection Heq as -> ->. by rewrite Hroute.
    + destruct (route_matches src' dst' route) eqn:Hr; [| done].
      apply route_matches_eq in Hr, Hroute. congruence.
  - destruct (route_matches src dst r) eqn:Hr; [done |].
    destruct (route_matches src' dst' r) eqn:Hr'.
    + case_decide as Heq; [| done].
      injection Heq as -> ->. congruence.
    + by apply IH.
Qed.

(** X8. What [SetRoute] stores is what the graph then holds: unless the
    edge did not exist and the call was for a disabled edge (then nothing
    changes and the call returns false), the edge from [src] to [dst] has the
    given gain and enabled flag after the call. The edges between other
    pairs of processes are untouched, no edge is removed or moved, and a new
    edge goes to the end of the graph. *)
Theorem SetRoute_then_find
    (alloc : Z → gmap Z BGM_Client → gmap Z BGM_Client)
    (src dst : Z) (gain : Float32) (enabled : bool) (s : BGM_Clients) :
  let r := SetRoute alloc src dst gain enabled s in
  (is_Some (find_route src dst (mRoutes s)) ∨ enabled = true →
   find_route src dst (mRoutes r.1) = Some (mkRoute src dst gain enabled))
  ∧ (find_route src dst (mRoutes s) = None → enabled = false →
     r = (s, false))
  ∧ (∀ src' dst', (src', dst') ≠ (src, dst) →
       find_route src' dst' (mRoutes r.1)
       = find_route src' dst' (mRoutes s))
  ∧ route_endpoints (mRoutes r.1)
    = route_endpoints (mRoutes s)
      ++ (if bool_decide (find_route src dst (mRoutes s) = None) && enabled
          then [(src, dst)] else []).
Proof.
  unfold SetRoute.
  pose proof (SetRoute_existing_find src dst gain enabled (mRoutes s)) as Hex.
  destruct (SetRoute_existing src dst gain enabled (mRoutes s))
    as [[routes' ch] |].
  - destruct Hex as (Hfound & Hfind & Hends & Hother). simpl.
    split; [done |].
    split; [intros Hnone; rewrite Hnone in Hfound; by destruct Hfound |].
    split; [done |].
    rewrite bool_decide_eq_false_2 by (by intros Hn; rewrite Hn in Hfound;
                                       destruct Hfound).
    by rewrite app_nil_r.
  - rewrite Hex. rewrite bool_decide_eq_true_2 by done.
    assert (Hnew : route_matches src dst (mkRoute src dst gain enabled) = true)
      by (apply route_matches_eq; done).
    destruct enabled; simpl.
    + split.
      { intros _. rewrite (find_route_app_new src dst _ _ src dst Hex Hnew).
        by rewrite decide_True. }
      split; [done |]. split.
      { intros src' dst' Hne.
        rewrite (find_route_app_new src dst _ _ src' dst' Hex Hnew).
        by rewrite decide_False. }
      unfold route_endpoints. by rewrite map_app.
    + split; [by intros [[? [=]] | [=]] |].
      split; [done |]. split; [done |]. by rewrite app_nil_r.
Qed.

Lemma SetRoute_then_find_witness :
  let alloc := ClientMap_AllocateRoutingBufferForPID 8 in
  let r := SetRoute alloc 200 201 f32_one false example_routing in
  is_Some (find_route 200 201 (mRoutes example_routing))
  ∧ find_route 200 201 (mRoutes r.1) = Some (mkRoute 200 201 f32_one false)
  ∧ SetRoute alloc 300 301 f32_one false example_routing
    = (example_routing, false).
Proof.
  intros alloc r.
  pose proof (SetRoute_then_find alloc 200 201 f32_one false example_routing)
    as (Hfind & _).
  pose proof (SetRoute_then_find alloc 300 301 f32_one false example_routing)
    as (_ & Hnoop & _).
  assert (Hsome : is_Some (find_route 200 201 (mRoutes example_routing)))
    by (eexists; reflexivity).
  split; [exact Hsome |].
  split; [exact (Hfind (or_introl Hsome)) |].
  exact (Hnoop eq_refl eq_refl).
Defined.

Lemma SetRoutesFromArray_existing_find src dst gain enabled routes :
  match SetRoutesFromArray_existing src dst gain enabled routes with
  | Some (routes', _) =>
      is_Some (find_route src dst routes)
      ∧ route_endpoints routes' = route_endpoints routes
  | None => find_route src dst routes = None
  end.
Proof.
  induction routes as [| r routes IH]; simpl; [done |].
  destruct (route_matches src dst r) eqn:Hr.
  - destruct (f32_ne (mGain r) gain || negb (eqb (mEnabled r) enabled));
      simpl; (split; [eauto | done]).
  - destruct (SetRoutesFromArray_existing src dst gain enabled routes)
      as [[routes' ch] |]; [| done].
    destruct IH as (Hfound & Hends). simpl. split; [done |].
    by rewrite Hends.
Qed.

Lemma endpoints_add_unique src dst gain enabled routes :
  NoDup (route_endpoints routes) →
  find_route src dst routes = None →
  NoDup (route_endpoints (routes ++ [mkRoute src dst gain enabled])).
Proof.
  intros Hnodup Hnone. unfold route_endpoints. rewrite map_app. simpl.
  apply NoDup_app. split; [done |]. split; [| apply NoDup_singleton].
  intros pair Hin ->%list_elem_of_singleton.
  by apply find_route_None in Hnone.
Qed.

Lemma ClearRoutesForClient_loop_filter pid routes :
  ClearRoutesForClient_loop pid routes
  = filter (λ r, mSourcePID r ≠ pid ∧ mDestPID r ≠ pid) routes.
Proof.
  induction routes as [| r routes IH]; [done |]. simpl.
  destruct (Z.eqb_spec (mSourcePID r) pid) as [Hs | Hs];
    destruct (Z.eqb_spec (mDestPID r) pid) as [Hd | Hd]; simpl.
  - rewrite filter_cons_False by tauto. done.
  - rewrite filter_cons_False by tauto. done.
  - rewrite filter_cons_False by tauto. done.
  - rewrite filter_cons_True by tauto. by rewrite IH.
Qed.

Lemma ClearRoutesForClient_loop_sublist pid routes :
  route_endpoints (ClearRoutesForClient_loop pid routes)
  `sublist_of` route_endpoints routes.
Proof.
  induction routes as [| r routes IH]; simpl; [done |].
  destruct ((mSourcePID r =? pid) || (mDestPID r =? pid)).
  - by apply sublist_cons.
  - by apply sublist_skip.
Qed.

Section RoutesUnique.

Variables alloc dealloc : Z → gmap Z BGM_Client → gmap Z BGM_Client.

Lemma SetRoute_unique src dst gain enabled s :
  routes_unique s → routes_unique (SetRoute alloc src dst gain enabled s).1.
Proof.
  unfold routes_unique, SetRoute. intros Hnodup.
  pose proof (SetRoute_existing_find src dst gain enabled (mRoutes s)) as Hex.
  destruct (SetRoute_existing src dst gain enabled (mRoutes s))
    as [[routes' ch] |].
  - destruct Hex as (_ & _ & Hends & _). simpl. by rewrite Hends.
  - destruct enabled; simpl; [| done]. by apply endpoints_add_unique.
Qed.

Lemma SetRoutesFromArray_entry_unique st theRoute :
  routes_unique st.1 →
  routes_unique (SetRoutesFromArray_entry alloc st theRoute).1.
Proof.
  destruct st as [s d]. unfold routes_unique. simpl. intros Hnodup.
  destruct theRoute as [[[src |] [dst |] gain enabled] |]; simpl; try done.
  pose proof (SetRoutesFromArray_existing_find src dst (default f32_one gain)
                (default true enabled) (mRoutes s)) as Hex.
  destruct (SetRoutesFromArray_existing src dst (default f32_one gain)
              (default true enabled) (mRoutes s)) as [[routes' ch] |].
  - destruct Hex as (_ & Hends). simpl. by rewrite Hends.
  - destruct (default true enabled); simpl; [| done].
    by apply endpoints_add_unique.
Qed.

Lemma SetRoutesFromArray_unique inRoutes : ∀ st,
  routes_unique st.1 →
  routes_unique (foldl (SetRoutesFromArray_entry alloc) st inRoutes).1.
Proof.
  induction inRoutes as [| e inRoutes IH]; intros st Hst; [done |].
  simpl. apply IH. by apply SetRoutesFromArray_entry_unique.
Qed.

Lemma ClearRoutesForClient_unique pid s :
  routes_unique s → routes_unique (ClearRoutesForClient dealloc pid s).
Proof.
  unfold routes_unique, ClearRoutesForClient. simpl. intros Hnodup.
  exact (sublist_NoDup _ _ Hnodup
           (ClearRoutesForClient_loop_sublist pid (mRoutes s))).
Qed.

Lemma run_route_calls_unique calls : ∀ s,
  routes_unique s → routes_unique (run_route_calls alloc dealloc calls s).
Proof.
  induction calls as [| call calls IH]; intros s Hs; [done |].
  simpl. apply IH. destruct call; simpl.
  - by apply SetRoute_unique.
  - by apply (SetRoutesFromArray_unique _ (s, false)).
  - by apply ClearRoutesForClient_unique.
Qed.

End RoutesUnique.

(** X9. The graph never holds two edges with the same source and
    destination: a new object has no edge, and [SetRoute],
    [SetRoutesFromArray] and [ClearRoutesForClient], called in any order and
    with any arguments, keep the pairs (source PID, destination PID) of the
    graph distinct. *)
Theorem route_endpoints_stay_unique
    (alloc dealloc : Z → gmap Z BGM_Client → gmap Z BGM_Client)
    (calls : list RouteCall) (s : BGM_Clients) :
  routes_unique BGM_Clients_new
  ∧ (routes_unique s →
     routes_unique (run_route_calls alloc dealloc calls s)).
Proof.
  split; [apply NoDup_nil_2 | apply run_route_calls_unique].
Qed.

Lemma route_endpoints_stay_unique_witness :
  let alloc := ClientMap_AllocateRoutingBufferForPID 8 in
  let calls :=
    [CallSetRoute 202 201 f32_one true;
     CallSetRoutesFromArray
       [Some (mkRouteEntry (Some 200) (Some 201) None None);
        Some (mkRouteEntry (Some 200) (Some 203) None None)];
     CallClearRoutesForClient 202;
     CallSetRoute 200 201 example_half false] in
  routes_unique example_routing
  ∧ routes_unique (run_route_calls alloc (λ _ m, m) calls example_routing)
  ∧ route_endpoints
      (mRoutes (run_route_calls alloc (λ _ m, m) calls example_routing))
    = [(200, 201); (200, 203)].
Proof.
  intros alloc calls.
  assert (Hu : routes_unique example_routing).
  { unfold routes_unique. simpl. apply NoDup_singleton. }
  split; [exact Hu |].
  split; [| reflexivity].
  exact (proj2 (route_endpoints_stay_unique alloc (λ _ m, m) calls
                  example_routing) Hu).
Defined.

(** ** Clearing the routes of a process *)

Lemma ClearRoutesForClient_loop_find pid src dst routes :
  find_route src dst (ClearRoutesForClient_loop pid routes)
  = if (src =? pid) || (dst =? pid) then None
    else find_route src dst routes.
Proof.
  induction routes as [| r routes IH]; simpl.
  - by destruct ((src =? pid) || (dst =? pid)).
  - destruct ((mSourcePID r =? pid) || (mDestPID r =? pid)) eqn:Hr.
    + rewrite IH.
      destruct ((src =? pid) || (dst =? pid)) eqn:Hsd; [done |].
      assert (Hno : route_matches src dst r = false); [| by rewrite Hno].
      unfold route_matches. lia.
    + simpl. rewrite IH.
      destruct (route_matches src dst r) eqn:Hm; [| done].
      assert (Hsd : (src =? pid) || (dst =? pid) = false); [| by rewrite Hsd].
      unfold route_matches in Hm. lia.
Qed.

Lemma ClearRoutesForClient_loop_Forall pid routes :
  Forall (λ r, mSourcePID r ≠ pid ∧ mDestPID r ≠ pid)
    (ClearRoutesForClient_loop pid routes).
Proof.
  rewrite ClearRoutesForClient_loop_filter.
  apply Forall_forall. by intros r [Hr _]%list_elem_of_filter.
Qed.

Lemma ClearRoutesForClient_loop_id pid routes :
  Forall (λ r, mSourcePID r ≠ pid ∧ mDestPID r ≠ pid) routes →
  ClearRoutesForClient_loop pid routes = routes.
Proof.
  induction 1 as [| r routes [Hs Hd] _ IH]; [done |]. simpl.
  rewrite IH.
  assert (Hr : (mSourcePID r =? pid) || (mDestPID r =? pid) = false) by lia.
  by rewrite Hr.
Qed.

Lemma no_incoming_routes pid routes :
  Forall (λ r, mDestPID r ≠ pid) routes →
  existsb (λ route, mEnabled route && (mDestPID route =? pid)) routes = false.
Proof.
  induction 1 as [| r routes Hr _ IH]; [done |]. simpl. rewrite IH.
  assert (Hd : (mDestPID r =? pid) = false) by lia.
  rewrite Hd. by destruct (mEnabled r).
Qed.

Lemma no_outgoing_routes pid routes :
  Forall (λ r, mSourcePID r ≠ pid) routes →
  existsb (λ route, mEnabled route && (mSourcePID route =? pid)) routes
  = false.
Proof.
  induction 1 as [| r routes Hr _ IH]; [done |]. simpl. rewrite IH.
  assert (Hd : (mSourcePID r =? pid) = false) by lia.
  rewrite Hd. by destruct (mEnabled r).
Qed.

Lemma mix_routes_none F m destPID inNumFrames routes : ∀ ioBuffer,
  existsb (λ route, mEnabled route && (mDestPID route =? destPID)) routes
  = false →
  foldl (mix_route F m destPID inNumFrames) ioBuffer routes = ioBuffer.
Proof.
  induction routes as [| r routes IH]; intros ioBuffer; [done |].
  simpl. intros (Hr & Hrest)%orb_false_elim.
  rewrite <- (IH ioBuffer Hrest) at 2. f_equal.
  unfold mix_route. rewrite <- negb_andb. by rewrite Hr.
Qed.

(** X10. Without an enabled route to the process of a client,
    [MixRoutedAudioRT] leaves the IO buffer of that client as it is: when
    [HasIncomingRoutesRT] answers false (also for an unknown client id), the
    mix adds nothing, whatever the buffer, its length and the frame count. *)
Theorem no_incoming_routes_no_mix (F inClientID inNumFrames : Z)
    (ioBuffer : list Float32) (s : BGM_Clients) :
  HasIncomingRoutesRT inClientID s = false →
  MixRoutedAudioRT F inClientID ioBuffer inNumFrames s = ioBuffer.
Proof.
  unfold HasIncomingRoutesRT, MixRoutedAudioRT.
  destruct (GetClientPtrRT inClientID (mClientMap s)) as [destClient |];
    [| done].
  apply mix_routes_none.
Qed.

Lemma no_incoming_routes_no_mix_witness :
  HasIncomingRoutesRT 10 example_routing = false
  ∧ HasIncomingRoutesRT 11 example_routing = true
  ∧ MixRoutedAudioRT 8 10 example_ramp 4 example_routing = example_ramp.
Proof.
  assert (H10 : HasIncomingRoutesRT 10 example_routing = false)
    by (vm_compute; reflexivity).
  split; [exact H10 |]. split; [vm_compute; reflexivity |].
  exact (no_incoming_routes_no_mix 8 10 4 example_ramp example_routing H10).
Defined.

(** X11. [ClearRoutesForClient] takes out of the graph exactly the routes
    from or to the process: afterwards no route with that process as source
    or destination is found, the first route of any other pair is the one
    found before, and clearing again changes no route. For a client of
    that process in the resulting map, [HasIncomingRoutesRT] is false,
    [MixRoutedAudioRT] leaves its buffer as it is and [StoreClientAudioRT]
    stores nothing. *)
Theorem ClearRoutesForClient_removes
    (dealloc : Z → gmap Z BGM_Client → gmap Z BGM_Client)
    (inProcessID : Z) (s : BGM_Clients) :
  let s' := ClearRoutesForClient dealloc inProcessID s in
  (∀ src dst,
     find_route src dst (mRoutes s')
     = if (src =? inProcessID) || (dst =? inProcessID) then None
       else find_route src dst (mRoutes s))
  ∧ mRoutes (ClearRoutesForClient dealloc inProcessID s') = mRoutes s'
  ∧ (∀ id c,
       GetClientPtrRT id (mClientMap s') = Some c →
       mProcessID c = inProcessID →
       HasIncomingRoutesRT id s' = false
       ∧ (∀ F io n, MixRoutedAudioRT F id io n s' = io)
       ∧ (∀ F buf n, StoreClientAudioRT F id buf n s' = s')).
Proof.
  intros s'.
  pose proof (ClearRoutesForClient_loop_Forall inProcessID (mRoutes s))
    as Hall.
  assert (Hroutes : mRoutes s'
                    = ClearRoutesForClient_loop inProcessID (mRoutes s))
    by done.
  split; [| split].
  - intros src dst. rewrite Hroutes. apply ClearRoutesForClient_loop_find.
  - change (ClearRoutesForClient_loop inProcessID (mRoutes s') = mRoutes s').
    rewrite Hroutes. by apply ClearRoutesForClient_loop_id.
  - intros id c Hc Hpid.
    assert (Hin : HasIncomingRoutesRT id s' = false).
    { unfold HasIncomingRoutesRT. rewrite Hc, Hpid, Hroutes.
      apply no_incoming_routes. eapply Forall_impl; [exact Hall |].
      by intros r [_ Hd]. }
    split; [exact Hin |]. split.
    + intros F io n. unfold MixRoutedAudioRT. rewrite Hc.
      apply mix_routes_none. unfold HasIncomingRoutesRT in Hin.
      by rewrite Hc in Hin.
    + intros F buf n. unfold StoreClientAudioRT. rewrite Hc, Hpid, Hroutes.
      rewrite no_outgoing_routes; [done |].
      eapply Forall_impl; [exact Hall |]. by intros r [Hs _].
Qed.

Lemma ClearRoutesForClient_removes_witness :
  let s' := ClearRoutesForClient (λ _ m, m) 201 example_routing in
  mRoutes example_routing = [mkRoute 200 201 example_half true]
  ∧ mRoutes s' = []
  ∧ (mProcessID <$> GetClientPtrRT 11 (mClientMap s')) = Some 201
  ∧ MixRoutedAudioRT 8 11 example_ramp 4 s' = example_ramp.
Proof.
  intros s'.
  split; [reflexivity |]. split; [reflexivity |].
  destruct (GetClientPtrRT 11 (mClientMap s')) as [c |] eqn:Hc;
    [| exfalso; vm_compute in Hc; discriminate Hc].
  assert (Hpid : mProcessID c = 201).
  { vm_compute in Hc. injection Hc as <-. reflexivity. }
  split; [simpl; by rewrite Hpid |].
  exact (proj1 (proj2 (proj2 (proj2
           (ClearRoutesForClient_removes (λ _ m, m) 201 example_routing))
           11 c Hc Hpid)) 8 example_ramp 4).
Defined.

(** ** Saving and restoring the routing graph *)

Lemma f32_ne_self (x : Float32) : f32_ne x x = is_nan x.
Proof.
  destruct (is_nan x) eqn:Hx.
  - by destruct x.
  - by apply f32_ne_refl.
Qed.

Lemma route_eta (r : BGM_AudioRoute) :
  mkRoute (mSourcePID r) (mDestPID r) (mGain r) (mEnabled r) = r.
Proof. by destruct r. Qed.

Lemma SetRoutesFromArray_existing_self r routes :
  NoDup (route_endpoints routes) →
  r ∈ routes →
  SetRoutesFromArray_existing (mSourcePID r) (mDestPID r) (mGain r)
    (mEnabled r) routes
  = Some (routes, is_nan (mGain r)).
Proof.
  induction routes as [| h routes IH]; simpl; [by intros _ ?%elem_of_nil |].
  intros [Hh Hnodup]%NoDup_cons Hin.
  destruct (route_matches (mSourcePID r) (mDestPID r) h) eqn:Hm.
  - assert (Heq : r = h).
    { apply elem_of_cons in Hin as [Heq | Hin]; [done |].
      exfalso. apply Hh. apply route_matches_eq in Hm. rewrite Hm.
      unfold route_endpoints.
      by apply (list_elem_of_fmap_2
                  (λ route, (mSourcePID route, mDestPID route))). }
    subst h. rewrite f32_ne_self, eqb_reflx, orb_false_r.
    destruct (is_nan (mGain r)); [| done]. by rewrite route_eta.
  - apply elem_of_cons in Hin as [-> | Hin].
    + unfold route_matches in Hm. lia.
    + by rewrite IH.
Qed.

Lemma restore_same alloc (s : BGM_Clients) (entries : list BGM_AudioRoute) :
  routes_unique s →
  entries ⊆ mRoutes s →
  ∀ didChange,
    foldl (SetRoutesFromArray_entry alloc) (s, didChange)
      (map route_entry_of entries)
    = (s, didChange || existsb (λ route, is_nan (mGain route)) entries).
Proof.
  intros Hunique. induction entries as [| r entries IH]; intros Hsub d.
  - simpl. by rewrite orb_false_r.
  - simpl.
    rewrite SetRoutesFromArray_existing_self;
      [| done | apply Hsub, elem_of_cons; by left].
    replace (set_mRoutes (mRoutes s) s) with s by by destruct s.
    rewrite IH.
    + by rewrite orb_assoc.
    + intros x Hx. apply Hsub, elem_of_cons. by right.
Qed.

Lemma SetRoutesFromArray_entry_of alloc s didChange r :
  SetRoutesFromArray_entry alloc (s, didChange) (route_entry_of r)
  = match SetRoutesFromArray_existing (mSourcePID r) (mDestPID r) (mGain r)
            (mEnabled r) (mRoutes s) with
    | Some (routes, changed) => (set_mRoutes routes s, didChange || changed)
    | None =>
        if mEnabled r
        then (upd_mClientMap (alloc (mSourcePID r))
                (set_mRoutes (mRoutes s ++ [r]) s), true)
        else (s, didChange)
    end.
Proof. by destruct r. Qed.

Lemma restore_empty alloc (post : list BGM_AudioRoute) : ∀ st,
  NoDup (route_endpoints post) →
  (∀ r, r ∈ post →
        find_route (mSourcePID r) (mDestPID r) (mRoutes st.1) = None) →
  let res :=
    foldl (SetRoutesFromArray_entry alloc) st (map route_entry_of post) in
  mRoutes res.1
  = mRoutes st.1 ++ filter (λ r, mEnabled r = true) post
  ∧ res.2 = st.2 || existsb mEnabled post.
Proof.
  induction post as [| r post IH]; intros [s d] Hnodup Hnone.
  - simpl. by rewrite app_nil_r, orb_false_r.
  - apply NoDup_cons in Hnodup as [Hr Hnodup].
    cbn [map foldl]. rewrite SetRoutesFromArray_entry_of.
    pose proof (SetRoutesFromArray_existing_find (mSourcePID r) (mDestPID r)
                  (mGain r) (mEnabled r) (mRoutes s)) as Hex.
    destruct (SetRoutesFromArray_existing (mSourcePID r) (mDestPID r)
                (mGain r) (mEnabled r) (mRoutes s)) as [[routes' ch] |].
    { destruct Hex as [[x Hx] _].
      assert (Hr0 : find_route (mSourcePID r) (mDestPID r) (mRoutes s) = None)
        by (apply (Hnone r), elem_of_cons; by left).
      by rewrite Hr0 in Hx. }
    destruct (mEnabled r) eqn:Hen.
    + edestruct (IH (upd_mClientMap (alloc (mSourcePID r))
                       (set_mRoutes (mRoutes s ++ [r]) s), true))
        as [Hroutes Hflag]; [done | | ].
      * intros r' Hr'. simpl. apply find_route_None.
        unfold route_endpoints. rewrite map_app. simpl.
        apply not_elem_of_app. split.
        -- apply find_route_None, (Hnone r'), elem_of_cons. by right.
        -- intros Heq%list_elem_of_singleton. apply Hr. rewrite <- Heq.
           by apply (list_elem_of_fmap_2
                       (λ route, (mSourcePID route, mDestPID route))).
      * cbv zeta. rewrite Hroutes, Hflag. simpl.
        rewrite filter_cons_True by done.
        rewrite <- app_assoc. simpl. rewrite Hen. by rewrite orb_true_r.
    + edestruct (IH (s, d)) as [Hroutes Hflag]; [done | | ].
      * intros r' Hr'. apply (Hnone r'), elem_of_cons. by right.
      * cbv zeta. rewrite Hroutes, Hflag. simpl.
        rewrite filter_cons_False by (rewrite Hen; done).
        by rewrite Hen.
Qed.

(** X12. Restoring the array of [CopyRoutesAsArray] on the object it was
    copied from changes nothing: when no two routes of the graph have the
    same source and destination, [SetRoutesFromArray] leaves the whole
    object as it is; it reports a change exactly when the gain of some
    route is a NaN (the gain then compares different from itself). *)
Theorem copy_then_restore_same
    (alloc : Z → gmap Z BGM_Client → gmap Z BGM_Client) (s : BGM_Clients) :
  routes_unique s →
  SetRoutesFromArray alloc (CopyRoutesAsArray s) s
  = (s, existsb (λ route, is_nan (mGain route)) (mRoutes s)).
Proof.
  intros Hunique. unfold SetRoutesFromArray, CopyRoutesAsArray.
  by rewrite (restore_same alloc s (mRoutes s) Hunique).
Qed.

Lemma copy_then_restore_same_witness :
  let alloc := ClientMap_AllocateRoutingBufferForPID 8 in
  routes_unique example_routing
  ∧ SetRoutesFromArray alloc (CopyRoutesAsArray example_routing)
      example_routing
    = (example_routing, false).
Proof.
  intros alloc.
  assert (Hu : routes_unique example_routing).
  { unfold routes_unique. simpl. apply NoDup_singleton. }
  split; [exact Hu |].
  exact (copy_then_restore_same alloc example_routing Hu).
Defined.

(** X13. Restoring the array of [CopyRoutesAsArray] on an object whose
    graph is empty rebuilds the enabled routes only: when no two routes of
    the copied graph have the same source and destination, the graph after
    [SetRoutesFromArray] holds the enabled routes of the copied graph, in
    their order, and no disabled one; a change is reported exactly when
    some route was enabled. *)
Theorem copy_then_restore_empty
    (alloc : Z → gmap Z BGM_Client → gmap Z BGM_Client)
    (s t : BGM_Clients) :
  routes_unique s →
  mRoutes t = [] →
  let res := SetRoutesFromArray alloc (CopyRoutesAsArray s) t in
  mRoutes res.1 = filter (λ r, mEnabled r = true) (mRoutes s)
  ∧ res.2 = existsb mEnabled (mRoutes s).
Proof.
  intros Hunique Hempty.
  destruct (restore_empty alloc (mRoutes s) (t, false) Hunique)
    as [Hroutes Hflag].
  - intros r _. simpl. by rewrite Hempty.
  - simpl in Hroutes, Hflag. rewrite Hempty in Hroutes. done.
Qed.

Lemma copy_then_restore_empty_witness :
  let alloc := ClientMap_AllocateRoutingBufferForPID 8 in
  let s := (SetRoute alloc 200 201 f32_one false
              (SetRoute alloc 201 200 example_half true BGM_Clients_new).1).1 in
  let s := (SetRoute alloc 201 200 example_half false s).1 in
  let res := SetRoutesFromArray alloc (CopyRoutesAsArray s) BGM_Clients_new in
  mRoutes s = [mkRoute 201 200 example_half false]
  ∧ mRoutes res.1 = []
  ∧ res.2 = false.
Proof.
  intros alloc s0 s res.
  assert (Hu : routes_unique s).
  { unfold routes_unique. simpl. apply NoDup_singleton. }
  split; [reflexivity |].
  exact (copy_then_restore_empty alloc s BGM_Clients_new Hu eq_refl).
Defined.

(** ** IO that starts and stops *)

Lemma stop_after_start_map id c (m : gmap Z BGM_Client) :
  m !! id = Some c → mDoingIO c = false →
  ClientMap_StopIONonRT id (ClientMap_StartIONonRT id m) = m.
Proof.
  intros Hc Hio. unfold ClientMap_StopIONonRT, ClientMap_StartIONonRT.
  apply map_eq. intros k.
  destruct (decide (id = k)) as [<- | Hne].
  - rewrite !lookup_alter_eq, Hc. simpl. f_equal.
    destruct c. simpl in *. by subst.
  - by rewrite !lookup_alter_ne.
Qed.

(** X14. Starting and then stopping the IO of a client restores the object:
    from an object whose counters count the clients doing IO, for a client
    that is not doing IO, [StartIONonRT] returns, [StopIONonRT] then returns
    the same value and the same notification flags, and the object is again
    the one before the two calls. *)
Theorem start_then_stop_restores (s : BGM_Clients) (inClientID : Z)
    (theClient : BGM_Client) :
  io_counts_ok s →
  mClientMap s !! inClientID = Some theClient →
  mDoingIO theClient = false →
  ∃ s1 r,
    StartIONonRT inClientID s = (s1, Returned r)
    ∧ StopIONonRT inClientID s1 = (s, Returned r).
Proof.
  intros Hok Hc Hio. pose proof (io_counts_bounds s Hok) as Hb.
  assert (Hinc : ∀ n, 0 ≤ n ≤ UINT32_MOD →
                  u64 (n + 1) = n + 1 ∧ u64 (n + 1 - 1) = n).
  { intros n Hn. rewrite !u64_small; [lia | |];
      rewrite UINT32_MOD_val, UINT64_MOD_val in *; lia. }
  destruct (Hinc (mStartCount s)) as [Hs1 Hs2]; [lia |].
  destruct (Hinc (mStartCountExcludingBGMApp s)) as [He1 He2]; [lia |].
  rewrite StartIONonRT_unfold, Hc, Hio.
  destruct (Z.eqb_spec (mStartCount s) UINT64_MAX) as [Hmax | _].
  { rewrite UINT32_MOD_val, UINT64_MAX_val in *. lia. }
  destruct (Z.eqb_spec (mStartCountExcludingBGMApp s) UINT64_MAX)
    as [Hmax | _].
  { rewrite UINT32_MOD_val, UINT64_MAX_val in *. lia. }
  cbv zeta.
  assert (Hmap : ClientMap_StartIONonRT inClientID (mClientMap s)
                 !! inClientID = Some (set_mDoingIO true theClient)).
  { unfold ClientMap_StartIONonRT. by rewrite lookup_alter_eq, Hc. }
  pose proof (stop_after_start_map inClientID theClient (mClientMap s) Hc Hio)
    as Hback.
  destruct (inClientID =? mBGMAppClientID s) eqn:Happ.
  - eexists _, _. split; [reflexivity |].
    rewrite StopIONonRT_unfold. simpl. rewrite Hmap. simpl.
    rewrite Happ, Hs1.
    destruct (Z.leb_spec (mStartCount s + 1) 0); [lia |].
    rewrite Hs2.
    replace (mStartCount s + 1 =? 1) with (mStartCount s =? 0) by lia.
    f_equal. destruct s as [m sc se app pp bp rs].
    unfold upd_mStartCount, upd_mClientMap. cbn in *.
    by rewrite Hback, Hs1, Hs2.
  - eexists _, _. split; [reflexivity |].
    rewrite StopIONonRT_unfold. simpl. rewrite Hmap. simpl.
    rewrite Happ, Hs1, He1.
    destruct (Z.leb_spec (mStartCount s + 1) 0); [lia |].
    destruct (Z.leb_spec (mStartCountExcludingBGMApp s + 1) 0); [lia |].
    rewrite Hs2, He2.
    replace (mStartCount s + 1 =? 1) with (mStartCount s =? 0) by lia.
    replace (mStartCountExcludingBGMApp s + 1 =? 1)
      with (mStartCountExcludingBGMApp s =? 0) by lia.
    f_equal. destruct s as [m sc se app pp bp rs].
    unfold upd_mStartCount, upd_mStartCountExcludingBGMApp, upd_mClientMap.
    cbn in *. by rewrite Hback, Hs1, Hs2, He1, He2.
Qed.

Lemma start_then_stop_restores_witness :
  ∃ s1 r,
    StartIONonRT 1 example_clients = (s1, Returned r)
    ∧ StopIONonRT 1 s1 = (example_clients, Returned r).
Proof.
  apply (start_then_stop_restores example_clients 1
           (set_mIsMusicPlayer false
              (BGM_Client_new 1 100 true (Some "com.apple.Music")))
           example_clients_counts_ok).
  - vm_compute. reflexivity.
  - reflexivity.
Defined.

Lemma count_doing_io_pos sel (m : gmap Z BGM_Client) :
  0 < count_doing_io sel m
  ↔ ∃ id c, m !! id = Some c ∧ mDoingIO c = true ∧ sel id = true.
Proof.
  unfold count_doing_io.
  set (counted := filter (λ kc : Z * BGM_Client,
                            mDoingIO kc.2 = true ∧ sel kc.1 = true) m).
  assert (Hsize : 0 < Z.of_nat (size counted) ↔ size counted ≠ 0%nat) by lia.
  rewrite Hsize, map_size_ne_0_lookup. unfold counted. split.
  - intros (id & c & Hc). apply map_lookup_filter_Some in Hc.
    exists id, c. tauto.
  - intros (id & c & Hc & Hio & Hsel). exists id, c.
    by apply map_lookup_filter_Some.
Qed.

(** X15. The device is reported as running exactly when a client is doing
    IO: on an object whose counters count the clients doing IO,
    [ClientsRunningIO] is true if and only if some client of the map has
    [mDoingIO] set, and [ClientsOtherThanBGMAppRunningIO] if and only if some
    client other than BGMApp has. Every sequence of [StartIONonRT] and
    [StopIONonRT] calls leads to such an object again. *)
Theorem running_iff_client_doing_io (s : BGM_Clients) (calls : list IOCall) :
  io_counts_ok s →
  let s' := run_io_calls calls s in
  (ClientsRunningIO s' = true
   ↔ ∃ id c, mClientMap s' !! id = Some c ∧ mDoingIO c = true)
  ∧ (ClientsOtherThanBGMAppRunningIO s' = true
     ↔ ∃ id c, mClientMap s' !! id = Some c ∧ mDoingIO c = true
               ∧ IsBGMApp id s' = false).
Proof.
  intros Hok s'.
  assert (Hok' : io_counts_ok s') by (by apply run_io_calls_keep_counts).
  destruct Hok' as [Hstart Hexcl _].
  unfold ClientsRunningIO, ClientsOtherThanBGMAppRunningIO, IsBGMApp.
  rewrite Hstart, Hexcl, !Z.ltb_lt, !count_doing_io_pos. split.
  - split; intros (id & c & H); exists id, c; tauto.
  - split; intros (id & c & Hc & Hio & Hsel); exists id, c;
      (split; [done |]); (split; [done |]);
      by destruct (id =? mBGMAppClientID s').
Qed.

Lemma running_iff_client_doing_io_witness :
  let s' := run_io_calls [CallStartIO 3; CallStartIO 9; CallStopIO 1]
              example_clients in
  ClientsRunningIO s' = true
  ∧ ClientsOtherThanBGMAppRunningIO s' = false
  ∧ (∃ id c, mClientMap s' !! id = Some c ∧ mDoingIO c = true)
  ∧ ¬ (∃ id c, mClientMap s' !! id = Some c ∧ mDoingIO c = true
               ∧ IsBGMApp id s' = false).
Proof.
  intros s'.
  destruct (running_iff_client_doing_io example_clients
              [CallStartIO 3; CallStartIO 9; CallStopIO 1]
              example_clients_counts_ok) as [Hall Hothers].
  fold s' in Hall, Hothers.
  assert (Hrun : ClientsRunningIO s' = true) by (vm_compute; reflexivity).
  assert (Hnone : ClientsOtherThanBGMAppRunningIO s' = false)
    by (vm_compute; reflexivity).
  split; [exact Hrun |]. split; [exact Hnone |]. split.
  - exact (proj1 Hall Hrun).
  - intros Hex. apply Hothers in Hex. congruence.
Defined.

(** X16. [StartIONonRT] and [StopIONonRT] flag a notification exactly when
    the answer of the matching query changes: on an object whose counters
    count the clients doing IO, a call that returns flags
    [kAudioDevicePropertyDeviceIsRunning] if and only if [ClientsRunningIO]
    differs before and after the call, flags the running-somewhere-else
    property if and only if [ClientsOtherThanBGMAppRunningIO] differs, and
    returns the first flag; nothing is dispatched when neither changed. *)
Theorem notifications_follow_transitions (s s' : BGM_Clients)
    (call : IOCall) (r : IOResult) :
  io_counts_ok s →
  match call with
  | CallStartIO inClientID => StartIONonRT inClientID s
  | CallStopIO inClientID => StopIONonRT inClientID s
  end = (s', Returned r) →
  sendIsRunningNotification r
  = xorb (ClientsRunningIO s) (ClientsRunningIO s')
  ∧ sendIsRunningSomewhereOtherThanBGMAppNotification r
    = xorb (ClientsOtherThanBGMAppRunningIO s)
        (ClientsOtherThanBGMAppRunningIO s')
  ∧ didChangeIO r = sendIsRunningNotification r
  ∧ (notifications_of r = None
     ↔ ClientsRunningIO s' = ClientsRunningIO s
       ∧ ClientsOtherThanBGMAppRunningIO s'
         = ClientsOtherThanBGMAppRunningIO s).
Proof.
  intros Hok Hcall. pose proof (io_counts_bounds s Hok) as Hb.
  assert (Hsmall : ∀ n, 0 ≤ n ≤ UINT32_MOD + 1 → u64 n = n).
  { intros n Hn. apply u64_small.
    rewrite UINT32_MOD_val, UINT64_MOD_val in *. lia. }
  assert (Hflags :
    sendIsRunningNotification r
    = xorb (ClientsRunningIO s) (ClientsRunningIO s')
    ∧ sendIsRunningSomewhereOtherThanBGMAppNotification r
      = xorb (ClientsOtherThanBGMAppRunningIO s)
          (ClientsOtherThanBGMAppRunningIO s')
    ∧ didChangeIO r = sendIsRunningNotification r).
  { unfold ClientsRunningIO, ClientsOtherThanBGMAppRunningIO.
    destruct call as [inClientID | inClientID].
    - rewrite StartIONonRT_unfold in Hcall.
      destruct (mClientMap s !! inClientID) as [c |]; [| done].
      destruct (mDoingIO c).
      { injection Hcall as <- <-. simpl. by rewrite !xorb_nilpotent. }
      destruct (mStartCount s =? UINT64_MAX); [done |]. cbv zeta in Hcall.
      destruct (inClientID =? mBGMAppClientID s).
      + injection Hcall as <- <-. simpl.
        rewrite Hsmall by lia. rewrite xorb_nilpotent.
        split; [| done].
        destruct (Z.ltb_spec 0 (mStartCount s));
          destruct (Z.ltb_spec 0 (mStartCount s + 1));
          destruct (Z.eqb_spec (mStartCount s + 1) 1); simpl; lia || done.
      + destruct (mStartCountExcludingBGMApp s =? UINT64_MAX); [done |].
        injection Hcall as <- <-. simpl.
        rewrite !Hsmall by lia.
        split; [| split; [| done]].
        * destruct (Z.ltb_spec 0 (mStartCount s));
            destruct (Z.ltb_spec 0 (mStartCount s + 1));
            destruct (Z.eqb_spec (mStartCount s + 1) 1); simpl; lia || done.
        * destruct (Z.ltb_spec 0 (mStartCountExcludingBGMApp s));
            destruct (Z.ltb_spec 0 (mStartCountExcludingBGMApp s + 1));
            destruct (Z.eqb_spec (mStartCountExcludingBGMApp s + 1) 1);
            simpl; lia || done.
    - rewrite StopIONonRT_unfold in Hcall.
      destruct (mClientMap s !! inClientID) as [c |]; [| done].
      destruct (mDoingIO c).
      2: { injection Hcall as <- <-. simpl. by rewrite !xorb_nilpotent. }
      cbv zeta in Hcall.
      destruct (Z.leb_spec (mStartCount s) 0); [done |].
      destruct (inClientID =? mBGMAppClientID s).
      + injection Hcall as <- <-. simpl.
        rewrite Hsmall by lia. rewrite xorb_nilpotent.
        split; [| done].
        destruct (Z.ltb_spec 0 (mStartCount s));
          destruct (Z.ltb_spec 0 (mStartCount s - 1));
          destruct (Z.eqb_spec (mStartCount s - 1) 0); simpl; lia || done.
      + destruct (Z.leb_spec (mStartCountExcludingBGMApp s) 0); [done |].
        injection Hcall as <- <-. simpl.
        rewrite !Hsmall by lia.
        split; [| split; [| done]].
        * destruct (Z.ltb_spec 0 (mStartCount s));
            destruct (Z.ltb_spec 0 (mStartCount s - 1));
            destruct (Z.eqb_spec (mStartCount s - 1) 0); simpl; lia || done.
        * destruct (Z.ltb_spec 0 (mStartCountExcludingBGMApp s));
            destruct (Z.ltb_spec 0 (mStartCountExcludingBGMApp s - 1));
            destruct (Z.eqb_spec (mStartCountExcludingBGMApp s - 1) 0);
            simpl; lia || done. }
  destruct Hflags as (Hrun & Hother & Hret).
  split; [done |]. split; [done |]. split; [done |].
  unfold notifications_of, SendIORunningNotifications.
  rewrite Hrun, Hother.
  destruct (ClientsRunningIO s), (ClientsRunningIO s'),
    (ClientsOtherThanBGMAppRunningIO s),
    (ClientsOtherThanBGMAppRunningIO s'); simpl; intuition congruence.
Qed.

Lemma notifications_follow_transitions_witness :
  ∃ s' r,
    StartIONonRT 3 example_clients = (s', Returned r)
    ∧ ClientsRunningIO example_clients = false
    ∧ ClientsRunningIO s' = true
    ∧ ClientsOtherThanBGMAppRunningIO s' = false
    ∧ notifications_of r = Some [kAudioDevicePropertyDeviceIsRunning]
    ∧ sendIsRunningNotification r
      = xorb (ClientsRunningIO example_clients) (ClientsRunningIO s').
Proof.
  destruct (StartIONonRT 3 example_clients) as [s' [r | e]] eqn:Hcall;
    [| exfalso; vm_compute in Hcall; discriminate Hcall].
  exists s', r. split; [reflexivity |].
  pose proof (notifications_follow_transitions example_clients s'
                (CallStartIO 3) r example_clients_counts_ok Hcall)
    as (Hrun & _).
  assert (Hs' : ClientsRunningIO s' = true
                ∧ ClientsOtherThanBGMAppRunningIO s' = false
                ∧ notifications_of r
                  = Some [kAudioDevicePropertyDeviceIsRunning]).
  { vm_compute in Hcall. injection Hcall as <- <-.
    repeat split; reflexivity. }
  destruct Hs' as (H1 & H2 & H3).
  split; [vm_compute; reflexivity |]. split; [exact H1 |].
  split; [exact H2 |]. split; [exact H3 | exact Hrun].
Defined.

(** ** From the source of a route to its destination *)

Lemma StoreToRoutingBuffer_pid F inBuffer n t c :
  mProcessID (StoreToRoutingBuffer F inBuffer n t c) = mProcessID c.
Proof.
  unfold StoreToRoutingBuffer. destruct (isNotAllocated c); [done |].
  by destruct (foldl _ _ _).
Qed.

Lemma store_fetch_last F c storage inBuffer n t :
  0 < F → F * kRoutingBufferChannels < UINT32_MOD →
  mRoutingBufferAllocated c = true →
  mRoutingBuffer c = Some storage →
  length storage = Z.to_nat (F * kRoutingBufferChannels) →
  0 ≤ mRoutingBufferWritePos c →
  mRoutingBufferWritePos c + n < UINT64_MOD →
  0 ≤ n → 2 * n ≤ UINT32_MOD →
  Z.of_nat (length inBuffer) = 2 * n →
  ∀ ch off, 0 ≤ ch < 2 → 1 ≤ off ≤ n → off ≤ F →
    FetchFromRoutingBuffer F ch off (StoreToRoutingBuffer F inBuffer n t c)
    = read_sample inBuffer (2 * (n - off) + ch).
Proof.
  intros HF HF32 Ha Hb Hlen Hpos Hmax Hn Hn32 Hbuf ch off Hch Hoff HoffF.
  unfold kRoutingBufferChannels in Hlen.
  assert (Hstart : client_ring F (mRoutingBufferWritePos c) [] c).
  { apply (client_ring_start F c storage); [done | done |].
    rewrite Hlen. f_equal. lia. }
  destruct (store_call_holds F HF HF32 (mRoutingBufferWritePos c) [] c
              (inBuffer, n, t))
    as [(Ha' & storage' & Hb' & Hlen' & Hstream & Hring) Hpos'];
    [lia | done | simpl; lia | simpl; lia | done |].
  simpl in Ha', Hb', Hring, Hpos', Hstream.
  rewrite (fetch_allocated F HF HF32 _ storage') by (try done; lia).
  rewrite Hpos' in *.
  replace (mRoutingBufferWritePos c + n - off)
    with (mRoutingBufferWritePos c + (n - off)) by lia.
  rewrite Hring by lia. reflexivity.
Qed.

Lemma GetClientByPIDRT_only pid id c (m : gmap Z BGM_Client) :
  m !! id = Some c →
  mProcessID c = pid →
  (∀ k c', m !! k = Some c' → mProcessID c' = pid → k = id) →
  GetClientByPIDRT pid m = Some c.
Proof.
  intros Hc Hpid Honly. unfold GetClientByPIDRT.
  destruct (list_find _ (map_to_list m)) as [[i [k c']] |] eqn:Hfind.
  - apply list_find_Some in Hfind as (Hi & Hp & _). simpl in Hp.
    apply list_elem_of_lookup_2, elem_of_map_to_list in Hi.
    rewrite (Honly k c' Hi Hp) in Hi. simpl. congruence.
  - apply list_find_None in Hfind.
    apply elem_of_map_to_list in Hc.
    by destruct (proj1 (Forall_forall _ _) Hfind _ Hc).
Qed.

Lemma foldl_filter_skip {A B} (f : A → B → A) (P : B → Prop)
    `{!∀ b, Decision (P b)} (l : list B) : ∀ a,
  (∀ a b, ¬ P b → f a b = a) →
  foldl f a l = foldl f a (filter P l).
Proof.
  induction l as [| b l IH]; intros a Hskip; [done |].
  destruct (decide (P b)) as [Hb | Hb].
  - rewrite filter_cons_True by done. simpl. by apply IH.
  - rewrite filter_cons_False by done. simpl. rewrite Hskip by done.
    by apply IH.
Qed.

(** X17. What the source of a route stores, its destination gets: let the
    process of client [sourceID] have no other client, its routing buffer
    be allocated with [F] frames, and the only enabled route to the process
    of client [destID] come from it, with gain [gain]. After
    [StoreClientAudioRT] stored [n ≤ F] frames for the source,
    [MixRoutedAudioRT] of [n] frames for the destination adds to every
    sample of the IO buffer the sample the source stored at the same index,
    times the gain. *)
Theorem stored_audio_reaches_destination (F : Z) (s : BGM_Clients)
    (sourceID destID : Z) (sourceClient destClient : BGM_Client)
    (storage inBuffer ioBuffer : list Float32) (gain : Float32) (n : Z) :
  0 < F → F * kRoutingBufferChannels < UINT32_MOD →
  mClientMap s !! sourceID = Some sourceClient →
  mClientMap s !! destID = Some destClient →
  (∀ id c, mClientMap s !! id = Some c →
           mProcessID c = mProcessID sourceClient → id = sourceID) →
  filter (λ route, mEnabled route = true
                   ∧ mDestPID route = mProcessID destClient) (mRoutes s)
  = [mkRoute (mProcessID sourceClient) (mProcessID destClient) gain true] →
  mRoutingBufferAllocated sourceClient = true →
  mRoutingBuffer sourceClient = Some storage →
  length storage = Z.to_nat (F * kRoutingBufferChannels) →
  0 ≤ mRoutingBufferWritePos sourceClient →
  mRoutingBufferWritePos sourceClient + n < UINT64_MOD →
  0 ≤ n ≤ F →
  Z.of_nat (length inBuffer) = 2 * n →
  2 * n ≤ Z.of_nat (length ioBuffer) →
  let s' := StoreClientAudioRT F sourceID inBuffer n s in
  let io' := MixRoutedAudioRT F destID ioBuffer n s' in
  length io' = length ioBuffer
  ∧ ∀ j : nat, Z.of_nat j < 2 * n →
      io' !! j
      = Some (f32_add (read_sample ioBuffer (Z.of_nat j))
                (f32_mul (read_sample inBuffer (Z.of_nat j)) gain)).
Proof.
  intros HF HF32 Hsrc Hdst Honly Hroutes Ha Hb Hlen Hpos Hmax Hn Hin Hio
    s' io'.
  assert (Hn32 : 2 * n ≤ UINT32_MOD)
    by (unfold kRoutingBufferChannels in HF32; lia).
  set (route := mkRoute (mProcessID sourceClient) (mProcessID destClient)
                  gain true) in *.
  set (stored := StoreToRoutingBuffer F inBuffer n f64_zero sourceClient).
  assert (Hroute : route ∈ mRoutes s).
  { eapply (list_elem_of_filter _ _ route). rewrite Hroutes.
    apply list_elem_of_singleton. done. }
  assert (Hs' : s' = upd_mClientMap
                       (alter (StoreToRoutingBuffer F inBuffer n f64_zero)
                          sourceID) s).
  { unfold s', StoreClientAudioRT, GetClientPtrRT. rewrite Hsrc.
    assert (Hex : existsb (λ r, mEnabled r
                              && (mSourcePID r =? mProcessID sourceClient))
                    (mRoutes s) = true); [| by rewrite Hex].
    apply existsb_exists. exists route. split.
    - by apply list_elem_of_In.
    - simpl. lia. }
  assert (Hsrc' : mClientMap s' !! sourceID = Some stored).
  { rewrite Hs'. simpl. by rewrite lookup_alter_eq, Hsrc. }
  assert (Hdst' : ∃ destClient', mClientMap s' !! destID = Some destClient'
                    ∧ mProcessID destClient' = mProcessID destClient).
  { destruct (decide (sourceID = destID)) as [<- | Hne].
    - exists stored. split; [done |].
      unfold stored. rewrite StoreToRoutingBuffer_pid. congruence.
    - exists destClient. split; [| done].
      rewrite Hs'. simpl. by rewrite lookup_alter_ne. }
  destruct Hdst' as (destClient' & Hdst' & Hpid').
  assert (Honly' : GetClientByPIDRT (mProcessID sourceClient) (mClientMap s')
                   = Some stored).
  { apply (GetClientByPIDRT_only _ sourceID); [done | |].
    - apply StoreToRoutingBuffer_pid.
    - intros k c' Hk Hp. rewrite Hs' in Hk. simpl in Hk.
      destruct (decide (sourceID = k)) as [<- | Hne]; [done |].
      rewrite lookup_alter_ne in Hk by done. by apply (Honly k c'). }
  assert (Hroutes' : mRoutes s' = mRoutes s) by (by rewrite Hs').
  assert (Hmix : io' = foldl (mix_route F (mClientMap s')
                                (mProcessID destClient) n)
                         ioBuffer (mRoutes s)).
  { unfold io', MixRoutedAudioRT, GetClientPtrRT.
    by rewrite Hdst', Hpid', Hroutes'. }
  destruct (mix_routes_lookup F (mClientMap s') (mProcessID destClient) n
              (proj1 Hn) Hn32 (mRoutes s) ioBuffer Hio)
    as (Hlen' & Hmixed & _).
  rewrite <- Hmix in Hlen', Hmixed.
  split; [done |]. intros j Hj. rewrite Hmixed by done. f_equal.
  rewrite (foldl_filter_skip _
             (λ route, mEnabled route = true
                       ∧ mDestPID route = mProcessID destClient)).
  2: { intros a b Hb'. unfold add_routed_sample, route_source.
       destruct (mEnabled b) eqn:Hen; [| done].
       destruct (Z.eqb_spec (mDestPID b) (mProcessID destClient)); [| done].
       tauto. }
  rewrite Hroutes. simpl.
  unfold add_routed_sample, route_source. simpl.
  rewrite Z.eqb_refl, Honly'. do 2 f_equal.
  assert (Hj0 : 0 ≤ Z.of_nat j) by lia.
  pose proof (Z.mod_pos_bound (Z.of_nat j) 2 ltac:(lia)) as Hmod.
  pose proof (Z.div_mod (Z.of_nat j) 2 ltac:(lia)) as Hdiv.
  unfold stored.
  rewrite (store_fetch_last F sourceClient storage inBuffer n f64_zero)
    by (try done; lia).
  f_equal. lia.
Qed.

Lemma stored_audio_reaches_destination_witness :
  let s := (SetRoute (ClientMap_AllocateRoutingBufferForPID 8) 200 201
              example_half true
              (AddClient example_kBGMAppBundleID
                 (BGM_Client_new 11 201 true None)
                 (AddClient example_kBGMAppBundleID
                    (BGM_Client_new 10 200 true None) BGM_Clients_new))).1 in
  let io := replicate 8 f32_one in
  let io' := MixRoutedAudioRT 8 11 io 4
               (StoreClientAudioRT 8 10 example_ramp 4 s) in
  length io' = 8%nat
  ∧ io' !! 4%nat
    = Some (f32_add f32_one (f32_mul (f32_of_Z 2) example_half)).
Proof.
  intros s io io'.
  destruct (mClientMap s !! 10) as [sourceClient |] eqn:Hsrc;
    [| exfalso; vm_compute in Hsrc; discriminate Hsrc].
  destruct (mClientMap s !! 11) as [destClient |] eqn:Hdst;
    [| exfalso; vm_compute in Hdst; discriminate Hdst].
  assert (Hsource : sourceClient
                    = AllocateRoutingBuffer 8
                        (BGM_Client_new 10 200 true None)).
  { vm_compute in Hsrc. injection Hsrc as <-. reflexivity. }
  assert (Hdest : destClient = BGM_Client_new 11 201 true None).
  { vm_compute in Hdst. injection Hdst as <-. reflexivity. }
  assert (Hmap : mClientMap s
                 = <[11 := destClient]> (<[10 := sourceClient]> ∅)).
  { rewrite Hsource, Hdest. unfold s, SetRoute, AddClient. simpl.
    unfold ClientMap_AllocateRoutingBufferForPID, ClientMap_AddClient.
    simpl. rewrite !fmap_insert, fmap_empty. reflexivity. }
  destruct (stored_audio_reaches_destination 8 s 10 11 sourceClient
              destClient (replicate 16 f32_zero) example_ramp io
              example_half 4) as [Hlen Hmixed].
  - lia.
  - rewrite UINT32_MOD_val. unfold kRoutingBufferChannels. lia.
  - exact Hsrc.
  - exact Hdst.
  - intros id c Hc Hpid. rewrite Hmap in Hc.
    apply lookup_insert_Some in Hc as [[<- <-] | [Hne Hc]].
    { exfalso. rewrite Hsource, Hdest in Hpid. simpl in Hpid.
      discriminate Hpid. }
    apply lookup_insert_Some in Hc as [[<- _] | [_ Hc]]; [reflexivity |].
    by rewrite lookup_empty in Hc.
  - rewrite Hsource, Hdest. reflexivity.
  - rewrite Hsource. reflexivity.
  - rewrite Hsource. reflexivity.
  - reflexivity.
  - rewrite Hsource. simpl. lia.
  - rewrite Hsource, UINT64_MOD_val. simpl. lia.
  - lia.
  - reflexivity.
  - simpl. lia.
  - split; [exact Hlen |].
    exact (Hmixed 4%nat ltac:(lia)).
Defined.

(** ** Adding clients and designating the music player *)

(** X18. The music-player tags do not depend on whether a client is added
    before or after the music player is designated: for a PID above 0,
    [AddClient] after [SetMusicPlayer(pid)] gives the same object as
    [SetMusicPlayer(pid)] after [AddClient], and so does the overload for a
    bundle id other than the empty string. *)
Theorem AddClient_commutes_with_SetMusicPlayer (kBGMAppBundleID : string)
    (inClient : BGM_Client) (s : BGM_Clients) (inPID : Z)
    (inBundleID : string) :
  0 < inPID → inBundleID ≠ "" →
  AddClient kBGMAppBundleID inClient (SetMusicPlayer_pid inPID s).1
  = (SetMusicPlayer_pid inPID (AddClient kBGMAppBundleID inClient s)).1
  ∧ AddClient kBGMAppBundleID inClient
      (SetMusicPlayer_bundle inBundleID s).1
    = (SetMusicPlayer_bundle inBundleID
         (AddClient kBGMAppBundleID inClient s)).1.
Proof.
  intros Hpid Hbundle. split.
  - rewrite !SetMusicPlayer_pid_unfold.
    destruct (Z.ltb_spec inPID 0); [lia |].
    assert (Hsame : mMusicPlayerProcessIDProperty
                      (AddClient kBGMAppBundleID inClient s)
                    = mMusicPlayerProcessIDProperty s).
    { unfold AddClient. simpl. by destruct (bool_decide _). }
    rewrite Hsame.
    destruct (mMusicPlayerProcessIDProperty s =? inPID); [done |].
    unfold AddClient. simpl.
    assert (Hactive : (inPID =? 0) = false) by lia. rewrite Hactive. simpl.
    rewrite orb_false_r.
    destruct (bool_decide (mBundleID inClient = Some kBGMAppBundleID));
      unfold upd_mClientMap, set_mBGMAppClientID, ClientMap_AddClient,
        UpdateMusicPlayerFlags_pid; simpl; by rewrite fmap_insert.
  - rewrite !SetMusicPlayer_bundle_unfold.
    assert (Hsame : mMusicPlayerBundleIDProperty
                      (AddClient kBGMAppBundleID inClient s)
                    = mMusicPlayerBundleIDProperty s).
    { unfold AddClient. simpl. by destruct (bool_decide _). }
    rewrite Hsame.
    destruct (bool_decide (mMusicPlayerBundleIDProperty s = inBundleID));
      [done |].
    unfold AddClient. simpl.
    rewrite (bool_decide_eq_false_2 (inBundleID = "")) by done. simpl.
    destruct (bool_decide (mBundleID inClient = Some kBGMAppBundleID));
      unfold upd_mClientMap, set_mBGMAppClientID, ClientMap_AddClient,
        UpdateMusicPlayerFlags_bundle; simpl; by rewrite fmap_insert.
Qed.

Lemma AddClient_commutes_with_SetMusicPlayer_witness :
  let c := BGM_Client_new 4 101 true (Some "org.videolan.vlc") in
  AddClient example_kBGMAppBundleID c (SetMusicPlayer_pid 101 example_clients).1
  = (SetMusicPlayer_pid 101
       (AddClient example_kBGMAppBundleID c example_clients)).1
  ∧ AddClient example_kBGMAppBundleID c
      (SetMusicPlayer_bundle "org.videolan.vlc" example_clients).1
    = (SetMusicPlayer_bundle "org.videolan.vlc"
         (AddClient example_kBGMAppBundleID c example_clients)).1.
Proof.
  intros c.
  apply (AddClient_commutes_with_SetMusicPlayer example_kBGMAppBundleID c
           example_clients 101 "org.videolan.vlc"); [lia | done].
Defined.

(** ** The asserted relation of the two counters *)

(** X19. Where the counters count the clients doing IO, the condition
    asserted at the end of [StartIONonRT] and [StopIONonRT] holds: from such
    an object, after every call of every sequence of [StartIONonRT] and
    [StopIONonRT] calls on any client ids, balanced or not and with no
    [AddClient] in between, [start_count_excluding_control_app] equals
    [start_count] or [start_count − 1]. *)
Theorem io_counts_stay_in_sync (s : BGM_Clients) (calls : list IOCall) :
  io_counts_ok s →
  ∀ n : nat,
    let s' := run_io_calls (take n calls) s in
    counts_in_sync s'
    ∧ (mStartCountExcludingBGMApp s' = mStartCount s'
       ∨ mStartCountExcludingBGMApp s' = mStartCount s' - 1).
Proof.
  intros Hok n s'.
  assert (Hok' : io_counts_ok s') by (by apply run_io_calls_keep_counts).
  split; [by apply io_counts_in_sync |].
  by destruct (io_counts_bounds s' Hok') as (_ & _ & ?).
Qed.

Lemma io_counts_stay_in_sync_witness :
  let calls :=
    [CallStartIO 1; CallStartIO 3; CallStartIO 2; CallStopIO 1;
     CallStopIO 3; CallStopIO 2] in
  io_counts_ok example_clients
  ∧ ∀ n : nat,
      let s' := run_io_calls (take n calls) example_clients in
      counts_in_sync s'
      ∧ (mStartCountExcludingBGMApp s' = mStartCount s'
         ∨ mStartCountExcludingBGMApp s' = mStartCount s' - 1).
Proof.
  intros calls. split; [exact example_clients_counts_ok |].
  exact (io_counts_stay_in_sync example_clients calls
           example_clients_counts_ok).
Defined.

Lemma count_doing_io_add_idle sel id c (m : gmap Z BGM_Client) :
  mDoingIO c = false → m !! id = None →
  count_doing_io sel (<[id := c]> m) = count_doing_io sel m.
Proof.
  intros Hio Hnew. unfold count_doing_io.
  rewrite map_filter_insert_not'; [reflexivity | |].
  - simpl. intros [? _]. congruence.
  - intros y Hy. congruence.
Qed.

Lemma count_doing_io_all sel (m : gmap Z BGM_Client) :
  (∀ id c, m !! id = Some c → mDoingIO c = true → sel id = true) →
  count_doing_io sel m = count_doing_io (λ _, true) m.
Proof.
  intros Hsel. unfold count_doing_io. do 2 f_equal.
  apply map_filter_ext. intros id c Hc. simpl.
  split; [tauto |]. intros [Hio _]. split; [done |]. by apply (Hsel id c).
Qed.

(** X20. When [AddClient] keeps the counters in step with the clients
    doing IO: on an object whose counters count the clients doing IO, adding
    a client that does no IO yet under a new [UInt32] id gives such an
    object again, provided that, when the client carries the bundle id of
    BGMApp, the client cached as BGMApp so far is not doing IO. The
    condition asserted by [StartIONonRT] and [StopIONonRT] then holds after
    every later call. *)
Theorem AddClient_keeps_counts (kBGMAppBundleID : string)
    (inClient : BGM_Client) (s : BGM_Clients) :
  io_counts_ok s →
  new_client_ok inClient →
  mClientMap s !! mClientID inClient = None →
  (mBundleID inClient = Some kBGMAppBundleID →
   ∀ c, mClientMap s !! mBGMAppClientID s = Some c → mDoingIO c = false) →
  let s' := AddClient kBGMAppBundleID inClient s in
  io_counts_ok s'
  ∧ ∀ calls, counts_in_sync (run_io_calls calls s').
Proof.
  intros [Hstart Hexcl Hids] [Hio Hid] Hnew Happ s'.
  assert (Hok : io_counts_ok s').
  { unfold s', AddClient. cbv zeta.
    set (c := set_mIsMusicPlayer _ inClient).
    assert (Hcio : mDoingIO c = false) by done.
    assert (Hcid : mClientID c = mClientID inClient) by done.
    assert (Hcb : mBundleID c = mBundleID inClient) by done.
    rewrite Hcb, Hcid.
    destruct (bool_decide (mBundleID inClient = Some kBGMAppBundleID))
      eqn:Hbundle; split; simpl; unfold ClientMap_AddClient; rewrite ?Hcid.
    - by rewrite count_doing_io_add_idle.
    - apply bool_decide_eq_true_1 in Hbundle.
      rewrite count_doing_io_add_idle by done.
      rewrite Hexcl.
      rewrite (count_doing_io_all (λ id, negb (id =? mBGMAppClientID s))).
      2: { intros id c0 Hc0 Hio0.
           destruct (Z.eqb_spec id (mBGMAppClientID s)) as [-> |]; [| done].
           rewrite (Happ Hbundle c0 Hc0) in Hio0. discriminate Hio0. }
      rewrite (count_doing_io_all (λ id, negb (id =? mClientID inClient)));
        [reflexivity |].
      intros id c0 Hc0 Hio0.
      destruct (Z.eqb_spec id (mClientID inClient)) as [-> |]; [| done].
      congruence.
    - by apply map_Forall_insert_2.
    - by rewrite count_doing_io_add_idle.
    - by rewrite count_doing_io_add_idle.
    - by apply map_Forall_insert_2. }
  split; [exact Hok |].
  intros calls. by apply io_counts_in_sync, run_io_calls_keep_counts.
Qed.

Lemma AddClient_keeps_counts_witness :
  let c := BGM_Client_new 4 102 true (Some example_kBGMAppBundleID) in
  let s' := AddClient example_kBGMAppBundleID c
              (run_io_calls [CallStartIO 1] example_clients) in
  io_counts_ok s'
  ∧ ∀ calls, counts_in_sync (run_io_calls calls s').
Proof.
  intros c.
  apply (AddClient_keeps_counts example_kBGMAppBundleID c
           (run_io_calls [CallStartIO 1] example_clients)).
  - apply run_io_calls_keep_counts, example_clients_counts_ok.
  - split; [reflexivity |]. rewrite UINT32_MOD_val. simpl. lia.
  - vm_compute. reflexivity.
  - intros _ c0 Hc0. vm_compute in Hc0. injection Hc0 as <-. reflexivity.
Defined.
